(** * Untwister: the recovery engine of [untwister.cpp] and [prngs/GlibcRand.cpp]

    A shallow embedding of the seed brute-forcer (BruteForce, StatusThread,
    DivisionOfLabor, SpawnThreads), of state inference (InferState), of the
    tail of main, and of GlibcRand's state accessors.

    Conventions.
    - [uint32_t] values (seeds, output words, work sizes) are integers in
      [Z]; every operation that can leave the range [0, 2^32) is wrapped
      with [wrap32].
    - Counters that only index a [std::vector] (matchesFound, index_obs,
      index_pred, the window index i) are natural numbers: they never pass
      the size of the vector they index, sizes being below 2^32.
    - The [double] values of the engine are all quotients of two such
      counters, scaled by 100 or not.  They are kept as exact rationals
      in reduced form ([Qred]): the value before IEEE rounding.  For
      32-bit counters m <= n the rounded ((double) m / (double) n) * 100.0
      is 0.0 exactly when m = 0, 100.0 exactly when m = n and below 100.0
      otherwise, and it lies between 0.0 and 100.0; the statements below
      rest on these facts, and where one names another value it is one
      both arithmetics compute exactly (50 for one match in two).  A
      quotient by zero (NaN or infinity) is written out. *)

From Stdlib Require Import ZArith QArith Qreduction Lia Bool.
From stdpp Require Import base option list sorting.

Local Open Scope Z_scope.

(** ** 32-bit words *)

Definition wrap32 (z : Z) : Z := z mod 2 ^ 32.

(** ** The PRNG interface

    The virtual methods of a generator, as untwister.cpp calls them and
    GlibcRand.cpp implements them.  A generator object carries hidden
    mutable state of type [G]; every method threads that state. *)

Class PRNG (G : Type) := {
  (* factory.getInstance(rng) *)
  getInstance : G;
  seed : Z -> G -> G;
  random : G -> Z * G;
  getStateSize : G -> nat;
  setState : list Z -> G -> G;
  getState : G -> list Z;
  setEvidence : list Z -> G -> G;
  tune : list Z -> list Z -> G -> G;
  predictForward : Z -> G -> list Z * G;
  predictBackward : Z -> G -> list Z * G;
  (* reverseToSeed(&outSeed, depth): [Some s] is a true return with
     outSeed = s, [None] a false return *)
  reverseToSeed : Z -> G -> option Z * G
}.

(** The first [n] words a generator yields from state [g]. *)
Fixpoint outputs {G} `{PRNG G} (n : nat) (g : G) : list Z :=
  match n with
  | O => []
  | S n' => let '(x, g') := random g in x :: outputs n' g'
  end.

(** ** DivisionOfLabor (untwister.cpp, 156-174) *)

Fixpoint DivisionOfLabor_loop (todo : nat) (index : nat) (work leftover : Z)
    (labor : list Z) : list Z :=
  match todo with
  | O => labor
  | S todo' =>
      if 0 <? leftover
      then DivisionOfLabor_loop todo' (S index) work (wrap32 (leftover - 1))
             (<[index := wrap32 (work + 1)]> labor)
      else DivisionOfLabor_loop todo' (S index) work leftover
             (<[index := work]> labor)
  end.

Definition DivisionOfLabor (sizeOfWork numberOfWorkers : Z) : list Z :=
  let work := sizeOfWork / numberOfWorkers in
  let leftover := sizeOfWork mod numberOfWorkers in
  let labor := replicate (Z.to_nat numberOfWorkers) 0 in
  DivisionOfLabor_loop (Z.to_nat numberOfWorkers) 0 work leftover labor.

Definition sumZ (l : list Z) : Z := foldr Z.add 0 l.

(** ** Doubles

    [DNaN] and [DInf] are the results of 0.0/0.0 and of x/0.0 with x > 0;
    no negative value occurs, every operand being an unsigned count. *)

Inductive double := DFin (q : Q) | DInf | DNaN.

(* ((double) a / (double) b) * 100.0, before rounding *)
Definition percent_of (a b : Z) : double :=
  if b =? 0 then (if a =? 0 then DNaN else DInf)
  else DFin (Qred (inject_Z a / inject_Z b * 100)).

(* (double) a / (double) b, before rounding *)
Definition quotient_of (a b : Z) : double :=
  if b =? 0 then (if a =? 0 then DNaN else DInf)
  else DFin (Qred (inject_Z a / inject_Z b)).

(* x <= y on doubles: false as soon as one side is NaN *)
Definition dle (x y : double) : bool :=
  match x, y with
  | DNaN, _ | _, DNaN => false
  | _, DInf => true
  | DInf, DFin _ => false
  | DFin a, DFin b => Qle_bool a b
  end.

(* x < y on doubles *)
Definition dlt (x y : double) : bool :=
  match x, y with
  | DNaN, _ | _, DNaN => false
  | DInf, _ => false
  | DFin _, DInf => true
  | DFin a, DFin b => negb (Qle_bool b a)
  end.

(** A finite percentage. *)
Definition score_ok (sc : double) : Prop :=
  exists q, sc = DFin q /\ (0 <= q <= 100)%Q.

(** Pair of <seed, quality of fit> *)
Definition Seed : Type := Z * double.

(** ** Shared data of the seed search *)

Record Shared := {
  isCompleted : bool;           (* bool& isCompleted *)
  status : list Z;              (* std::vector<uint32_t>* status *)
  answers : list (list Seed)    (* std::vector<std::vector<Seed>* > *answers *)
}.

Record BruteForceArgs := {
  a_id : nat;
  a_minimumConfidence : double;
  a_startingSeed : Z;
  a_endingSeed : Z;
  a_depth : Z
}.

(** Where a worker stands between two accesses to the shared data. *)
Inductive WorkerPc :=
  | AtEntry                          (* before line 78 *)
  | AtLoopHead                       (* line 82, before the test *)
  | AtRecord (matchesFound : nat)    (* line 107, the flag was read false *)
  | Returned.

Inductive ReporterPc :=
  | AtWhile                          (* line 138, before the test *)
  | InBody                           (* line 140, the flag was read false *)
  | Finished.

Inductive Thread := WorkerThread (id : nat) | ReporterThread.

(** What InferState prints, and the value of its locals when it returns. *)
Inductive Msg :=
  | NotEnoughObserved (stateSize : nat)
  | FoundSeed (outSeed : Z)
  | FoundState (state : list Z)
  | BestStateGuess (highscore : double) (state : list Z)
  | InferenceFailed.

Record InferResult := {
  ir_return : bool;
  ir_output : list Msg;
  ir_windows : nat;              (* loop bodies entered *)
  ir_scores : list double;       (* scores *)
  ir_best_state : list Z         (* best_state *)
}.

Inductive ExitCode := EXIT_SUCCESS | EXIT_FAILURE.

Record MainRun := {
  m_exit : ExitCode;
  m_inference : option InferResult;   (* InferState(rng), when called *)
  m_find_seed : bool                  (* whether FindSeed was called *)
}.

Section Engine.
Context {G : Type} `{!PRNG G}.

(** static std::vector<uint32_t> observedOutputs *)
Variable observedOutputs : list Z.

Record Worker := {
  w_args : BruteForceArgs;
  w_pc : WorkerPc;
  w_seedIndex : Z;
  w_generator : G
}.

(** *** BruteForce (73-118) *)

(** The depth loop, lines 86-100.  [None] is a read of
    observedOutputs[matchesFound] past the end of the vector. *)
Fixpoint BruteForce_depth (todo : nat) (g : G) (matchesFound : nat)
    : option (nat * G) :=
  match todo with
  | O => Some (matchesFound, g)
  | S todo' =>
      let '(nextRand, g') := random g in
      match observedOutputs !! matchesFound with
      | None => None
      | Some observed =>
          if observed =? nextRand then
            if (S matchesFound =? length observedOutputs)%nat
            then Some (S matchesFound, g')
            else BruteForce_depth todo' g' (S matchesFound)
          else BruteForce_depth todo' g' matchesFound
      end
  end.

(** Lines 107-115 for the seed [seedIndex] with [matchesFound] matches. *)
Definition BruteForce_record (a : BruteForceArgs) (seedIndex : Z)
    (matchesFound : nat) (sh : Shared) : option Shared :=
  let id := a_id a in
  if decide (id < length (status sh) /\ id < length (answers sh))%nat then
    let status' := <[id := wrap32 (seedIndex - a_startingSeed a)]> (status sh) in
    let confidence :=
      percent_of (Z.of_nat matchesFound) (Z.of_nat (length observedOutputs)) in
    let answers' :=
      if dle (a_minimumConfidence a) confidence
      then <[id := (answers sh !!! id) ++ [(seedIndex, confidence)]]> (answers sh)
      else answers sh in
    let isCompleted' :=
      if (matchesFound =? length observedOutputs)%nat then true
      else isCompleted sh in
    Some {| isCompleted := isCompleted'; status := status'; answers := answers' |}
  else None.

(** One step of a worker: the code between two accesses to the shared
    data.  [None] is an out-of-range access (.at throwing, or a read
    past the end of observedOutputs). *)
Definition BruteForce_step (w : Worker) (sh : Shared) : option (Worker * Shared) :=
  let a := w_args w in
  match w_pc w with
  | AtEntry =>
      if decide (a_id a < length (answers sh))%nat then
        Some ({| w_args := a; w_pc := AtLoopHead;
                 w_seedIndex := a_startingSeed a; w_generator := getInstance |},
              {| isCompleted := isCompleted sh; status := status sh;
                 answers := <[a_id a := []]> (answers sh) |})
      else None
  | AtLoopHead =>
      if w_seedIndex w <=? a_endingSeed a then
        match BruteForce_depth (Z.to_nat (a_depth a))
                (seed (w_seedIndex w) (w_generator w)) 0 with
        | None => None
        | Some (matchesFound, g') =>
            Some ({| w_args := a;
                     w_pc := if isCompleted sh then Returned else AtRecord matchesFound;
                     w_seedIndex := w_seedIndex w; w_generator := g' |}, sh)
        end
      else
        Some ({| w_args := a; w_pc := Returned;
                 w_seedIndex := w_seedIndex w; w_generator := w_generator w |}, sh)
  | AtRecord matchesFound =>
      match BruteForce_record a (w_seedIndex w) matchesFound sh with
      | None => None
      | Some sh' =>
          Some ({| w_args := a; w_pc := AtLoopHead;
                   w_seedIndex := wrap32 (w_seedIndex w + 1);
                   w_generator := w_generator w |}, sh')
      end
  | Returned => Some (w, sh)
  end.

(** A worker running alone for [n] steps. *)
Fixpoint BruteForce_run (n : nat) (w : Worker) (sh : Shared)
    : option (Worker * Shared) :=
  match n with
  | O => Some (w, sh)
  | S n' =>
      match BruteForce_step w sh with
      | None => None
      | Some (w', sh') => BruteForce_run n' w' sh'
      end
  end.

Definition BruteForce_start (a : BruteForceArgs) : Worker :=
  {| w_args := a; w_pc := AtEntry; w_seedIndex := 0; w_generator := getInstance |}.

(** *** StatusThread (134-153) *)

Definition StatusThread_sum (status : list Z) : Z :=
  foldl (fun sum s => wrap32 (sum + s)) 0 status.

Definition StatusThread_step (totalWork : Z) (pc : ReporterPc) (sh : Shared)
    : ReporterPc * Shared :=
  match pc with
  | AtWhile => if isCompleted sh then (Finished, sh) else (InBody, sh)
  | InBody =>
      let sum := StatusThread_sum (status sh) in
      let percent := percent_of sum totalWork in
      (AtWhile, {| isCompleted := dle (DFin 100) percent;
                   status := status sh; answers := answers sh |})
  | Finished => (Finished, sh)
  end.

(** *** SpawnThreads (176-199) and FindSeed (201-227) *)

Fixpoint SpawnThreads_loop (todo : nat) (id : nat) (startAt : Z) (labor : list Z)
    (minimumConfidence : double) (depth : Z) : option (list BruteForceArgs) :=
  match todo with
  | O => Some []
  | S todo' =>
      match labor !! id with
      | None => None
      | Some l =>
          let endAt := wrap32 (startAt + l) in
          match SpawnThreads_loop todo' (S id) (wrap32 (startAt + l)) labor
                  minimumConfidence depth with
          | None => None
          | Some rest =>
              Some ({| a_id := id; a_minimumConfidence := minimumConfidence;
                       a_startingSeed := startAt; a_endingSeed := endAt;
                       a_depth := depth |} :: rest)
          end
      end
  end.

Definition SpawnThreads_args (threads : Z) (minimumConfidence : double)
    (lowerBoundSeed upperBoundSeed depth : Z) : option (list BruteForceArgs) :=
  let labor := DivisionOfLabor (wrap32 (upperBoundSeed - lowerBoundSeed)) threads in
  SpawnThreads_loop (Z.to_nat threads) 0 lowerBoundSeed labor minimumConfidence depth.

Record System := {
  sys_shared : Shared;
  sys_workers : list Worker;
  sys_reporter : ReporterPc;
  sys_totalWork : Z
}.

(** The threads right after the spawn loop, over the vectors FindSeed and
    SpawnThreads allocate. *)
Definition SpawnThreads (threads : Z) (minimumConfidence : double)
    (lowerBoundSeed upperBoundSeed depth : Z) : option System :=
  match SpawnThreads_args threads minimumConfidence lowerBoundSeed upperBoundSeed depth with
  | None => None
  | Some args =>
      Some {| sys_shared := {| isCompleted := false;
                               status := replicate (Z.to_nat threads) 0;
                               answers := replicate (Z.to_nat threads) [] |};
              sys_workers := BruteForce_start <$> args;
              sys_reporter := AtWhile;
              sys_totalWork := wrap32 (upperBoundSeed - lowerBoundSeed) |}
  end.

(** One step of the thread the scheduler picks. *)
Definition system_step (t : Thread) (s : System) : option System :=
  match t with
  | WorkerThread id =>
      match sys_workers s !! id with
      | None => None
      | Some w =>
          match BruteForce_step w (sys_shared s) with
          | None => None
          | Some (w', sh') =>
              Some {| sys_shared := sh'; sys_workers := <[id := w']> (sys_workers s);
                      sys_reporter := sys_reporter s; sys_totalWork := sys_totalWork s |}
          end
      end
  | ReporterThread =>
      let '(pc', sh') := StatusThread_step (sys_totalWork s) (sys_reporter s) (sys_shared s) in
      Some {| sys_shared := sh'; sys_workers := sys_workers s;
              sys_reporter := pc'; sys_totalWork := sys_totalWork s |}
  end.

Fixpoint system_run (schedule : list Thread) (s : System) : option System :=
  match schedule with
  | [] => Some s
  | t :: schedule' =>
      match system_step t s with
      | None => None
      | Some s' => system_run schedule' s'
      end
  end.

(** The seeds FindSeed prints, in worker-then-insertion order. *)
Definition FindSeed_report (sh : Shared) : list Seed := concat (answers sh).

(** *** InferState (235-351) *)

(** Forward scoring, lines 279-290. *)
Fixpoint InferState_forward (todo : nat) (predictions_forward : list Z)
    (matchesFound index_pred index_obs : nat) : nat :=
  match todo with
  | O => matchesFound
  | S todo' =>
      match observedOutputs !! index_obs, predictions_forward !! index_pred with
      | Some o, Some p =>
          if o =? p
          then InferState_forward todo' predictions_forward
                 (S matchesFound) (S index_pred) (S index_obs)
          else InferState_forward todo' predictions_forward
                 matchesFound (S index_pred) index_obs
      | _, _ => matchesFound
      end
  end.

(** Backward scoring, lines 293-303; index_obs never exceeds i, so the
    read of observedOutputs is in range. *)
Fixpoint InferState_backward (todo : nat) (predictions_backward : list Z)
    (matchesFound index_pred index_obs : nat) : nat :=
  match todo with
  | O => matchesFound
  | S todo' =>
      if (0 <? index_obs)%nat then
        match observedOutputs !! index_obs, predictions_backward !! index_pred with
        | Some o, Some p =>
            if o =? p
            then InferState_backward todo' predictions_backward
                   (S matchesFound) (S index_pred) (index_obs - 1)
            else InferState_backward todo' predictions_backward
                   matchesFound (S index_pred) index_obs
        | _, _ => matchesFound
        end
      else matchesFound
  end.

(** Lines 257-303 for the window at [i]: the match count and the
    generator afterwards. *)
Definition InferState_window (stateSize i : nat) (generator : G) : nat * G :=
  let n := length observedOutputs in
  let state := take stateSize (drop i observedOutputs) in
  let evidenceForward := take i observedOutputs in
  let evidenceBackward := drop (i + stateSize + 1) observedOutputs in
  let g1 := setState state generator in
  let g2 := setEvidence observedOutputs g1 in
  let g3 := tune evidenceForward evidenceBackward g2 in
  let '(predictions_forward, g4) :=
    predictForward (wrap32 (Z.of_nat ((n - stateSize) - i))) g3 in
  let '(predictions_backward, g5) :=
    predictBackward (Z.of_nat i) g4 in
  let matchesFound :=
    InferState_forward (length predictions_forward) predictions_forward
      0 0 (i + stateSize) in
  let matchesFound :=
    InferState_backward (length predictions_backward) predictions_backward
      matchesFound 0 i in
  (matchesFound, g5).

(** The window loop from index [i] on, [todo] windows left, and the
    code after it (lines 255-350). *)
Fixpoint InferState_loop (todo : nat) (stateSize i : nat) (generator : G)
    (highscore : double) (scores : list double) (best_state : list Z)
    : InferResult :=
  match todo with
  | O =>
      {| ir_return := false;
         ir_output :=
           if dlt (DFin 0) highscore
           then [BestStateGuess highscore (getState generator)]
           else [InferenceFailed];
         ir_windows := i; ir_scores := scores; ir_best_state := best_state |}
  | S todo' =>
      let '(matchesFound, g) := InferState_window stateSize i generator in
      if (matchesFound =? length observedOutputs - stateSize)%nat then
        {| ir_return := true;
           ir_output :=
             match reverseToSeed 10000 g with
             | (Some outSeed, _) => [FoundSeed outSeed]
             | (None, g') => [FoundState (getState g')]
             end;
           ir_windows := S i; ir_scores := scores; ir_best_state := best_state |}
      else
        let score :=
          quotient_of (wrap32 (Z.of_nat matchesFound * 100))
            (Z.of_nat (length observedOutputs - stateSize)) in
        InferState_loop todo' stateSize (S i) g highscore (scores ++ [score])
          (if dlt highscore score then getState g else best_state)
  end.

Definition InferState : InferResult :=
  let generator := getInstance in
  let stateSize := getStateSize generator in
  if (length observedOutputs <=? stateSize)%nat then
    {| ir_return := false; ir_output := [NotEnoughObserved stateSize];
       ir_windows := 0; ir_scores := []; ir_best_state := [] |}
  else
    InferState_loop (length observedOutputs - stateSize) stateSize 0 generator
      (DFin 0) [] [].

(** *** main, from line 465 on *)

Definition main_tail : MainRun :=
  match observedOutputs with
  | [] => {| m_exit := EXIT_FAILURE; m_inference := None; m_find_seed := false |}
  | _ :: _ =>
      let r := InferState in
      if ir_return r
      then {| m_exit := EXIT_SUCCESS; m_inference := Some r; m_find_seed := false |}
      else {| m_exit := EXIT_SUCCESS; m_inference := Some r; m_find_seed := true |}
  end.

(** *** Vocabulary of the statements below *)

(** The first [d] outputs of a fresh generator seeded with [s]. *)
Definition stream (s : Z) (d : nat) : list Z := outputs d (seed s getInstance).

(** A worker about to record holds a match count within the
    observations. *)
Definition worker_ok (w : Worker) : Prop :=
  forall m, w_pc w = AtRecord m -> (m <= length observedOutputs)%nat.

(** A recorded answer: a finite percentage between 0 and 100 that
    passed the test against the minimum confidence. *)
Definition answer_ok (minimumConfidence : double) (sd : Seed) : Prop :=
  exists q, sd.2 = DFin q /\ dle minimumConfidence (DFin q) = true
            /\ (0 <= q <= 100)%Q.

Definition system_ok (minimumConfidence : double) (s : System) : Prop :=
  length (sys_workers s) = length (answers (sys_shared s)) /\
  forall id w, sys_workers s !! id = Some w ->
    a_id (w_args w) = id /\
    a_minimumConfidence (w_args w) = minimumConfidence /\
    worker_ok w /\
    forall l, answers (sys_shared s) !! id = Some l ->
              Forall (answer_ok minimumConfidence) l.

(** The generator as the window loop finds it on entering window [i]
    when no earlier window returned, and the match count of that
    window. *)
Fixpoint InferState_generator_at (stateSize i : nat) : G :=
  match i with
  | O => getInstance
  | S j => (InferState_window stateSize j (InferState_generator_at stateSize j)).2
  end.

Definition InferState_matches_at (stateSize i : nat) : nat :=
  (InferState_window stateSize i (InferState_generator_at stateSize i)).1.

(** *** GenerateSample (121-132) *)

(** The values GenerateSample prints, one per line. *)
Definition GenerateSample (seedValue depth : Z) : list Z :=
  outputs (Z.to_nat depth) (seed seedValue getInstance).

(** The generator after [n] calls of random. *)
Fixpoint advance (n : nat) (g : G) : G :=
  match n with
  | O => g
  | S n' => advance n' (random g).2
  end.

(** *** What a worker left alone records *)

(** The confidence BruteForce computes for the seed [s] at depth [depth],
    on a fresh generator. *)
Definition confidence_of (depth : Z) (s : Z) : double :=
  match BruteForce_depth (Z.to_nat depth) (seed s getInstance) 0 with
  | Some (m, _) => percent_of (Z.of_nat m) (Z.of_nat (length observedOutputs))
  | None => DNaN
  end.

(** The pairs recorded for [seeds], in order: each seed whose confidence
    is at least [minimumConfidence]. *)
Definition answers_for (minimumConfidence : double) (depth : Z) (seeds : list Z)
    : list Seed :=
  concat ((fun s => if dle minimumConfidence (confidence_of depth s)
                    then [(s, confidence_of depth s)] else []) <$> seeds).

(** *** Invariants of the running search *)

(** Every worker owns the slots of its id, and [I] relates its local
    state to its answer list and its progress counter. *)
Definition slots_ok (I : Worker -> list Seed -> Z -> Prop) (s : System) : Prop :=
  length (answers (sys_shared s)) = length (sys_workers s) /\
  length (status (sys_shared s)) = length (sys_workers s) /\
  forall id w, sys_workers s !! id = Some w ->
    a_id (w_args w) = id /\
    I w (answers (sys_shared s) !!! id) (status (sys_shared s) !!! id).

(** [I] is kept by every step of a worker on its own slots. *)
Definition step_keeps (I : Worker -> list Seed -> Z -> Prop) : Prop :=
  forall w sh w' sh',
    (a_id (w_args w) < length (answers sh))%nat ->
    (a_id (w_args w) < length (status sh))%nat ->
    BruteForce_step w sh = Some (w', sh') ->
    I w (answers sh !!! a_id (w_args w)) (status sh !!! a_id (w_args w)) ->
    I w' (answers sh' !!! a_id (w_args w)) (status sh' !!! a_id (w_args w)).

(** A worker whose interval lies within [lower, upper]: where its seed
    index stands, what its progress counter holds, and which seeds its
    list holds, in which order. *)
Definition worker_in_range (lower upper : Z) (w : Worker) (l : list Seed) (v : Z)
    : Prop :=
  let a := w_args w in
  (lower <= a_startingSeed a /\ a_startingSeed a <= a_endingSeed a
   /\ a_endingSeed a <= upper) /\
  match w_pc w with
  | AtEntry => l = [] /\ v = 0
  | AtRecord _ =>
      a_startingSeed a <= w_seedIndex w <= a_endingSeed a /\
      0 <= v <= w_seedIndex w - a_startingSeed a /\
      Forall (fun sd : Seed => a_startingSeed a <= sd.1 < w_seedIndex w) l /\
      StronglySorted (fun x y : Seed => x.1 < y.1) l
  | AtLoopHead | Returned =>
      a_startingSeed a <= w_seedIndex w <= a_endingSeed a + 1 /\
      (0 <= v <= w_seedIndex w - a_startingSeed a
       /\ v <= a_endingSeed a - a_startingSeed a) /\
      Forall (fun sd : Seed => a_startingSeed a <= sd.1 < w_seedIndex w) l /\
      StronglySorted (fun x y : Seed => x.1 < y.1) l
  end.

(** A worker at depth [depth]: the count it is about to record is the one
    the depth loop gives for its seed on a fresh generator, and so was the
    count behind each pair of its list. *)
Definition worker_counts (depth : Z) (w : Worker) (l : list Seed) (v : Z) : Prop :=
  a_depth (w_args w) = depth /\
  (forall m, w_pc w = AtRecord m ->
     fst <$> BruteForce_depth (Z.to_nat depth) (seed (w_seedIndex w) getInstance) 0
     = Some m) /\
  Forall (fun sd : Seed =>
            exists m,
              fst <$> BruteForce_depth (Z.to_nat depth) (seed sd.1 getInstance) 0
              = Some m
              /\ sd.2 = percent_of (Z.of_nat m) (Z.of_nat (length observedOutputs)))
         l.

End Engine.

(** ** GlibcRand (prngs/GlibcRand.cpp) *)

Module GlibcRand.
Section WithStateSize.
(** GLIBC_RAND_STATE_SIZE, a constant of GlibcRand.h. *)
Variable GLIBC_RAND_STATE_SIZE : nat.

Record t := { seedValue : Z; m_state : list Z }.

Definition create : t := {| seedValue := 0; m_state := [] |}.

Definition getSeed (g : t) : Z := seedValue g.

Definition getStateSize (g : t) : nat := GLIBC_RAND_STATE_SIZE.

(* m_state = inState; m_state.resize(GLIBC_RAND_STATE_SIZE, 0); *)
Definition setState (inState : list Z) (g : t) : t :=
  {| seedValue := seedValue g;
     m_state := resize GLIBC_RAND_STATE_SIZE 0 inState |}.

Definition getState (g : t) : list Z := m_state g.

Definition predictForward (n : Z) (g : t) : list Z * t := ([], g).

Definition predictBackward (n : Z) (g : t) : list Z * t := ([], g).

(** The C library behind seed and random: srand and rand over the
    library's hidden state, and that state when the program starts. *)
Variable libc : Type.
Variable srand : Z -> libc -> libc.
Variable rand : libc -> Z * libc.
Variable libc_start : libc.

(** The methods GlibcRand.cpp does not define, left to the PRNG base
    class. *)
Variable base_setEvidence : list Z -> t * libc -> t * libc.
Variable base_tune : list Z -> list Z -> t * libc -> t * libc.
Variable base_reverseToSeed : Z -> t * libc -> option Z * (t * libc).

(* seedValue = value; srand(value); *)
Definition seed (value : Z) (g : t * libc) : t * libc :=
  ({| seedValue := value; m_state := m_state g.1 |}, srand value g.2).

(* return rand(); *)
Definition random (g : t * libc) : Z * (t * libc) :=
  let '(x, l') := rand g.2 in (wrap32 x, (g.1, l')).

(** GlibcRand as a generator of the engine. *)
Definition prng : PRNG (t * libc) :=
  Build_PRNG (t * libc)
    (create, libc_start)
    seed
    random
    (fun g => getStateSize g.1)
    (fun inState g => (setState inState g.1, g.2))
    (fun g => getState g.1)
    base_setEvidence
    base_tune
    (fun n g => ((predictForward n g.1).1, ((predictForward n g.1).2, g.2)))
    (fun n g => ((predictBackward n g.1).1, ((predictBackward n g.1).2, g.2)))
    base_reverseToSeed.

End WithStateSize.
End GlibcRand.

(** ** A small generator to run the engine on

    The linear congruential generator x' = x + 1 mod 2^32 whose state is
    its last output: one state word, exact predictions both ways, no
    reversal to a seed. *)

Module Lcg.

Fixpoint count_up (n : nat) (x : Z) : list Z :=
  match n with
  | O => []
  | S n' => wrap32 (x + 1) :: count_up n' (wrap32 (x + 1))
  end.

Fixpoint count_down (n : nat) (x : Z) : list Z :=
  match n with
  | O => []
  | S n' => wrap32 (x - 1) :: count_down n' (wrap32 (x - 1))
  end.

#[export] Instance prng : PRNG Z := {|
  getInstance := 0;
  seed := fun value _ => wrap32 value;
  random := fun x => (wrap32 (x + 1), wrap32 (x + 1));
  getStateSize := fun _ => 1%nat;
  setState := fun inState _ => default 0 (inState !! 0%nat);
  getState := fun x => [x];
  setEvidence := fun _ x => x;
  tune := fun _ _ x => x;
  predictForward := fun n x => (count_up (Z.to_nat n) x, x);
  predictBackward := fun n x => (count_down (Z.to_nat n) x, x);
  reverseToSeed := fun _ x => (None, x)
|}.

End Lcg.

(** ** Facts *)

Lemma wrap32_small z : 0 <= z < 2 ^ 32 -> wrap32 z = z.
Proof. intros Hz. unfold wrap32. apply Z.mod_small. exact Hz. Qed.

Lemma sumZ_app l1 l2 : sumZ (l1 ++ l2) = sumZ l1 + sumZ l2.
Proof. induction l1 as [|x l1 IH]; simpl; [reflexivity | rewrite IH; lia]. Qed.

Lemma sumZ_replicate n x : sumZ (replicate n x) = Z.of_nat n * x.
Proof. induction n as [|n IH]; [reflexivity|]. simpl replicate. simpl sumZ. fold (sumZ (replicate n x)). lia. Qed.

Lemma DivisionOfLabor_loop_spec todo : forall pre work leftover,
  0 <= leftover < 2 ^ 32 -> 0 <= work ->
  (0 < leftover -> work + 1 < 2 ^ 32) ->
  DivisionOfLabor_loop todo (length pre) work leftover (pre ++ replicate todo 0)
  = pre ++ replicate (Nat.min todo (Z.to_nat leftover)) (work + 1)
        ++ replicate (todo - Z.to_nat leftover) work.
Proof.
  induction todo as [|todo IH]; intros pre work leftover Hl Hw Hov.
  - simpl. reflexivity.
  - cbn [DivisionOfLabor_loop].
    assert (Hins : forall v, <[length pre := v]> (pre ++ replicate (S todo) 0)
                   = (pre ++ [v]) ++ replicate todo 0).
    { intros v. rewrite insert_app_r_alt by lia.
      rewrite Nat.sub_diag. simpl. rewrite <- app_assoc. reflexivity. }
    assert (Hlen : forall v, S (length pre) = length (pre ++ [v])).
    { intros v. rewrite length_app. simpl. lia. }
    destruct (0 <? leftover) eqn:Hpos.
    + apply Z.ltb_lt in Hpos.
      rewrite !wrap32_small by lia.
      rewrite Hins, (Hlen (work + 1)), IH by lia.
      replace (Z.to_nat leftover) with (S (Z.to_nat (leftover - 1))) by lia.
      simpl. rewrite <- app_assoc. reflexivity.
    + apply Z.ltb_ge in Hpos.
      assert (leftover = 0) as -> by lia.
      rewrite Hins, (Hlen work), IH by lia.
      simpl. rewrite Nat.min_0_r, Nat.sub_0_r. simpl.
      rewrite <- app_assoc. reflexivity.
Qed.

(** *** Percentages *)

Lemma percent_of_full n : 0 < n -> percent_of n n = DFin 100.
Proof.
  intros Hn. unfold percent_of.
  destruct (Z.eqb_spec n 0) as [->|_]; [lia|].
  f_equal. change (100%Q) with (Qred 100) at 2.
  apply Qred_complete.
  assert (Hnz : ~ inject_Z n == 0).
  { change 0%Q with (inject_Z 0). rewrite inject_Z_injective. lia. }
  unfold Qdiv. rewrite Qmult_inv_r by exact Hnz. reflexivity.
Qed.

Lemma percent_of_bounds m n q :
  0 <= m <= n -> percent_of m n = DFin q -> (0 <= q <= 100)%Q.
Proof.
  intros Hmn. unfold percent_of.
  destruct (Z.eqb_spec n 0) as [->|Hn0].
  - destruct (m =? 0); discriminate.
  - intros [= <-]. rewrite Qred_correct.
    assert (Hpos : (0 < inject_Z n)%Q).
    { change 0%Q with (inject_Z 0). rewrite <- Zlt_Qlt. lia. }
    assert (Hlo : (0 <= inject_Z m / inject_Z n)%Q).
    { apply Qle_shift_div_l; [exact Hpos|]. rewrite Qmult_0_l.
      change 0%Q with (inject_Z 0). rewrite <- Zle_Qle. lia. }
    assert (Hhi : (inject_Z m / inject_Z n <= 1)%Q).
    { apply Qle_shift_div_r; [exact Hpos|]. rewrite Qmult_1_l.
      rewrite <- Zle_Qle. lia. }
    split.
    + apply Qmult_le_0_compat; [exact Hlo | discriminate].
    + change (100%Q) with (1 * 100)%Q at 2.
      apply Qmult_le_compat_r; [exact Hhi | discriminate].
Qed.

Lemma percent_of_finite m n : 0 <= m <= n -> percent_of m n <> DInf.
Proof.
  intros Hmn. unfold percent_of.
  destruct (Z.eqb_spec n 0) as [->|_]; [|discriminate].
  destruct (Z.eqb_spec m 0) as [->|Hm]; [discriminate | lia].
Qed.

Lemma dle_dlt_trans x y q :
  dlt (DFin 0) x = true -> dle x y = true -> y = DFin q -> (0 < q)%Q.
Proof.
  intros Hx Hxy ->. destruct x as [p| |]; simpl in *; try discriminate.
  apply negb_true_iff in Hx.
  destruct (Qlt_le_dec 0 p) as [Hp|Hp].
  - apply Qle_bool_iff in Hxy. eapply Qlt_le_trans; eassumption.
  - apply Qle_bool_iff in Hp. congruence.
Qed.

(** C5.  For a work size W and a worker count N >= 1 (both 32-bit),
    DivisionOfLabor returns exactly N sizes, none negative, that sum to W
    and pairwise differ by at most one, the larger first: W mod N entries
    equal to W/N + 1 followed by entries equal to W/N. *)
Theorem DivisionOfLabor_sound (W N : Z) :
  0 <= W < 2 ^ 32 -> 1 <= N < 2 ^ 32 ->
  length (DivisionOfLabor W N) = Z.to_nat N /\
  Forall (fun x => 0 <= x) (DivisionOfLabor W N) /\
  sumZ (DivisionOfLabor W N) = W /\
  (forall x y, x ∈ DivisionOfLabor W N -> y ∈ DivisionOfLabor W N ->
               Z.abs (x - y) <= 1) /\
  DivisionOfLabor W N
  = replicate (Z.to_nat (W mod N)) (W / N + 1)
    ++ replicate (Z.to_nat (N - W mod N)) (W / N).
Proof.
  intros HW HN.
  assert (Hmod : 0 <= W mod N < N) by (apply Z.mod_pos_bound; lia).
  assert (Hdiv : 0 <= W / N) by (apply Z.div_pos; lia).
  assert (Hsplit : W = N * (W / N) + W mod N) by (apply Z.div_mod; lia).
  assert (Heq : DivisionOfLabor W N
    = replicate (Z.to_nat (W mod N)) (W / N + 1)
      ++ replicate (Z.to_nat (N - W mod N)) (W / N)).
  { unfold DivisionOfLabor.
    pose proof (DivisionOfLabor_loop_spec (Z.to_nat N) [] (W / N) (W mod N)) as Hloop.
    simpl in Hloop. rewrite Hloop.
    - f_equal; f_equal; lia.
    - lia.
    - exact Hdiv.
    - intros Hpos. nia. }
  rewrite Heq. repeat split.
  - rewrite length_app, !length_replicate. lia.
  - apply Forall_app. split; apply Forall_replicate; lia.
  - rewrite sumZ_app, !sumZ_replicate. rewrite !Z2Nat.id by lia. lia.
  - intros x y Hx Hy.
    apply elem_of_app in Hx, Hy.
    destruct Hx as [Hx|Hx], Hy as [Hy|Hy];
      apply elem_of_replicate in Hx, Hy; lia.
Qed.

(** Ten seeds among three workers. *)
Lemma DivisionOfLabor_sound_witness :
  length (DivisionOfLabor 10 3) = 3%nat /\
  DivisionOfLabor 10 3 = [4; 3; 3].
Proof.
  destruct (DivisionOfLabor_sound 10 3) as (Hlen & _ & _ & _ & Heq).
  - lia.
  - lia.
  - split; [exact Hlen | exact Heq].
Defined.

Section EngineFacts.
Context {G : Type} `{!PRNG G}.
Variable observedOutputs : list Z.

Local Abbreviation n_obs := (length observedOutputs).

(** *** The depth loop *)

Lemma BruteForce_depth_total d : forall g m,
  (m < n_obs)%nat ->
  exists m' g', BruteForce_depth observedOutputs d g m = Some (m', g')
                /\ (m <= m' <= n_obs)%nat.
Proof.
  induction d as [|d IH]; intros g m Hm; cbn [BruteForce_depth].
  - exists m, g. split; [reflexivity | lia].
  - destruct (random g) as [x g1].
    destruct (lookup_lt_is_Some_2 observedOutputs m Hm) as [o Ho].
    rewrite Ho.
    destruct (o =? x).
    + destruct (Nat.eqb_spec (S m) n_obs) as [He|Hne].
      * exists (S m), g1. split; [reflexivity | lia].
      * destruct (IH g1 (S m)) as (m' & g' & Hr & Hb); [lia|].
        exists m', g'. split; [exact Hr | lia].
    + destruct (IH g1 m Hm) as (m' & g' & Hr & Hb).
      exists m', g'. split; [exact Hr | lia].
Qed.

(** Greedy matching finds the observations whenever they occur, in
    order, among the outputs. *)
Lemma BruteForce_depth_sublist d : forall g m m' g',
  (m < n_obs)%nat ->
  BruteForce_depth observedOutputs d g m = Some (m', g') ->
  (m' = n_obs <-> drop m observedOutputs `sublist_of` outputs d g).
Proof.
  induction d as [|d IH]; intros g m m' g' Hm Hrun;
    cbn [BruteForce_depth outputs] in Hrun |- *.
  - injection Hrun as <- <-. rewrite sublist_nil_r. split; [lia|].
    intros Hnil. apply (f_equal length) in Hnil.
    rewrite length_drop in Hnil. simpl in Hnil. lia.
  - destruct (random g) as [x g1].
    destruct (lookup_lt_is_Some_2 observedOutputs m Hm) as [o Ho].
    rewrite Ho in Hrun. rewrite (drop_S _ _ _ Ho).
    destruct (Z.eqb_spec o x) as [Hox|Hox].
    + subst x. destruct (Nat.eqb_spec (S m) n_obs) as [He|Hne].
      * injection Hrun as <- <-. split; [|intros _; exact He].
        intros _. rewrite drop_ge by lia. apply sublist_skip, sublist_nil_l.
      * rewrite (IH g1 (S m) m' g' ltac:(lia) Hrun). split.
        -- apply sublist_skip.
        -- intros Hs. apply sublist_cons_r in Hs.
           destruct Hs as [Hs | (l' & Heq & Hs)].
           ++ etransitivity; [|exact Hs]. apply sublist_cons. reflexivity.
           ++ injection Heq as <-. exact Hs.
    + rewrite (IH g1 m m' g' Hm Hrun), (drop_S _ _ _ Ho). split.
      * apply sublist_cons.
      * intros Hs. apply sublist_cons_r in Hs.
        destruct Hs as [Hs | (l' & Heq & Hs)]; [exact Hs|].
        injection Heq as Heq _. congruence.
Qed.

(** Running the depth loop decides whether the observations occur, in
    order, among the first [d] outputs for the seed [s]. *)
Lemma BruteForce_depth_stream s d m' g' :
  observedOutputs <> [] ->
  BruteForce_depth observedOutputs d (seed s getInstance) 0 = Some (m', g') ->
  (m' = n_obs <-> observedOutputs `sublist_of` stream s d).
Proof.
  intros Hne Hrun.
  assert (Hpos : (0 < n_obs)%nat) by (destruct observedOutputs; [congruence | simpl; lia]).
  pose proof (BruteForce_depth_sublist _ _ _ _ _ Hpos Hrun) as Hsub.
  rewrite drop_0 in Hsub. exact Hsub.
Qed.

Lemma BruteForce_depth_le d : forall g m m' g',
  (m <= n_obs)%nat ->
  BruteForce_depth observedOutputs d g m = Some (m', g') ->
  (m' <= n_obs)%nat.
Proof.
  induction d as [|d IH]; intros g m m' g' Hm Hrun;
    cbn [BruteForce_depth] in Hrun.
  - injection Hrun as <- <-. exact Hm.
  - destruct (random g) as [x g1].
    destruct (observedOutputs !! m) as [o|] eqn:Ho; [|discriminate].
    apply lookup_lt_Some in Ho.
    destruct (o =? x).
    + destruct (Nat.eqb_spec (S m) n_obs) as [He|Hne].
      * injection Hrun as <- <-. lia.
      * apply (IH g1 (S m) m' g'); [lia | exact Hrun].
    + apply (IH g1 m m' g'); [lia | exact Hrun].
Qed.

(** With no observation at all the first read is already out of range. *)
Lemma BruteForce_depth_empty d g :
  observedOutputs = [] -> BruteForce_depth observedOutputs (S d) g 0 = None.
Proof.
  intros Hnil. cbn [BruteForce_depth]. destruct (random g) as [x g1].
  rewrite Hnil. reflexivity.
Qed.

(** *** One step of a worker and its answer list *)

Lemma BruteForce_record_answers a seedIndex m sh sh' :
  (m <= n_obs)%nat ->
  BruteForce_record observedOutputs a seedIndex m sh = Some sh' ->
  length (answers sh') = length (answers sh) /\
  length (status sh') = length (status sh) /\
  (forall j, j <> a_id a -> answers sh' !! j = answers sh !! j) /\
  ((forall l, answers sh !! a_id a = Some l ->
              Forall (answer_ok (a_minimumConfidence a)) l) ->
   forall l', answers sh' !! a_id a = Some l' ->
              Forall (answer_ok (a_minimumConfidence a)) l').
Proof.
  intros Hm. unfold BruteForce_record.
  destruct (decide _) as [[Hst Han]|]; [|discriminate].
  intros [= <-]. cbn [answers status].
  destruct (dle _ _) eqn:Hconf.
  - rewrite !length_insert. repeat split.
    + intros j Hj. apply list_lookup_insert_ne. congruence.
    + intros Hold l'. rewrite list_lookup_insert_eq by exact Han.
      intros [= <-].
      destruct (lookup_lt_is_Some_2 _ _ Han) as [l Hl].
      rewrite (list_lookup_total_correct _ _ _ Hl).
      apply Forall_app. split; [exact (Hold l Hl)|].
      apply Forall_singleton.
      destruct (percent_of _ _) as [q| |] eqn:Hq.
      * exists q. repeat split; try exact Hconf;
          eapply percent_of_bounds; try exact Hq; lia.
      * apply percent_of_finite in Hq; [contradiction | lia].
      * destruct (a_minimumConfidence a); discriminate.
  - rewrite length_insert. repeat split.
    intros Hold. exact Hold.
Qed.

Lemma BruteForce_step_answers w sh w' sh' :
  worker_ok observedOutputs w ->
  BruteForce_step observedOutputs w sh = Some (w', sh') ->
  w_args w' = w_args w /\ worker_ok observedOutputs w' /\
  length (answers sh') = length (answers sh) /\
  length (status sh') = length (status sh) /\
  (forall j, j <> a_id (w_args w) -> answers sh' !! j = answers sh !! j) /\
  ((forall l, answers sh !! a_id (w_args w) = Some l ->
              Forall (answer_ok (a_minimumConfidence (w_args w))) l) ->
   forall l', answers sh' !! a_id (w_args w) = Some l' ->
              Forall (answer_ok (a_minimumConfidence (w_args w))) l').
Proof.
  intros Hok. unfold BruteForce_step.
  destruct (w_pc w) as [| |m|] eqn:Hpc.
  - destruct (decide _) as [Han|]; [|discriminate].
    intros [= <- <-]. cbn. rewrite length_insert. repeat split.
    + intros m [=].
    + intros j Hj. apply list_lookup_insert_ne. congruence.
    + intros _ l'. rewrite list_lookup_insert_eq by exact Han.
      intros [= <-]. constructor.
  - destruct (_ <=? _).
    + destruct (BruteForce_depth _ _ _ _) as [[m g']|] eqn:Hrun; [|discriminate].
      intros [= <- <-]. cbn. repeat split; try (intros; congruence || auto).
      intros m0. destruct (isCompleted sh); intros [= <-].
      eapply BruteForce_depth_le; [|exact Hrun]. lia.
    + intros [= <- <-]. cbn. repeat split; try (intros; congruence || auto).
      intros m0 [=].
  - destruct (BruteForce_record _ _ _ _ _) as [sh1|] eqn:Hrec; [|discriminate].
    intros [= <- <-]. cbn.
    destruct (BruteForce_record_answers _ _ _ _ _ (Hok m Hpc) Hrec)
      as (Hl1 & Hl2 & Hother & Hown).
    repeat split; try assumption. intros m0 [=].
  - intros [= <- <-]. repeat split; try (intros; congruence || auto).
Qed.

(** *** The threads of the seed search *)

Lemma SpawnThreads_loop_args todo : forall id startAt labor mc depth args,
  SpawnThreads_loop todo id startAt labor mc depth = Some args ->
  length args = todo /\
  forall j a, args !! j = Some a ->
    a_id a = (id + j)%nat /\ a_minimumConfidence a = mc.
Proof.
  induction todo as [|todo IH]; intros id startAt labor mc depth args;
    cbn [SpawnThreads_loop].
  - intros [= <-]. split; [reflexivity|]. intros j a. rewrite lookup_nil. discriminate.
  - destruct (labor !! id) as [l|]; [|discriminate].
    destruct (SpawnThreads_loop todo _ _ _ _ _) as [rest|] eqn:Hrest; [|discriminate].
    intros [= <-]. destruct (IH _ _ _ _ _ _ Hrest) as [Hlen Hids].
    split; [simpl; lia|].
    intros [|j] a; cbn.
    + intros [= <-]. cbn. split; [lia | reflexivity].
    + intros Ha. destruct (Hids j a Ha) as [-> ->]. split; [lia | reflexivity].
Qed.

(** Each worker is handed, as its first seed, the last seed of the
    worker before it. *)
Lemma SpawnThreads_loop_adjacent todo : forall id startAt labor mc depth args j a b,
  SpawnThreads_loop todo id startAt labor mc depth = Some args ->
  args !! j = Some a -> args !! S j = Some b ->
  a_startingSeed b = a_endingSeed a.
Proof.
  induction todo as [|todo IH]; intros id startAt labor mc depth args j a b;
    cbn [SpawnThreads_loop].
  - intros [= <-]. rewrite lookup_nil. discriminate.
  - destruct (labor !! id) as [l|]; [|discriminate].
    destruct (SpawnThreads_loop todo _ _ _ _ _) as [rest|] eqn:Hrest; [|discriminate].
    intros [= <-]. destruct j as [|j]; cbn.
    + intros [= <-] Hb. cbn.
      destruct todo as [|todo]; cbn [SpawnThreads_loop] in Hrest.
      * injection Hrest as <-. discriminate.
      * destruct (labor !! S id); [|discriminate].
        destruct (SpawnThreads_loop todo _ _ _ _ _); [|discriminate].
        injection Hrest as <-. injection Hb as <-. reflexivity.
    + apply (IH _ _ _ _ _ _ _ _ _ Hrest).
Qed.

Lemma SpawnThreads_ok threads mc lower upper depth s0 :
  SpawnThreads threads mc lower upper depth = Some s0 ->
  system_ok observedOutputs mc s0.
Proof.
  unfold SpawnThreads, SpawnThreads_args.
  destruct (SpawnThreads_loop _ _ _ _ _ _) as [args|] eqn:Hargs; [|discriminate].
  intros [= <-]. destruct (SpawnThreads_loop_args _ _ _ _ _ _ _ Hargs) as [Hlen Hids].
  split; cbn.
  - rewrite length_fmap, length_replicate. exact Hlen.
  - intros id w. rewrite list_lookup_fmap.
    destruct (args !! id) as [a|] eqn:Ha; [|discriminate].
    intros [= <-]. destruct (Hids id a Ha) as [Hid Hmc]. cbn.
    repeat split; try assumption.
    + intros m [=].
    + intros l Hl. apply lookup_replicate in Hl as [-> _]. constructor.
Qed.

Lemma system_step_ok mc t s s' :
  system_ok observedOutputs mc s ->
  system_step observedOutputs t s = Some s' ->
  system_ok observedOutputs mc s'.
Proof.
  intros [Hlen Hws]. destruct t as [id|]; cbn [system_step].
  - destruct (sys_workers s !! id) as [w|] eqn:Hw; [|discriminate].
    destruct (BruteForce_step _ _ _) as [[w' sh']|] eqn:Hstep; [|discriminate].
    intros [= <-].
    destruct (Hws id w Hw) as (Hid & Hmc & Hok & Hans).
    destruct (BruteForce_step_answers _ _ _ _ Hok Hstep)
      as (Hargs & Hok' & Hl1 & _ & Hother & Hown).
    rewrite Hid, Hmc in *.
    split; cbn.
    + rewrite length_insert. congruence.
    + intros j wj. destruct (decide (j = id)) as [->|Hj].
      * rewrite list_lookup_insert_eq by (eapply lookup_lt_Some; exact Hw).
        intros [= <-]. rewrite Hargs. repeat split; try assumption.
        apply Hown. exact Hans.
      * rewrite list_lookup_insert_ne by congruence.
        intros Hwj. destruct (Hws j wj Hwj) as (Hidj & Hmcj & Hokj & Hansj).
        repeat split; try assumption.
        intros l. rewrite Hother by exact Hj. apply Hansj.
  - destruct (StatusThread_step _ _ _) as [pc' sh'] eqn:Hstep.
    intros [= <-]. cbn.
    assert (Hsame : answers sh' = answers (sys_shared s)).
    { unfold StatusThread_step in Hstep.
      destruct (sys_reporter s); [destruct (isCompleted _)| |];
        injection Hstep as <- <-; reflexivity. }
    split; cbn; rewrite Hsame; assumption.
Qed.

Lemma system_run_ok mc schedule : forall s s',
  system_ok observedOutputs mc s ->
  system_run observedOutputs schedule s = Some s' ->
  system_ok observedOutputs mc s'.
Proof.
  induction schedule as [|t schedule IH]; intros s s' Hok; cbn [system_run].
  - intros [= <-]. exact Hok.
  - destruct (system_step _ t s) as [s1|] eqn:Hstep; [|discriminate].
    apply IH. eapply system_step_ok; eassumption.
Qed.

(** In every execution of the seed search, whatever the interleaving,
    each recorded pair carries a finite confidence between 0 and 100
    that is at least the minimum confidence the workers were given; it
    is strictly positive as soon as that minimum is. *)
Lemma FindSeed_confidence_range threads mc lower upper depth schedule s0 s sd :
  SpawnThreads threads mc lower upper depth = Some s0 ->
  system_run observedOutputs schedule s0 = Some s ->
  sd ∈ FindSeed_report (sys_shared s) ->
  exists q, sd.2 = DFin q /\ (0 <= q <= 100)%Q /\ dle mc (DFin q) = true
            /\ (dlt (DFin 0) mc = true -> (0 < q)%Q).
Proof.
  intros Hspawn Hrun Hsd.
  pose proof (system_run_ok mc schedule s0 s (SpawnThreads_ok _ _ _ _ _ _ Hspawn) Hrun)
    as [Hlen Hws].
  unfold FindSeed_report in Hsd.
  apply list_elem_of_In, in_concat in Hsd as (l & Hl & Hin).
  apply list_elem_of_In, list_elem_of_lookup in Hl as [id Hid].
  destruct (lookup_lt_is_Some_2 (sys_workers s) id) as [w Hw].
  { rewrite Hlen. eapply lookup_lt_Some. exact Hid. }
  destruct (Hws id w Hw) as (_ & _ & _ & Hans).
  pose proof (Hans l Hid) as Hall.
  rewrite Forall_forall in Hall.
  destruct (Hall sd (proj2 (list_elem_of_In _ _) Hin)) as (q & Hq & Hle & Hb).
  exists q. repeat split; try assumption; try apply Hb.
  intros Hpos. eapply dle_dlt_trans; [exact Hpos | exact Hle | reflexivity].
Qed.

(** C10.  With at least one observation, the depth loop started at
    matchesFound = 0 never reads observedOutputs out of range, whatever
    the depth and the generator, and ends with a count within the
    observations; so the step of a worker that runs it does not fault. *)
Theorem BruteForce_reads_in_bounds :
  observedOutputs <> [] ->
  (forall d g, exists m' g',
      BruteForce_depth observedOutputs d g 0 = Some (m', g')
      /\ (m' <= n_obs)%nat) /\
  (forall w sh, w_pc w = AtLoopHead ->
      is_Some (BruteForce_step observedOutputs w sh)).
Proof.
  intros Hne.
  assert (Hpos : (0 < n_obs)%nat) by (destruct observedOutputs; [congruence | simpl; lia]).
  split.
  - intros d g. destruct (BruteForce_depth_total d g 0%nat Hpos) as (m' & g' & Hr & Hb).
    exists m', g'. split; [exact Hr | lia].
  - intros w sh Hpc. unfold BruteForce_step. rewrite Hpc.
    destruct (_ <=? _); [|eexists; reflexivity].
    destruct (BruteForce_depth_total (Z.to_nat (a_depth (w_args w)))
                (seed (w_seedIndex w) (w_generator w)) 0%nat Hpos)
      as (m' & g' & -> & _).
    eexists; reflexivity.
Qed.

(** *** A worker running alone *)

Lemma BruteForce_run_add n1 : forall n2 w sh,
  BruteForce_run observedOutputs (n1 + n2) w sh
  = match BruteForce_run observedOutputs n1 w sh with
    | Some (w1, sh1) => BruteForce_run observedOutputs n2 w1 sh1
    | None => None
    end.
Proof.
  induction n1 as [|n1 IH]; intros n2 w sh; cbn [BruteForce_run Nat.add].
  - reflexivity.
  - destruct (BruteForce_step observedOutputs w sh) as [[w1 sh1]|]; [apply IH | reflexivity].
Qed.

(** One turn of the seed loop, entered with the flag unset. *)
Lemma BruteForce_iteration w sh :
  (forall v g g' d, outputs d (seed v g) = outputs d (seed v g')) ->
  observedOutputs <> [] ->
  w_pc w = AtLoopHead ->
  w_seedIndex w <= a_endingSeed (w_args w) ->
  isCompleted sh = false ->
  (a_id (w_args w) < length (status sh))%nat ->
  (a_id (w_args w) < length (answers sh))%nat ->
  exists m g' sh',
    (m = n_obs <->
     observedOutputs `sublist_of`
       stream (w_seedIndex w) (Z.to_nat (a_depth (w_args w)))) /\
    BruteForce_record observedOutputs (w_args w) (w_seedIndex w) m sh = Some sh' /\
    BruteForce_run observedOutputs 2 w sh
    = Some ({| w_args := w_args w; w_pc := AtLoopHead;
               w_seedIndex := wrap32 (w_seedIndex w + 1);
               w_generator := g' |}, sh').
Proof.
  intros Hseed Hne Hpc Hend Hflag Hst Han.
  assert (Hpos : (0 < n_obs)%nat) by (destruct observedOutputs; [congruence | simpl; lia]).
  destruct (BruteForce_depth_total (Z.to_nat (a_depth (w_args w)))
              (seed (w_seedIndex w) (w_generator w)) 0%nat Hpos)
    as (m & g' & Hrun & Hb).
  pose proof (BruteForce_depth_sublist _ _ _ _ _ Hpos Hrun) as Hsub.
  rewrite drop_0, (Hseed _ _ getInstance) in Hsub.
  assert (Hrec : is_Some (BruteForce_record observedOutputs (w_args w) (w_seedIndex w) m sh)).
  { unfold BruteForce_record. destruct (decide _) as [_|Hno]; [eexists; reflexivity|].
    exfalso. apply Hno. split; assumption. }
  destruct Hrec as [sh' Hrec].
  exists m, g', sh'. split; [exact Hsub|]. split; [exact Hrec|].
  cbn [BruteForce_run]. unfold BruteForce_step at 1. rewrite Hpc.
  apply Z.leb_le in Hend. rewrite Hend, Hrun, Hflag.
  unfold BruteForce_step. cbn [w_pc w_args w_seedIndex w_generator].
  rewrite Hrec. reflexivity.
Qed.

(** Seeds that are not full matches are passed one after the other,
    the flag staying unset. *)
Lemma BruteForce_skips (a : BruteForceArgs) (j : nat) : forall v g sh,
  (forall v g g' d, outputs d (seed v g) = outputs d (seed v g')) ->
  observedOutputs <> [] ->
  0 <= v -> v + Z.of_nat j <= a_endingSeed a -> a_endingSeed a < 2 ^ 32 ->
  isCompleted sh = false ->
  (a_id a < length (status sh))%nat ->
  (a_id a < length (answers sh))%nat ->
  (forall s', v <= s' < v + Z.of_nat j ->
     ~ observedOutputs `sublist_of` stream s' (Z.to_nat (a_depth a))) ->
  exists g' sh',
    BruteForce_run observedOutputs (2 * j)
      {| w_args := a; w_pc := AtLoopHead; w_seedIndex := v; w_generator := g |} sh
    = Some ({| w_args := a; w_pc := AtLoopHead; w_seedIndex := v + Z.of_nat j;
               w_generator := g' |}, sh')
    /\ isCompleted sh' = false
    /\ (a_id a < length (status sh'))%nat
    /\ (a_id a < length (answers sh'))%nat.
Proof.
  induction j as [|j IH]; intros v g sh Hseed Hne Hv Hend Hmax Hflag Hst Han Hno.
  - exists g, sh. cbn [BruteForce_run Nat.mul]. rewrite Z.add_0_r. auto.
  - destruct (BruteForce_iteration
                {| w_args := a; w_pc := AtLoopHead; w_seedIndex := v; w_generator := g |}
                sh Hseed Hne eq_refl) as (m & g1 & sh1 & Hm & Hrec & Hrun);
      cbn [w_args w_seedIndex]; try assumption; [lia|].
    cbn [w_args w_seedIndex] in Hm, Hrec, Hrun.
    assert (Hmn : m <> n_obs).
    { intros Heq. apply (Hno v); [lia|]. apply Hm. exact Heq. }
    unfold BruteForce_record in Hrec. destruct (decide _); [|discriminate].
    apply Nat.eqb_neq in Hmn. rewrite Hmn, Hflag in Hrec.
    injection Hrec as <-.
    destruct (IH (v + 1) g1
                {| isCompleted := false;
                   status := <[a_id a := wrap32 (v - a_startingSeed a)]> (status sh);
                   answers := if dle (a_minimumConfidence a)
                                   (percent_of (Z.of_nat m) (Z.of_nat n_obs))
                              then <[a_id a := (answers sh !!! a_id a)
                                      ++ [(v, percent_of (Z.of_nat m) (Z.of_nat n_obs))]]>
                                     (answers sh)
                              else answers sh |} Hseed Hne)
      as (g' & sh' & Hrun' & Hflag' & Hst' & Han'); cbn [isCompleted status answers];
      try lia; try reflexivity.
    + rewrite length_insert. exact Hst.
    + destruct (dle _ _); [rewrite length_insert|]; exact Han.
    + intros s' Hs'. apply Hno. lia.
    + exists g', sh'. replace (2 * S j)%nat with (2 + 2 * j)%nat by lia.
      rewrite BruteForce_run_add, Hrun.
      rewrite wrap32_small by lia. rewrite Hrun'.
      replace (v + 1 + Z.of_nat j) with (v + Z.of_nat (S j)) by lia. auto.
Qed.

(** A step faults neither on the observations, when there is one, nor on
    the worker's own slots, when they exist. *)
Lemma BruteForce_step_total w sh :
  observedOutputs <> [] ->
  (a_id (w_args w) < length (status sh))%nat ->
  (a_id (w_args w) < length (answers sh))%nat ->
  is_Some (BruteForce_step observedOutputs w sh).
Proof.
  intros Hne Hst Han.
  assert (Hpos : (0 < n_obs)%nat) by (destruct observedOutputs; [congruence | simpl; lia]).
  unfold BruteForce_step. destruct (w_pc w) as [| |m|].
  - destruct (decide _) as [_|Hno]; [eexists; reflexivity | contradiction].
  - destruct (_ <=? _); [|eexists; reflexivity].
    destruct (BruteForce_depth_total (Z.to_nat (a_depth (w_args w)))
                (seed (w_seedIndex w) (w_generator w)) 0%nat Hpos)
      as (m' & g' & -> & _).
    eexists; reflexivity.
  - unfold BruteForce_record.
    destruct (decide _) as [_|Hno]; [eexists; reflexivity|].
    exfalso. apply Hno. split; assumption.
  - eexists; reflexivity.
Qed.

(** Once a pair is in the list of a worker that has started, it stays
    there and the worker keeps running without fault. *)
Lemma BruteForce_keeps (a : BruteForceArgs) (x : Seed) (k : nat) : forall w sh,
  observedOutputs <> [] ->
  w_args w = a -> w_pc w <> AtEntry ->
  (a_id a < length (status sh))%nat ->
  (a_id a < length (answers sh))%nat ->
  x ∈ answers sh !!! a_id a ->
  exists w' sh',
    BruteForce_run observedOutputs k w sh = Some (w', sh')
    /\ x ∈ answers sh' !!! a_id a.
Proof.
  induction k as [|k IH]; intros w sh Hne Ha Hpc Hst Han Hx; cbn [BruteForce_run].
  - exists w, sh. auto.
  - assert (Hstep : exists w1 sh1,
      BruteForce_step observedOutputs w sh = Some (w1, sh1)
      /\ w_args w1 = a /\ w_pc w1 <> AtEntry
      /\ (a_id a < length (status sh1))%nat
      /\ (a_id a < length (answers sh1))%nat
      /\ x ∈ answers sh1 !!! a_id a).
    { destruct (w_pc w) as [| |m|] eqn:Hw; [congruence| | |].
      - destruct (BruteForce_step_total w sh Hne) as [[w1 sh1] Hs];
          [rewrite Ha; exact Hst | rewrite Ha; exact Han |].
        exists w1, sh1. split; [exact Hs|].
        unfold BruteForce_step in Hs. rewrite Hw in Hs.
        destruct (_ <=? _).
        + destruct (BruteForce_depth _ _ _ _) as [[m g']|]; [|discriminate].
          injection Hs as <- <-. cbn. repeat split; try assumption.
          destruct (isCompleted sh); discriminate.
        + injection Hs as <- <-. cbn. repeat split; try assumption. discriminate.
      - unfold BruteForce_step. rewrite Hw. unfold BruteForce_record. rewrite Ha.
        destruct (decide _) as [_|Hno]; [|exfalso; apply Hno; split; assumption].
        eexists _, _. split; [reflexivity|]. cbn.
        rewrite length_insert. repeat split; try assumption; try discriminate.
        + destruct (dle _ _); [rewrite length_insert|]; exact Han.
        + destruct (dle _ _); [|exact Hx].
          rewrite list_lookup_total_insert_eq by exact Han.
          apply elem_of_app. left. exact Hx.
      - exists w, sh. unfold BruteForce_step. rewrite Hw.
        repeat split; assumption. }
    destruct Hstep as (w1 & sh1 & -> & Ha1 & Hpc1 & Hst1 & Han1 & Hx1).
    apply IH; assumption.
Qed.

Lemma BruteForce_run_returned k : forall w sh,
  w_pc w = Returned -> BruteForce_run observedOutputs k w sh = Some (w, sh).
Proof.
  induction k as [|k IH]; intros w sh Hpc; cbn [BruteForce_run]; [reflexivity|].
  unfold BruteForce_step. rewrite Hpc. apply IH. exact Hpc.
Qed.

(** A worker only ever stores true into the flag. *)
Lemma BruteForce_step_latch w sh w' sh' :
  BruteForce_step observedOutputs w sh = Some (w', sh') ->
  isCompleted sh = true -> isCompleted sh' = true.
Proof.
  unfold BruteForce_step. destruct (w_pc w) as [| |m|].
  - destruct (decide _); [|discriminate]. intros [= <- <-]. auto.
  - destruct (_ <=? _); [|intros [= <- <-]; auto].
    destruct (BruteForce_depth _ _ _ _) as [[m g']|]; [|discriminate].
    intros [= <- <-]. auto.
  - unfold BruteForce_record. destruct (decide _); [|discriminate].
    intros [= <- <-] Hset. cbn. rewrite Hset. destruct (_ =? _)%nat; reflexivity.
  - intros [= <- <-]. auto.
Qed.

(** A worker that runs alone from an unset flag, over an interval of
    32-bit seeds that contains s, with a minimum confidence of at most
    100, appends (s, 100.0) as soon as the observations occur in order
    among the first D outputs of a generator seeded with s but of none
    seeded with an earlier seed of the interval; the pair is in its list
    after 1 + 2 (s - start + 1) steps and at every later step. *)
Lemma BruteForce_reports_first_full_match (a : BruteForceArgs) (sh : Shared) (s : Z) :
  (forall v g g' d, outputs d (seed v g) = outputs d (seed v g')) ->
  observedOutputs <> [] ->
  (a_id a < length (status sh))%nat ->
  (a_id a < length (answers sh))%nat ->
  isCompleted sh = false ->
  0 <= a_startingSeed a <= s -> s <= a_endingSeed a -> a_endingSeed a < 2 ^ 32 ->
  dle (a_minimumConfidence a) (DFin 100) = true ->
  observedOutputs `sublist_of` stream s (Z.to_nat (a_depth a)) ->
  (forall s', a_startingSeed a <= s' < s ->
     ~ observedOutputs `sublist_of` stream s' (Z.to_nat (a_depth a))) ->
  forall k, (1 + 2 * Z.to_nat (s - a_startingSeed a + 1) <= k)%nat ->
  exists w' sh',
    BruteForce_run observedOutputs k (BruteForce_start a) sh = Some (w', sh')
    /\ (s, DFin 100) ∈ answers sh' !!! a_id a.
Proof.
  intros Hseed Hne Hst Han Hflag Hstart Hend Hmax Hmin Hsub Hfirst k Hk.
  assert (Hpos : (0 < n_obs)%nat) by (destruct observedOutputs; [congruence | simpl; lia]).
  set (j := Z.to_nat (s - a_startingSeed a)).
  replace k with (1 + (2 * j + (2 + (k - (1 + 2 * j + 2)))))%nat by lia.
  rewrite BruteForce_run_add.
  cbn [BruteForce_run]. unfold BruteForce_step at 1. cbn [BruteForce_start w_pc w_args].
  destruct (decide _) as [_|Hno]; [|contradiction].
  destruct (BruteForce_skips a j (a_startingSeed a) getInstance
              {| isCompleted := isCompleted sh; status := status sh;
                 answers := <[a_id a := []]> (answers sh) |} Hseed Hne)
    as (g1 & sh1 & Hrun1 & Hflag1 & Hst1 & Han1); cbn [isCompleted status answers];
    try lia; try assumption.
  { rewrite length_insert. exact Han. }
  { intros s' Hs'. apply Hfirst. lia. }
  rewrite BruteForce_run_add, Hrun1.
  replace (a_startingSeed a + Z.of_nat j) with s by lia.
  destruct (BruteForce_iteration
              {| w_args := a; w_pc := AtLoopHead; w_seedIndex := s; w_generator := g1 |}
              sh1 Hseed Hne eq_refl) as (m & g2 & sh2 & Hm & Hrec & Hrun2);
    cbn [w_args w_seedIndex]; try assumption.
  cbn [w_args w_seedIndex] in Hm, Hrec, Hrun2.
  rewrite BruteForce_run_add, Hrun2.
  apply Hm in Hsub. subst m.
  unfold BruteForce_record in Hrec. destruct (decide _); [|discriminate].
  rewrite percent_of_full, Hmin in Hrec by lia.
  injection Hrec as <-.
  apply (BruteForce_keeps a); cbn [status answers];
    try assumption; try reflexivity; try discriminate.
  - rewrite length_insert. exact Hst1.
  - rewrite length_insert. exact Han1.
  - rewrite list_lookup_total_insert_eq by exact Han1.
    apply elem_of_app. right. apply list_elem_of_singleton. reflexivity.
Qed.

(** *** State inference *)

Ltac not_in_singleton :=
  let Hin := fresh "Hin" in
  intros Hin; apply list_elem_of_singleton in Hin; discriminate Hin.

Lemma InferState_loop_windows todo : forall k i g hs sc bs,
  (i + (if todo is O then 0 else 1)
   <= ir_windows (InferState_loop observedOutputs todo k i g hs sc bs))%nat.
Proof.
  induction todo as [|todo IH]; intros k i g hs sc bs; cbn [InferState_loop].
  - cbn. lia.
  - destruct (InferState_window _ _ _ _) as [m g1].
    destruct (_ =? _)%nat; [cbn; lia|].
    etransitivity; [|apply IH]. lia.
Qed.

(** highscore is never assigned: entered at 0.0, the loop cannot end on
    a best-state report. *)
Lemma InferState_loop_no_guess todo : forall k i g sc bs hs st,
  BestStateGuess hs st
  ∉ ir_output (InferState_loop observedOutputs todo k i g (DFin 0) sc bs).
Proof.
  induction todo as [|todo IH]; intros k i g sc bs hs st; cbn [InferState_loop].
  - cbn [ir_output]. not_in_singleton.
  - destruct (InferState_window _ _ _ _) as [m g1].
    destruct (_ =? _)%nat; [|apply IH].
    cbn [ir_output]. destruct (reverseToSeed 10000 g1) as [[outSeed|] g2];
      not_in_singleton.
Qed.

Lemma InferState_loop_no_warning todo : forall k i g hs sc bs k',
  NotEnoughObserved k'
  ∉ ir_output (InferState_loop observedOutputs todo k i g hs sc bs).
Proof.
  induction todo as [|todo IH]; intros k i g hs sc bs k'; cbn [InferState_loop].
  - cbn [ir_output]. destruct (dlt _ _); not_in_singleton.
  - destruct (InferState_window _ _ _ _) as [m g1].
    destruct (_ =? _)%nat; [|apply IH].
    cbn [ir_output]. destruct (reverseToSeed 10000 g1) as [[outSeed|] g2];
      not_in_singleton.
Qed.

Lemma InferState_no_guess hs st :
  BestStateGuess hs st ∉ ir_output (InferState observedOutputs).
Proof.
  unfold InferState. destruct (_ <=? _)%nat.
  - cbn [ir_output]. not_in_singleton.
  - apply InferState_loop_no_guess.
Qed.

Lemma InferState_loop_perfect k i0 todo : forall i hs sc bs,
  (i <= i0 < i + todo)%nat ->
  (forall j, (i <= j < i0)%nat ->
     InferState_matches_at observedOutputs k j <> (n_obs - k)%nat) ->
  InferState_matches_at observedOutputs k i0 = (n_obs - k)%nat ->
  let r := InferState_loop observedOutputs todo k i
             (InferState_generator_at observedOutputs k i) hs sc bs in
  ir_return r = true /\ ir_windows r = S i0 /\
  ir_output r
  = match reverseToSeed 10000
            (InferState_window observedOutputs k i0
               (InferState_generator_at observedOutputs k i0)).2 with
    | (Some outSeed, _) => [FoundSeed outSeed]
    | (None, g') => [FoundState (getState g')]
    end.
Proof.
  induction todo as [|todo IH]; intros i hs sc bs Hi Hbefore Hhit; [lia|].
  cbn [InferState_loop].
  destruct (decide (i = i0)) as [->|Hne].
  - unfold InferState_matches_at in Hhit.
    destruct (InferState_window _ _ _ _) as [m g1] eqn:Hwin.
    rewrite ?Hwin in Hhit. cbn [fst snd] in Hhit |- *.
    subst m. rewrite Nat.eqb_refl. cbn. auto.
  - pose proof (Hbefore i ltac:(lia)) as Hmiss.
    unfold InferState_matches_at in Hmiss.
    pose proof (IH (S i)) as IHS. cbn [InferState_generator_at] in IHS.
    destruct (InferState_window observedOutputs k i
                (InferState_generator_at observedOutputs k i)) as [m g1] eqn:Hwin.
    cbn [fst snd] in Hmiss, IHS.
    apply Nat.eqb_neq in Hmiss. rewrite Hmiss.
    apply IHS; [lia | | exact Hhit].
    intros j Hj. apply Hbefore. lia.
Qed.

(** C6.  When window i is the first whose forward plus backward match
    count equals n - k, InferState calls reverseToSeed with 10000 on the
    generator of that window, prints the seed if the call succeeds and
    the state words otherwise, and returns true after i + 1 windows;
    main then exits with success without calling FindSeed. *)
Theorem InferState_perfect_match (i : nat) :
  (getStateSize getInstance < n_obs)%nat ->
  (i < n_obs - getStateSize getInstance)%nat ->
  (forall j, (j < i)%nat ->
     InferState_matches_at observedOutputs (getStateSize getInstance) j
     <> (n_obs - getStateSize getInstance)%nat) ->
  InferState_matches_at observedOutputs (getStateSize getInstance) i
  = (n_obs - getStateSize getInstance)%nat ->
  ir_return (InferState observedOutputs) = true /\
  ir_windows (InferState observedOutputs) = S i /\
  ir_output (InferState observedOutputs)
  = match reverseToSeed 10000
            (InferState_window observedOutputs (getStateSize getInstance) i
               (InferState_generator_at observedOutputs
                  (getStateSize getInstance) i)).2 with
    | (Some outSeed, _) => [FoundSeed outSeed]
    | (None, g') => [FoundState (getState g')]
    end /\
  m_find_seed (main_tail observedOutputs) = false /\
  m_exit (main_tail observedOutputs) = EXIT_SUCCESS.
Proof.
  intros Hk Hi Hbefore Hhit.
  assert (Hrun : InferState observedOutputs
    = InferState_loop observedOutputs (n_obs - getStateSize getInstance)
        (getStateSize getInstance) 0
        (InferState_generator_at observedOutputs (getStateSize getInstance) 0)
        (DFin 0) [] []).
  { unfold InferState. destruct (Nat.leb_spec n_obs (getStateSize getInstance)); [lia|].
    reflexivity. }
  destruct (InferState_loop_perfect (getStateSize getInstance) i
              (n_obs - getStateSize getInstance) 0 (DFin 0) [] [])
    as (Hret & Hwin & Hout); [lia|intros j Hj; apply Hbefore; lia|exact Hhit|].
  rewrite <- Hrun in Hret, Hwin, Hout.
  repeat split; try assumption.
  - unfold main_tail. destruct observedOutputs; [simpl in Hk; lia|].
    rewrite Hret. reflexivity.
  - unfold main_tail. destruct observedOutputs; [simpl in Hk; lia|].
    rewrite Hret. reflexivity.
Qed.

(** C7.  With no more observations than state words, InferState prints the
    warning and returns false without entering the window loop, and
    main, which only gets there with some observation, goes on to call
    FindSeed; with more observations than state words the loop body is
    entered at least once. *)
Theorem InferState_not_enough_observed :
  ((n_obs <= getStateSize getInstance)%nat ->
     ir_return (InferState observedOutputs) = false /\
     ir_output (InferState observedOutputs)
     = [NotEnoughObserved (getStateSize getInstance)] /\
     ir_windows (InferState observedOutputs) = 0%nat /\
     (observedOutputs <> [] ->
        m_find_seed (main_tail observedOutputs) = true /\
        m_exit (main_tail observedOutputs) = EXIT_SUCCESS)) /\
  ((getStateSize getInstance < n_obs)%nat ->
     (1 <= ir_windows (InferState observedOutputs))%nat /\
     ir_output (InferState observedOutputs)
     <> [NotEnoughObserved (getStateSize getInstance)]).
Proof.
  split.
  - intros Hle.
    assert (Hrun : InferState observedOutputs
      = {| ir_return := false;
           ir_output := [NotEnoughObserved (getStateSize getInstance)];
           ir_windows := 0; ir_scores := []; ir_best_state := [] |}).
    { unfold InferState. apply Nat.leb_le in Hle. rewrite Hle. reflexivity. }
    rewrite Hrun. repeat split.
    + unfold main_tail. destruct observedOutputs; [congruence|].
      rewrite Hrun. reflexivity.
    + unfold main_tail. destruct observedOutputs; [congruence|].
      rewrite Hrun. reflexivity.
  - intros Hlt. unfold InferState.
    destruct (Nat.leb_spec n_obs (getStateSize getInstance)); [lia|].
    split.
    + etransitivity; [|apply InferState_loop_windows].
      destruct (n_obs - getStateSize getInstance)%nat eqn:Hd; lia.
    + intros Hout.
      eapply InferState_loop_no_warning. rewrite Hout. apply list_elem_of_here.
Qed.

End EngineFacts.

(** ** GlibcRand *)

(** C9.  After setState(w), getState() returns exactly
    GLIBC_RAND_STATE_SIZE words: w followed by zeros when w is shorter, the
    first GLIBC_RAND_STATE_SIZE words of w otherwise. *)
Theorem GlibcRand_setState_getState (GLIBC_RAND_STATE_SIZE : nat) (w : list Z)
    (g : GlibcRand.t) :
  length (GlibcRand.getState (GlibcRand.setState GLIBC_RAND_STATE_SIZE w g))
  = GlibcRand.getStateSize GLIBC_RAND_STATE_SIZE
      (GlibcRand.setState GLIBC_RAND_STATE_SIZE w g) /\
  ((length w < GLIBC_RAND_STATE_SIZE)%nat ->
     GlibcRand.getState (GlibcRand.setState GLIBC_RAND_STATE_SIZE w g)
     = w ++ replicate (GLIBC_RAND_STATE_SIZE - length w) 0) /\
  ((GLIBC_RAND_STATE_SIZE <= length w)%nat ->
     GlibcRand.getState (GlibcRand.setState GLIBC_RAND_STATE_SIZE w g)
     = take GLIBC_RAND_STATE_SIZE w).
Proof.
  unfold GlibcRand.getState, GlibcRand.setState, GlibcRand.getStateSize.
  cbn [GlibcRand.m_state]. split; [|split].
  - apply length_resize.
  - intros Hshort. apply resize_ge. lia.
  - intros Hlong. apply resize_le. exact Hlong.
Qed.

(** A short and a long input for a state of three words. *)
Lemma GlibcRand_setState_getState_witness :
  GlibcRand.getState (GlibcRand.setState 3 [7; 8] GlibcRand.create) = [7; 8; 0] /\
  GlibcRand.getState (GlibcRand.setState 3 [7; 8; 9; 10] GlibcRand.create) = [7; 8; 9].
Proof.
  split.
  - apply (proj1 (proj2 (GlibcRand_setState_getState 3 [7; 8] GlibcRand.create))).
    simpl. lia.
  - apply (proj2 (proj2 (GlibcRand_setState_getState 3 [7; 8; 9; 10] GlibcRand.create))).
    simpl. lia.
Defined.

(** ** The engine on concrete inputs, with the generator [Lcg] *)

Import Lcg.

(** C1, counterexample.  One worker over the seeds 0..10 at depth 10 and
    minimum confidence 100, observing [10], the first output of the
    generator seeded with 9.  Seed 0 already yields 10 among its first ten
    outputs: the worker records it, sets the flag and leaves the loop at
    seed 1.  The pair (9, 100.0) is never appended. *)
Lemma BruteForce_later_match_not_reported :
  stream 9 1 = [10] /\
  [10] `sublist_of` stream 9 10 /\
  forall k, exists w' sh',
    BruteForce_run [10] k
      (BruteForce_start {| a_id := 0; a_minimumConfidence := DFin 100;
                           a_startingSeed := 0; a_endingSeed := 10; a_depth := 10 |})
      {| isCompleted := false; status := [0]; answers := [[]] |}
    = Some (w', sh')
    /\ (9, DFin 100) ∉ answers sh' !!! 0%nat.
Proof.
  split; [reflexivity|]. split.
  { vm_compute. apply sublist_skip, sublist_nil_l. }
  assert (Hnot : (9, DFin 100) ∉ [(0, DFin 100)]).
  { intros Hin. apply list_elem_of_singleton in Hin. discriminate Hin. }
  intros k. destruct (Nat.lt_ge_cases k 4) as [Hlt|Hge].
  - assert (Hcases : (k = 0 \/ k = 1 \/ k = 2 \/ k = 3)%nat) by lia.
    destruct Hcases as [-> | [-> | [-> | ->]]];
      eexists _, _; (split; [vm_compute; reflexivity|]); simpl;
      first [apply not_elem_of_nil | exact Hnot].
  - replace k with (4 + (k - 4))%nat by lia.
    rewrite BruteForce_run_add.
    match goal with
    | |- context [BruteForce_run ?o 4 ?w ?sh] =>
        let r := eval vm_compute in (BruteForce_run o 4 w sh) in
        change (BruteForce_run o 4 w sh) with r
    end.
    cbv beta iota.
    rewrite BruteForce_run_returned by reflexivity.
    eexists _, _. split; [reflexivity|]. exact Hnot.
Qed.

(** C8, counterexample.  A worker given the minimum confidence 0.0 records
    the seed 0, none of whose outputs matches the observation, with the
    confidence 0.0. *)
Lemma BruteForce_records_zero_confidence :
  fst <$> BruteForce_depth [100] 1 (seed 0 getInstance) 0 = Some 0%nat /\
  exists w' sh',
    BruteForce_run [100] 3
      (BruteForce_start {| a_id := 0; a_minimumConfidence := DFin 0;
                           a_startingSeed := 0; a_endingSeed := 0; a_depth := 1 |})
      {| isCompleted := false; status := [0]; answers := [[]] |}
    = Some (w', sh')
    /\ answers sh' = [[(0, DFin 0)]].
Proof.
  split; [reflexivity|].
  eexists _, _. split; vm_compute; reflexivity.
Qed.

(** One observation, depth 5. *)
Lemma BruteForce_reads_in_bounds_witness :
  (exists m' g', BruteForce_depth [1] 5 (seed 0 getInstance) 0 = Some (m', g')
                 /\ (m' <= 1)%nat) /\
  is_Some (BruteForce_step [1]
             {| w_args := {| a_id := 0; a_minimumConfidence := DFin 100;
                             a_startingSeed := 0; a_endingSeed := 10; a_depth := 5 |};
                w_pc := AtLoopHead; w_seedIndex := 0; w_generator := 0 |}
             {| isCompleted := false; status := [0]; answers := [[]] |}).
Proof.
  destruct (BruteForce_reads_in_bounds (G := Z) [1]) as [Hloop Hstep].
  - discriminate.
  - split; [apply Hloop | apply Hstep; reflexivity].
Defined.

(** C2, on the code.  Observing [5; 6; 9] with the one-word generator, the
    window at 0 predicts 6 and scores 50, the window at 1 scores 0, and no
    window is perfect.  InferState keeps the state [5] in best_state but,
    highscore still being 0.0, prints that inference failed.  Whatever the
    generator and the observations, the best-state report is never
    printed. *)
Theorem InferState_positive_score_lost :
  InferState [5; 6; 9]
  = {| ir_return := false; ir_output := [InferenceFailed]; ir_windows := 2;
       ir_scores := [DFin 50; DFin 0]; ir_best_state := [5] |} /\
  forall (G : Type) (P : PRNG G) (observedOutputs : list Z) highscore state,
    BestStateGuess highscore state ∉ ir_output (InferState observedOutputs).
Proof.
  split; [vm_compute; reflexivity|].
  intros G P observedOutputs highscore state.
  apply InferState_no_guess.
Qed.

(** C3, on the code.  One worker over the seeds 0..10 observing [1], the
    first output for seed 0.  The reporter passes its while test, the worker
    records the full match and sets the flag, and the reporter then stores
    (100.0 <= 0.0) into the flag: the flag goes from true back to false. *)
Theorem StatusThread_clears_flag :
  exists s0 s1 s2,
    SpawnThreads 1 (DFin 100) 0 10 1 = Some s0 /\
    system_run [1]
      [WorkerThread 0; ReporterThread; WorkerThread 0; WorkerThread 0] s0 = Some s1 /\
    isCompleted (sys_shared s1) = true /\
    FindSeed_report (sys_shared s1) = [(0, DFin 100)] /\
    system_step [1] ReporterThread s1 = Some s2 /\
    isCompleted (sys_shared s2) = false.
Proof.
  eexists _, _, _.
  split; [vm_compute; reflexivity|].
  split; [vm_compute; reflexivity|].
  split; [reflexivity|].
  split; [reflexivity|].
  split; [vm_compute; reflexivity|].
  reflexivity.
Qed.

(** C4, on the code.  Two workers over the seeds 0..10 are handed 0..5 and
    5..10, both ends included.  Observing [6; 99] at depth 1 with a minimum
    confidence of 50, only seed 5 qualifies, at 50%; once every thread has
    finished, it is in the list of both workers and FindSeed prints it
    twice. *)
Theorem SpawnThreads_boundary_seed_twice :
  SpawnThreads_args 2 (DFin 50) 0 10 1
  = Some [ {| a_id := 0; a_minimumConfidence := DFin 50;
              a_startingSeed := 0; a_endingSeed := 5; a_depth := 1 |};
           {| a_id := 1; a_minimumConfidence := DFin 50;
              a_startingSeed := 5; a_endingSeed := 10; a_depth := 1 |} ] /\
  exists s0 s,
    SpawnThreads 2 (DFin 50) 0 10 1 = Some s0 /\
    system_run [6; 99]
      (replicate 14 (WorkerThread 0) ++ replicate 14 (WorkerThread 1)
       ++ [ReporterThread; ReporterThread; ReporterThread]) s0 = Some s /\
    w_pc <$> sys_workers s = [Returned; Returned] /\
    sys_reporter s = Finished /\
    answers (sys_shared s) = [[(5, DFin 50)]; [(5, DFin 50)]] /\
    FindSeed_report (sys_shared s) = [(5, DFin 50); (5, DFin 50)].
Proof.
  split; [vm_compute; reflexivity|].
  eexists _, _.
  split; [vm_compute; reflexivity|].
  split; [vm_compute; reflexivity|].
  repeat split.
Qed.

(** Observing [5; 6; 7], the window at 0 predicts 6 and 7: a perfect match
    that the generator cannot reverse to a seed. *)
Lemma InferState_perfect_match_witness :
  ir_return (InferState [5; 6; 7]) = true /\
  ir_windows (InferState [5; 6; 7]) = 1%nat /\
  ir_output (InferState [5; 6; 7]) = [FoundState [5]] /\
  m_find_seed (main_tail [5; 6; 7]) = false /\
  m_exit (main_tail [5; 6; 7]) = EXIT_SUCCESS.
Proof.
  destruct (InferState_perfect_match (G := Z) [5; 6; 7] 0)
    as (Hret & Hwin & Hout & Hfind & Hexit).
  - simpl. lia.
  - simpl. lia.
  - intros j Hj. lia.
  - reflexivity.
  - split; [exact Hret|]. split; [exact Hwin|]. split; [exact Hout|].
    split; [exact Hfind | exact Hexit].
Defined.

(** One observation for one state word; three observations. *)
Lemma InferState_not_enough_observed_witness :
  (ir_output (InferState [5]) = [NotEnoughObserved 1] /\
   m_find_seed (main_tail [5]) = true) /\
  (1 <= ir_windows (InferState [5; 6; 9]%Z))%nat.
Proof.
  split.
  - destruct (proj1 (InferState_not_enough_observed (G := Z) [5]))
      as (_ & Hout & _ & Hmain).
    + simpl. lia.
    + split; [exact Hout|]. apply Hmain. discriminate.
  - apply (proj2 (InferState_not_enough_observed (G := Z) [5; 6; 9])).
    simpl. lia.
Defined.

(** ** More on the seed search *)

Section SearchFacts.
Context {G : Type} `{!PRNG G}.
Variable observedOutputs : list Z.

Local Abbreviation n_obs := (length observedOutputs).

(** *** What the match count measures *)

Lemma outputs_length d : forall g : G, length (outputs d g) = d.
Proof.
  induction d as [|d IH]; intros g; cbn [outputs]; [reflexivity|].
  destruct (random g) as [x g1]. simpl. rewrite IH. reflexivity.
Qed.

Lemma BruteForce_depth_prefix d : forall g m m' g',
  (m < n_obs)%nat ->
  BruteForce_depth observedOutputs d g m = Some (m', g') ->
  (m <= m')%nat /\
  drop m (take m' observedOutputs) `sublist_of` outputs d g /\
  ((m' < n_obs)%nat ->
   ~ drop m (take (S m') observedOutputs) `sublist_of` outputs d g).
Proof.
  induction d as [|d IH]; intros g m m' g' Hm Hrun.
  - cbn [BruteForce_depth outputs] in Hrun |- *. injection Hrun as <- <-.
    destruct (lookup_lt_is_Some_2 observedOutputs m Hm) as [o Ho].
    split; [lia|]. split.
    + rewrite drop_ge by (rewrite length_take; lia). constructor.
    + intros _ Hs. apply sublist_nil_r in Hs.
      apply (f_equal length) in Hs. rewrite length_drop, length_take in Hs.
      rewrite length_nil in Hs. lia.
  - destruct (BruteForce_depth_total observedOutputs (S d) g m Hm)
      as (m1 & g1' & Hrun1 & Hb).
    rewrite Hrun in Hrun1. injection Hrun1 as <- <-.
    cbn [BruteForce_depth outputs] in Hrun |- *.
    destruct (random g) as [x g1].
    destruct (lookup_lt_is_Some_2 observedOutputs m Hm) as [o Ho].
    rewrite Ho in Hrun.
    assert (Hcut : forall k, (m < k)%nat ->
              drop m (take k observedOutputs)
              = o :: drop (S m) (take k observedOutputs)).
    { intros k Hk. apply drop_S. rewrite lookup_take_lt by lia. exact Ho. }
    split; [lia|].
    destruct (Z.eqb_spec o x) as [Hox|Hox].
    + subst x. destruct (Nat.eqb_spec (S m) n_obs) as [He|Hne].
      * injection Hrun as <- <-. split.
        -- rewrite Hcut by lia. apply sublist_skip.
           rewrite drop_ge by (rewrite length_take; lia). apply sublist_nil_l.
        -- intros Hlt. lia.
      * destruct (IH g1 (S m) m' g' ltac:(lia) Hrun) as (Hle & Hyes & Hno).
        split.
        -- rewrite Hcut by lia. apply sublist_skip. exact Hyes.
        -- intros Hlt Hs. apply (Hno Hlt).
           rewrite Hcut in Hs by lia. apply sublist_cons_r in Hs.
           destruct Hs as [Hs | (l' & Heq & Hs)].
           ++ etransitivity; [|exact Hs]. apply sublist_cons. reflexivity.
           ++ injection Heq as <-. exact Hs.
    + destruct (IH g1 m m' g' Hm Hrun) as (Hle & Hyes & Hno).
      split.
      * apply sublist_cons. exact Hyes.
      * intros Hlt Hs. apply (Hno Hlt).
        rewrite Hcut in Hs |- * by lia. apply sublist_cons_r in Hs.
        destruct Hs as [Hs | (l' & Heq & Hs)]; [exact Hs|].
        injection Heq as Heq _. congruence.
Qed.

(** X1.  The match count the depth loop ends with is the length of the
    longest prefix of the observations that occurs, in order, among the
    [d] outputs it drew: the first j observations occur among them exactly
    when j is at most that count. *)
Theorem BruteForce_depth_longest_prefix d g m' g' j :
  observedOutputs <> [] ->
  BruteForce_depth observedOutputs d g 0 = Some (m', g') ->
  (j <= n_obs)%nat ->
  (take j observedOutputs `sublist_of` outputs d g <-> (j <= m')%nat).
Proof.
  intros Hne Hrun Hj.
  assert (Hpos : (0 < n_obs)%nat) by (destruct observedOutputs; [congruence | simpl; lia]).
  destruct (BruteForce_depth_prefix d g 0%nat m' g' Hpos Hrun) as (_ & Hyes & Hno).
  rewrite drop_0 in Hyes.
  assert (Hmono : forall a b, (a <= b)%nat ->
            take a observedOutputs `sublist_of` take b observedOutputs).
  { intros a b Hab. replace (take a observedOutputs)
      with (take a (take b observedOutputs))
      by (rewrite take_take; f_equal; lia).
    apply sublist_take. }
  split.
  - intros Hs. destruct (Nat.le_gt_cases j m') as [Hle|Hgt]; [exact Hle|].
    exfalso. apply Hno; [lia|]. rewrite drop_0.
    etransitivity; [|exact Hs]. apply Hmono. lia.
  - intros Hle. etransitivity; [|exact Hyes]. apply Hmono. exact Hle.
Qed.

(** *** GenerateSample and the depth loop *)

Lemma BruteForce_depth_replay K : forall (g : G) pre extra,
  (0 < K)%nat ->
  BruteForce_depth (pre ++ outputs K g) (K + extra) g (length pre)
  = Some ((length pre + K)%nat, advance K g).
Proof.
  induction K as [|K IH]; intros g pre extra HK; [lia|].
  cbn [BruteForce_depth outputs advance Nat.add].
  destruct (random g) as [x g1] eqn:Hr. cbn [snd].
  rewrite lookup_app_r by lia. rewrite Nat.sub_diag. cbn [lookup list_lookup].
  rewrite Z.eqb_refl.
  rewrite length_app. cbn [length]. rewrite outputs_length.
  destruct K as [|K].
  - replace (S (length pre) =? length pre + 1)%nat with true
      by (symmetry; apply Nat.eqb_eq; lia).
    cbn [advance]. f_equal. f_equal. lia.
  - replace (S (length pre) =? length pre + S (S K))%nat with false
      by (symmetry; apply Nat.eqb_neq; lia).
    pose proof (IH g1 (pre ++ [x]) extra ltac:(lia)) as Hrec.
    rewrite <- app_assoc, length_app in Hrec. cbn [app length] in Hrec.
    replace (length pre + 1)%nat with (S (length pre)) in Hrec by lia.
    rewrite Hrec. f_equal. f_equal. lia.
Qed.

(** X2.  The sample GenerateSample prints for a seed is found again in
    full by the depth loop run for that seed at any depth at least as
    large, and the loop stops right after the last value of the sample. *)
Theorem GenerateSample_replayed (s K D : Z) :
  0 < K <= D ->
  length (GenerateSample s K) = Z.to_nat K /\
  BruteForce_depth (GenerateSample s K) (Z.to_nat D) (seed s getInstance) 0
  = Some (Z.to_nat K, advance (Z.to_nat K) (seed s getInstance)).
Proof.
  intros HK. unfold GenerateSample. split; [apply outputs_length|].
  pose proof (BruteForce_depth_replay (Z.to_nat K) (seed s getInstance) []
                (Z.to_nat D - Z.to_nat K) ltac:(lia)) as Hrun.
  replace (Z.to_nat K + (Z.to_nat D - Z.to_nat K))%nat with (Z.to_nat D) in Hrun by lia.
  exact Hrun.
Qed.

(** *** Lifting what a worker keeps to the whole search *)

Lemma BruteForce_step_frame w sh w' sh' :
  BruteForce_step observedOutputs w sh = Some (w', sh') ->
  w_args w' = w_args w /\
  length (answers sh') = length (answers sh) /\
  length (status sh') = length (status sh) /\
  forall j, j <> a_id (w_args w) ->
    answers sh' !! j = answers sh !! j /\ status sh' !! j = status sh !! j.
Proof.
  unfold BruteForce_step. destruct (w_pc w) as [| |m|].
  - destruct (decide _); [|discriminate]. intros [= <- <-]. cbn.
    rewrite length_insert. repeat split.
    apply list_lookup_insert_ne. congruence.
  - destruct (_ <=? _); [|intros [= <- <-]; auto].
    destruct (BruteForce_depth _ _ _ _) as [[m g']|]; [|discriminate].
    intros [= <- <-]. auto.
  - unfold BruteForce_record. destruct (decide _); [|discriminate].
    intros [= <- <-]. cbn. rewrite length_insert.
    destruct (dle _ _); rewrite ?length_insert; repeat split;
      try (apply list_lookup_insert_ne; congruence).
  - intros [= <- <-]. auto.
Qed.

Lemma lookup_total_same {A} `{!Inhabited A} (l1 l2 : list A) j :
  l1 !! j = l2 !! j -> l1 !!! j = l2 !!! j.
Proof. intros Heq. rewrite !list_lookup_total_alt, Heq. reflexivity. Qed.

Lemma system_step_slots I t s s' :
  step_keeps observedOutputs I ->
  slots_ok I s ->
  system_step observedOutputs t s = Some s' ->
  slots_ok I s'.
Proof.
  intros Hkeep (Hla & Hls & Hws). destruct t as [id|]; cbn [system_step].
  - destruct (sys_workers s !! id) as [w|] eqn:Hw; [|discriminate].
    destruct (BruteForce_step _ _ _) as [[w' sh']|] eqn:Hstep; [|discriminate].
    intros [= <-].
    destruct (Hws id w Hw) as (Hid & HI).
    destruct (BruteForce_step_frame _ _ _ _ Hstep) as (Hargs & Hl1 & Hl2 & Hother).
    pose proof (lookup_lt_Some _ _ _ Hw) as Hlt.
    split; [|split]; cbn.
    + rewrite length_insert. congruence.
    + rewrite length_insert. congruence.
    + intros j wj. destruct (decide (j = id)) as [->|Hj].
      * rewrite list_lookup_insert_eq by exact Hlt.
        intros [= <-]. rewrite Hargs. split; [exact Hid|].
        pose proof (Hkeep w (sys_shared s) w' sh') as HK.
        rewrite Hid in HK. apply HK; try lia; assumption.
      * rewrite list_lookup_insert_ne by congruence.
        intros Hwj. destruct (Hws j wj Hwj) as (Hidj & HIj).
        split; [exact Hidj|].
        destruct (Hother j) as [Ha Hs]; [congruence|].
        rewrite (lookup_total_same _ _ j Ha), (lookup_total_same _ _ j Hs).
        exact HIj.
  - destruct (StatusThread_step _ _ _) as [pc' sh'] eqn:Hstep.
    intros [= <-]. cbn.
    assert (Hsame : answers sh' = answers (sys_shared s)
                    /\ status sh' = status (sys_shared s)).
    { unfold StatusThread_step in Hstep.
      destruct (sys_reporter s); [destruct (isCompleted _)| |];
        injection Hstep as <- <-; auto. }
    destruct Hsame as [Ha Hs]. unfold slots_ok. cbn [sys_shared sys_workers].
    rewrite Ha, Hs. split; [|split]; assumption.
Qed.

Lemma system_run_slots I schedule : forall s s',
  step_keeps observedOutputs I ->
  slots_ok I s ->
  system_run observedOutputs schedule s = Some s' ->
  slots_ok I s'.
Proof.
  induction schedule as [|t schedule IH]; intros s s' Hkeep Hok; cbn [system_run].
  - intros [= <-]. exact Hok.
  - destruct (system_step _ t s) as [s1|] eqn:Hstep; [|discriminate].
    apply IH; [exact Hkeep|]. eapply system_step_slots; eassumption.
Qed.

Lemma SpawnThreads_slots (I : Worker -> list Seed -> Z -> Prop)
    threads mc lower upper depth args s0 :
  SpawnThreads_args threads mc lower upper depth = Some args ->
  SpawnThreads threads mc lower upper depth = Some s0 ->
  (forall a, a ∈ args -> I (BruteForce_start a) [] 0) ->
  slots_ok I s0.
Proof.
  intros Hargs. unfold SpawnThreads. rewrite Hargs. intros [= <-] Hinit.
  unfold SpawnThreads_args in Hargs.
  destruct (SpawnThreads_loop_args _ _ _ _ _ _ _ Hargs) as [Hlen Hids].
  split; [|split]; cbn.
  - rewrite length_fmap, length_replicate. lia.
  - rewrite length_fmap, length_replicate. lia.
  - intros id w. rewrite list_lookup_fmap.
    destruct (args !! id) as [a|] eqn:Ha; [|discriminate].
    intros [= <-]. destruct (Hids id a Ha) as [Hid _]. cbn.
    split; [exact Hid|].
    pose proof (lookup_lt_Some _ _ _ Ha) as Hlt.
    rewrite !lookup_total_replicate_2 by lia.
    apply Hinit. eapply list_elem_of_lookup_2. exact Ha.
Qed.

(** *** The intervals SpawnThreads hands out *)

Lemma DivisionOfLabor_shape W N :
  0 <= W < 2 ^ 32 -> 1 <= N < 2 ^ 32 ->
  DivisionOfLabor W N
  = replicate (Z.to_nat (W mod N)) (W / N + 1)
    ++ replicate (Z.to_nat (N - W mod N)) (W / N).
Proof.
  intros HW HN.
  assert (Hmod : 0 <= W mod N < N) by (apply Z.mod_pos_bound; lia).
  assert (Hdiv : 0 <= W / N) by (apply Z.div_pos; lia).
  assert (Hsplit : W = N * (W / N) + W mod N) by (apply Z.div_mod; lia).
  unfold DivisionOfLabor.
  pose proof (DivisionOfLabor_loop_spec (Z.to_nat N) [] (W / N) (W mod N)) as Hloop.
  simpl in Hloop. rewrite Hloop.
  - f_equal; f_equal; lia.
  - lia.
  - exact Hdiv.
  - intros Hpos. nia.
Qed.

Lemma DivisionOfLabor_ready W N :
  0 <= W < 2 ^ 32 -> 1 <= N < 2 ^ 32 ->
  length (DivisionOfLabor W N) = Z.to_nat N /\
  Forall (fun x => 0 <= x) (DivisionOfLabor W N) /\
  sumZ (DivisionOfLabor W N) = W.
Proof.
  intros HW HN. rewrite (DivisionOfLabor_shape W N HW HN).
  assert (Hmod : 0 <= W mod N < N) by (apply Z.mod_pos_bound; lia).
  assert (Hdiv : 0 <= W / N) by (apply Z.div_pos; lia).
  assert (Hsplit : W = N * (W / N) + W mod N) by (apply Z.div_mod; lia).
  split; [|split].
  - rewrite length_app, !length_replicate. lia.
  - apply Forall_app. split; apply Forall_replicate; lia.
  - rewrite sumZ_app, !sumZ_replicate. rewrite !Z2Nat.id by lia. lia.
Qed.

Lemma sumZ_nonneg l : Forall (fun x => 0 <= x) l -> 0 <= sumZ l.
Proof.
  induction 1 as [|x l Hx Hl IH]; simpl; [lia|].
  fold (sumZ l). lia.
Qed.

Lemma SpawnThreads_loop_spans todo : forall id startAt labor mc depth,
  (id + todo <= length labor)%nat ->
  Forall (fun x => 0 <= x) labor ->
  0 <= startAt ->
  startAt + sumZ (take todo (drop id labor)) < 2 ^ 32 ->
  exists args,
    SpawnThreads_loop todo id startAt labor mc depth = Some args /\
    (forall a, a ∈ args ->
       startAt <= a_startingSeed a /\ a_startingSeed a <= a_endingSeed a
       /\ a_endingSeed a <= startAt + sumZ (take todo (drop id labor))
       /\ a_depth a = depth) /\
    (todo <> 0%nat ->
     forall s, startAt <= s <= startAt + sumZ (take todo (drop id labor)) ->
       exists a, a ∈ args /\ a_startingSeed a <= s <= a_endingSeed a).
Proof.
  induction todo as [|todo IH]; intros id startAt labor mc depth Hlen Hpos Hs Hmax.
  - exists []. cbn [SpawnThreads_loop]. split; [reflexivity|]. split.
    + intros a Ha. apply elem_of_nil in Ha. contradiction.
    + intros Hne. congruence.
  - cbn [SpawnThreads_loop].
    destruct (lookup_lt_is_Some_2 labor id ltac:(lia)) as [l Hl].
    rewrite Hl. rewrite (drop_S _ _ _ Hl) in Hmax |- *.
    cbn [take sumZ foldr] in Hmax |- *.
    fold (sumZ (take todo (drop (S id) labor))) in Hmax |- *.
    assert (Hl0 : 0 <= l).
    { rewrite Forall_forall in Hpos. apply Hpos.
      eapply list_elem_of_lookup_2. exact Hl. }
    assert (Hrest0 : 0 <= sumZ (take todo (drop (S id) labor))).
    { apply sumZ_nonneg. apply Forall_take, Forall_drop. exact Hpos. }
    rewrite wrap32_small by lia.
    destruct (IH (S id) (startAt + l) labor mc depth) as (rest & -> & Hb & Hc);
      try lia; try assumption.
    eexists. split; [reflexivity|]. split.
    + intros a Ha. apply elem_of_cons in Ha as [-> | Ha].
      * cbn. repeat split; lia.
      * destruct (Hb a Ha) as (H1 & H2 & H3 & H4). repeat split; lia.
    + intros _ s Hrange.
      destruct (Z.le_gt_cases s (startAt + l)) as [Hle|Hgt].
      * eexists. split; [apply list_elem_of_here|]. cbn. lia.
      * destruct todo as [|todo];
          [rewrite take_0 in Hrange; unfold sumZ in Hrange; simpl in Hrange; lia|].
        destruct (Hc ltac:(discriminate) s ltac:(lia)) as (a & Ha & Hin).
        exists a. split; [apply list_elem_of_further; exact Ha | exact Hin].
Qed.

Lemma SpawnThreads_args_spans threads mc lower upper depth :
  1 <= threads < 2 ^ 32 -> 0 <= lower <= upper -> upper < 2 ^ 32 ->
  exists args,
    SpawnThreads_args threads mc lower upper depth = Some args /\
    (forall a, a ∈ args ->
       lower <= a_startingSeed a /\ a_startingSeed a <= a_endingSeed a
       /\ a_endingSeed a <= upper /\ a_depth a = depth) /\
    (forall s, lower <= s <= upper ->
       exists a, a ∈ args /\ a_startingSeed a <= s <= a_endingSeed a).
Proof.
  intros Ht Hlu Hup. unfold SpawnThreads_args.
  rewrite (wrap32_small (upper - lower)) by lia.
  destruct (DivisionOfLabor_ready (upper - lower) threads) as (Hlen & Hpos & Hsum);
    [lia | lia |].
  destruct (SpawnThreads_loop_spans (Z.to_nat threads) 0 lower
              (DivisionOfLabor (upper - lower) threads) mc depth)
    as (args & Hargs & Hb & Hc); try assumption; try lia.
  - rewrite drop_0, take_ge by lia. lia.
  - rewrite drop_0, take_ge in Hb, Hc by lia. rewrite Hsum in Hb, Hc.
    exists args. split; [exact Hargs|]. split.
    + intros a Ha. destruct (Hb a Ha) as (H1 & H2 & H3 & H4).
      repeat split; lia.
    + intros s Hs. apply Hc; lia.
Qed.

(** X3.  For 32-bit bounds lower <= upper and at least one thread,
    SpawnThreads hands every worker an interval within [lower, upper],
    and the intervals leave no seed of [lower, upper] out: each one is
    within the bounds of some worker. *)
Theorem SpawnThreads_covers threads mc lower upper depth :
  1 <= threads < 2 ^ 32 -> 0 <= lower <= upper -> upper < 2 ^ 32 ->
  exists args,
    SpawnThreads_args threads mc lower upper depth = Some args /\
    length args = Z.to_nat threads /\
    (forall a, a ∈ args ->
       lower <= a_startingSeed a <= a_endingSeed a /\ a_endingSeed a <= upper) /\
    (forall s, lower <= s <= upper ->
       exists a, a ∈ args /\ a_startingSeed a <= s <= a_endingSeed a).
Proof.
  intros Ht Hlu Hup.
  destruct (SpawnThreads_args_spans threads mc lower upper depth Ht Hlu Hup)
    as (args & Hargs & Hb & Hc).
  exists args. split; [exact Hargs|]. split; [|split].
  - unfold SpawnThreads_args in Hargs.
    apply (SpawnThreads_loop_args _ _ _ _ _ _ _ Hargs).
  - intros a Ha. destruct (Hb a Ha) as (H1 & H2 & H3 & _). lia.
  - exact Hc.
Qed.

(** *** Seeds, order and progress within the bounds *)

Lemma worker_in_range_kept lower upper :
  0 <= lower -> upper < 2 ^ 32 - 1 ->
  step_keeps observedOutputs (worker_in_range lower upper).
Proof.
  intros Hlo Hup w sh w' sh' Han Hst Hstep HI.
  unfold worker_in_range in HI |- *.
  destruct HI as [Hargs HI]. unfold BruteForce_step in Hstep.
  destruct (w_pc w) as [| |m|] eqn:Hpc.
  - destruct (decide _); [|discriminate]. injection Hstep as <- <-.
    destruct HI as [_ Hv]. cbn. rewrite Hv.
    rewrite list_lookup_total_insert_eq by exact Han.
    split; [exact Hargs|]. repeat split; try lia; constructor.
  - destruct (w_seedIndex w <=? a_endingSeed (w_args w)) eqn:Hle.
    + apply Z.leb_le in Hle.
      destruct (BruteForce_depth _ _ _ _) as [[m g']|]; [|discriminate].
      injection Hstep as <- <-. cbn. split; [exact Hargs|].
      destruct HI as (Hsi & Hv & Hall & Hsorted).
      destruct (isCompleted sh); repeat split; try lia; assumption.
    + injection Hstep as <- <-. cbn. split; [exact Hargs|]. exact HI.
  - unfold BruteForce_record in Hstep. destruct (decide _); [|discriminate].
    injection Hstep as <- <-. cbn. split; [exact Hargs|].
    destruct HI as (Hsi & Hv & Hall & Hsorted).
    rewrite list_lookup_total_insert_eq by exact Hst.
    rewrite !wrap32_small by lia.
    assert (Hall' : Forall (fun sd : Seed =>
                      a_startingSeed (w_args w) <= sd.1 < w_seedIndex w + 1)
                      (answers sh !!! a_id (w_args w))).
    { eapply Forall_impl; [exact Hall|]. cbn. intros sd Hsd. lia. }
    destruct (dle _ _).
    + rewrite list_lookup_total_insert_eq by exact Han.
      repeat split; try lia.
      * apply Forall_app. split; [exact Hall'|].
        apply Forall_singleton. cbn. lia.
      * apply StronglySorted_app_2; [|exact Hsorted|repeat constructor].
        intros x1 x2 Hx1 Hx2. apply list_elem_of_singleton in Hx2 as ->.
        rewrite Forall_forall in Hall. cbn. apply (Hall x1 Hx1).
    + repeat split; try lia; assumption.
  - injection Hstep as <- <-. rewrite Hpc. split; [exact Hargs|]. exact HI.
Qed.

Lemma system_reachable_in_range threads mc lower upper depth schedule s0 s :
  1 <= threads < 2 ^ 32 -> 0 <= lower <= upper -> upper < 2 ^ 32 - 1 ->
  SpawnThreads threads mc lower upper depth = Some s0 ->
  system_run observedOutputs schedule s0 = Some s ->
  slots_ok (worker_in_range lower upper) s.
Proof.
  intros Ht Hlu Hup Hspawn Hrun.
  destruct (SpawnThreads_args_spans threads mc lower upper depth Ht Hlu ltac:(lia))
    as (args & Hargs & Hb & _).
  eapply system_run_slots; [apply worker_in_range_kept; lia | | exact Hrun].
  eapply SpawnThreads_slots; [exact Hargs | exact Hspawn |].
  intros a Ha. destruct (Hb a Ha) as (H1 & H2 & H3 & _).
  unfold worker_in_range. cbn. auto.
Qed.

(** X4.  With 32-bit bounds lower <= upper < UINT_MAX, at every point of
    every execution of the seed search each seed FindSeed would print lies
    within [lower, upper], and each worker's list holds its seeds in
    strictly ascending order. *)
Theorem FindSeed_seeds_in_bounds threads mc lower upper depth schedule s0 s :
  1 <= threads < 2 ^ 32 -> 0 <= lower <= upper -> upper < 2 ^ 32 - 1 ->
  SpawnThreads threads mc lower upper depth = Some s0 ->
  system_run observedOutputs schedule s0 = Some s ->
  (forall sd : Seed, sd ∈ FindSeed_report (sys_shared s) -> lower <= sd.1 <= upper) /\
  (forall l, l ∈ answers (sys_shared s) ->
     StronglySorted (fun x y : Seed => x.1 < y.1) l).
Proof.
  intros Ht Hlu Hup Hspawn Hrun.
  destruct (system_reachable_in_range _ _ _ _ _ _ _ _ Ht Hlu Hup Hspawn Hrun)
    as (Hla & Hls & Hws).
  assert (Hslot : forall l, l ∈ answers (sys_shared s) ->
            exists w : @Worker G, worker_in_range lower upper w l
                        (status (sys_shared s) !!! a_id (w_args w))).
  { intros l Hl. apply list_elem_of_lookup in Hl as [id Hid].
    destruct (lookup_lt_is_Some_2 (sys_workers s) id) as [w Hw].
    { rewrite <- Hla. eapply lookup_lt_Some. exact Hid. }
    destruct (Hws id w Hw) as (Hidw & HI).
    rewrite (list_lookup_total_correct _ _ _ Hid) in HI.
    exists w. rewrite Hidw. exact HI. }
  split.
  - intros sd Hsd. unfold FindSeed_report in Hsd.
    apply list_elem_of_In, in_concat in Hsd as (l & Hl & Hin).
    apply list_elem_of_In in Hl, Hin.
    destruct (Hslot l Hl) as (w & Hargs & HI).
    destruct (w_pc w); [destruct HI as [-> _]; apply elem_of_nil in Hin; contradiction|..];
      destruct HI as (Hsi & _ & Hall & _);
      rewrite Forall_forall in Hall; specialize (Hall sd Hin); cbn in Hall; lia.
  - intros l Hl. destruct (Hslot l Hl) as (w & Hargs & HI).
    destruct (w_pc w); [destruct HI as [-> _]; constructor|..];
      destruct HI as (_ & _ & _ & Hsorted); exact Hsorted.
Qed.

(** X5.  With 32-bit bounds lower <= upper < UINT_MAX, the progress
    counter of a worker never exceeds the length of its interval,
    endingSeed - startingSeed, and no step of any thread makes it
    smaller. *)
Theorem status_bounded_and_monotone threads mc lower upper depth schedule s0 s t s' :
  1 <= threads < 2 ^ 32 -> 0 <= lower <= upper -> upper < 2 ^ 32 - 1 ->
  SpawnThreads threads mc lower upper depth = Some s0 ->
  system_run observedOutputs schedule s0 = Some s ->
  system_step observedOutputs t s = Some s' ->
  forall id w, sys_workers s !! id = Some w ->
    0 <= status (sys_shared s) !!! id
      <= a_endingSeed (w_args w) - a_startingSeed (w_args w) /\
    status (sys_shared s) !!! id <= status (sys_shared s') !!! id.
Proof.
  intros Ht Hlu Hup Hspawn Hrun Hstep id w Hw.
  destruct (system_reachable_in_range _ _ _ _ _ _ _ _ Ht Hlu Hup Hspawn Hrun)
    as (Hla & Hls & Hws).
  destruct (Hws id w Hw) as (Hid & Hargs & HI).
  assert (Hbound : 0 <= status (sys_shared s) !!! id
                   <= a_endingSeed (w_args w) - a_startingSeed (w_args w)).
  { destruct (w_pc w); [destruct HI as [_ ->]; lia|..];
      destruct HI as (Hsi & Hv & _); lia. }
  split; [exact Hbound|].
  destruct t as [id'|]; cbn [system_step] in Hstep.
  - destruct (sys_workers s !! id') as [w1|] eqn:Hw1; [|discriminate].
    destruct (BruteForce_step _ _ _) as [[w1' sh']|] eqn:Hs1; [|discriminate].
    injection Hstep as <-. cbn [sys_shared].
    destruct (Hws id' w1 Hw1) as (Hid1 & _ & HI1).
    destruct (decide (id = id')) as [<-|Hne].
    + assert (w1 = w) as -> by congruence.
      pose proof (lookup_lt_Some _ _ _ Hw) as Hlt.
      unfold BruteForce_step in Hs1. destruct (w_pc w) as [| |m|].
      * destruct (decide _); [|discriminate]. injection Hs1 as <- <-. cbn. lia.
      * destruct (_ <=? _); [|injection Hs1 as <- <-; lia].
        destruct (BruteForce_depth _ _ _ _) as [[m g']|]; [|discriminate].
        injection Hs1 as <- <-. lia.
      * unfold BruteForce_record in Hs1. destruct (decide _); [|discriminate].
        injection Hs1 as <- <-. cbn. rewrite Hid.
        rewrite list_lookup_total_insert_eq by lia.
        destruct HI as (Hsi & Hv & _). rewrite wrap32_small by lia. lia.
      * injection Hs1 as <- <-. lia.
    + destruct (BruteForce_step_frame _ _ _ _ Hs1) as (_ & _ & _ & Hother).
      destruct (Hother id) as [_ Hsame]; [congruence|].
      rewrite (lookup_total_same _ _ id Hsame). lia.
  - destruct (StatusThread_step _ _ _) as [pc' sh'] eqn:Hs1.
    injection Hstep as <-. cbn [sys_shared].
    unfold StatusThread_step in Hs1.
    destruct (sys_reporter s); [destruct (isCompleted _)| |];
      injection Hs1 as <- <-; cbn; lia.
Qed.

(** *** What a recorded confidence stands for *)

Lemma BruteForce_depth_same_outputs d : forall (g1 g2 : G) m,
  outputs d g1 = outputs d g2 ->
  fst <$> BruteForce_depth observedOutputs d g1 m
  = fst <$> BruteForce_depth observedOutputs d g2 m.
Proof.
  induction d as [|d IH]; intros g1 g2 m Hout; cbn [BruteForce_depth outputs] in *.
  - reflexivity.
  - destruct (random g1) as [x1 g1'], (random g2) as [x2 g2'].
    injection Hout as -> Hout.
    destruct (observedOutputs !! m) as [o|]; [|reflexivity].
    destruct (o =? x2).
    + destruct (_ =? _)%nat; [reflexivity | apply IH; exact Hout].
    + apply IH. exact Hout.
Qed.

Lemma percent_of_full_inv m n :
  0 <= m <= n -> percent_of m n = DFin 100 -> m = n.
Proof.
  intros Hmn. unfold percent_of.
  destruct (Z.eqb_spec n 0) as [->|Hn0]; [destruct (m =? 0); discriminate|].
  intros [= Hq].
  assert (Heq : (inject_Z m / inject_Z n * 100 == 100)%Q).
  { rewrite <- Hq at 2. symmetry. apply Qred_correct. }
  assert (Hnz : ~ (inject_Z n == 0)%Q).
  { change 0%Q with (inject_Z 0). rewrite inject_Z_injective. lia. }
  assert (Hone : (inject_Z m / inject_Z n == 1)%Q).
  { apply (Qmult_inj_r _ _ 100); [discriminate|]. rewrite Heq. reflexivity. }
  apply inject_Z_injective.
  rewrite <- (Qmult_div_r (inject_Z m) (inject_Z n)) by exact Hnz.
  rewrite Hone. ring.
Qed.

Lemma SpawnThreads_loop_depth todo : forall id startAt labor mc depth args a,
  SpawnThreads_loop todo id startAt labor mc depth = Some args ->
  a ∈ args -> a_depth a = depth.
Proof.
  induction todo as [|todo IH]; intros id startAt labor mc depth args a;
    cbn [SpawnThreads_loop].
  - intros [= <-] Ha. apply elem_of_nil in Ha. contradiction.
  - destruct (labor !! id) as [l|]; [|discriminate].
    destruct (SpawnThreads_loop todo _ _ _ _ _) as [rest|] eqn:Hrest; [|discriminate].
    intros [= <-] Ha. apply elem_of_cons in Ha as [-> | Ha]; [reflexivity|].
    apply (IH _ _ _ _ _ _ _ Hrest Ha).
Qed.

Lemma worker_counts_kept depth :
  (forall v (g g' : G) d, outputs d (seed v g) = outputs d (seed v g')) ->
  step_keeps observedOutputs (worker_counts observedOutputs depth).
Proof.
  intros Hseed w sh w' sh' Han Hst Hstep (Hd & Hrec & Hall).
  unfold worker_counts. unfold BruteForce_step in Hstep.
  destruct (w_pc w) as [| |m|] eqn:Hpc.
  - destruct (decide _); [|discriminate]. injection Hstep as <- <-. cbn.
    rewrite list_lookup_total_insert_eq by exact Han.
    split; [exact Hd|]. split; [intros m [=] | constructor].
  - destruct (_ <=? _).
    + destruct (BruteForce_depth _ _ _ _) as [[m g']|] eqn:Hrun; [|discriminate].
      injection Hstep as <- <-. cbn. split; [exact Hd|]. split; [|exact Hall].
      intros m0 Hm0. destruct (isCompleted sh); [discriminate|].
      injection Hm0 as <-.
      rewrite <- (BruteForce_depth_same_outputs _ (seed (w_seedIndex w) (w_generator w)))
        by apply Hseed.
      rewrite <- Hd, Hrun. reflexivity.
    + injection Hstep as <- <-. cbn. split; [exact Hd|]. split; [|exact Hall].
      intros m0 [=].
  - unfold BruteForce_record in Hstep. destruct (decide _); [|discriminate].
    injection Hstep as <- <-. cbn. split; [exact Hd|]. split; [intros m0 [=]|].
    destruct (dle _ _); [|exact Hall].
    rewrite list_lookup_total_insert_eq by exact Han.
    apply Forall_app. split; [exact Hall|]. apply Forall_singleton.
    exists m. cbn. split; [apply Hrec; reflexivity | reflexivity].
  - injection Hstep as <- <-. split; [exact Hd|]. split; [|exact Hall].
    intros m0 Hm0. rewrite Hpc in Hm0. discriminate.
Qed.

Lemma system_reachable_counts threads mc lower upper depth schedule s0 s :
  (forall v (g g' : G) d, outputs d (seed v g) = outputs d (seed v g')) ->
  SpawnThreads threads mc lower upper depth = Some s0 ->
  system_run observedOutputs schedule s0 = Some s ->
  slots_ok (worker_counts observedOutputs depth) s.
Proof.
  intros Hseed Hspawn Hrun.
  destruct (SpawnThreads_args threads mc lower upper depth) as [args|] eqn:Hargs;
    [|unfold SpawnThreads in Hspawn; rewrite Hargs in Hspawn; discriminate].
  eapply system_run_slots; [apply worker_counts_kept; exact Hseed | | exact Hrun].
  eapply SpawnThreads_slots; [exact Hargs | exact Hspawn |].
  intros a Ha.
  assert (Hd : a_depth a = depth)
    by (eapply SpawnThreads_loop_depth; [exact Hargs | exact Ha]).
  unfold worker_counts. cbn. split; [exact Hd|]. split; [intros m [=] | constructor].
Qed.

(** The count behind a recorded pair: the one the depth loop reaches for
    its seed on a fresh generator. *)
Lemma FindSeed_report_counts threads mc lower upper depth schedule s0 s (sd : Seed) :
  (forall v (g g' : G) d, outputs d (seed v g) = outputs d (seed v g')) ->
  SpawnThreads threads mc lower upper depth = Some s0 ->
  system_run observedOutputs schedule s0 = Some s ->
  sd ∈ FindSeed_report (sys_shared s) ->
  exists m g',
    BruteForce_depth observedOutputs (Z.to_nat depth) (seed sd.1 getInstance) 0
    = Some (m, g')
    /\ sd.2 = percent_of (Z.of_nat m) (Z.of_nat n_obs).
Proof.
  intros Hseed Hspawn Hrun Hsd.
  destruct (system_reachable_counts _ _ _ _ _ _ _ _ Hseed Hspawn Hrun)
    as (Hla & Hls & Hws).
  unfold FindSeed_report in Hsd.
  apply list_elem_of_In, in_concat in Hsd as (l & Hl & Hin).
  apply list_elem_of_In in Hl, Hin.
  apply list_elem_of_lookup in Hl as [id Hid].
  destruct (lookup_lt_is_Some_2 (sys_workers s) id) as [w Hw].
  { rewrite <- Hla. eapply lookup_lt_Some. exact Hid. }
  destruct (Hws id w Hw) as (_ & _ & _ & Hall).
  rewrite (list_lookup_total_correct _ _ _ Hid) in Hall.
  rewrite Forall_forall in Hall. destruct (Hall sd Hin) as (m & Hm & Hc).
  destruct (BruteForce_depth observedOutputs (Z.to_nat depth) (seed sd.1 getInstance) 0)
    as [[m1 g']|] eqn:Hdepth; [|discriminate].
  cbn in Hm. injection Hm as ->.
  exists m, g'. split; [reflexivity | exact Hc].
Qed.

(** X6.  For a generator that keeps its state to itself and whose outputs
    after seeding depend on the seed alone, at every point of every
    execution of the seed search a pair (s, 100.0) is among those
    FindSeed would print only when the observations do occur, in order,
    among the first [depth] outputs for s: no false positive at 100%. *)
Theorem FindSeed_no_false_positive threads mc lower upper depth schedule s0 s :
  (forall v (g g' : G) d, outputs d (seed v g) = outputs d (seed v g')) ->
  SpawnThreads threads mc lower upper depth = Some s0 ->
  system_run observedOutputs schedule s0 = Some s ->
  forall sd : Seed, sd ∈ FindSeed_report (sys_shared s) ->
    sd.2 = DFin 100 ->
    observedOutputs `sublist_of` stream sd.1 (Z.to_nat depth).
Proof.
  intros Hseed Hspawn Hrun sd Hsd H100.
  destruct (FindSeed_report_counts _ _ _ _ _ _ _ _ _ Hseed Hspawn Hrun Hsd)
    as (m & g' & Hdepth & Hc).
  rewrite Hc in H100.
  destruct observedOutputs as [|o obs'] eqn:Hobs.
  { apply sublist_nil_l. }
  rewrite <- Hobs in *.
  assert (Hne : observedOutputs <> []) by (rewrite Hobs; discriminate).
  assert (Hle : (m <= n_obs)%nat)
    by (eapply BruteForce_depth_le; [|exact Hdepth]; lia).
  apply percent_of_full_inv in H100; [|lia].
  apply (BruteForce_depth_stream observedOutputs sd.1 (Z.to_nat depth) m g' Hne Hdepth).
  lia.
Qed.

(** *** No out-of-range access *)

Lemma DivisionOfLabor_loop_length todo : forall index work leftover labor,
  length (DivisionOfLabor_loop todo index work leftover labor) = length labor.
Proof.
  induction todo as [|todo IH]; intros index work leftover labor;
    cbn [DivisionOfLabor_loop]; [reflexivity|].
  destruct (0 <? leftover); rewrite IH, length_insert; reflexivity.
Qed.

Lemma SpawnThreads_loop_total todo : forall id startAt labor mc depth,
  (id + todo <= length labor)%nat ->
  is_Some (SpawnThreads_loop todo id startAt labor mc depth).
Proof.
  induction todo as [|todo IH]; intros id startAt labor mc depth Hlen;
    cbn [SpawnThreads_loop]; [eexists; reflexivity|].
  destruct (lookup_lt_is_Some_2 labor id ltac:(lia)) as [l ->].
  destruct (IH (S id) (wrap32 (startAt + l)) labor mc depth ltac:(lia)) as [rest ->].
  eexists; reflexivity.
Qed.

Lemma system_run_total schedule : forall s,
  observedOutputs <> [] ->
  slots_ok (fun _ _ _ => True) s ->
  (forall id, WorkerThread id ∈ schedule -> (id < length (sys_workers s))%nat) ->
  is_Some (system_run observedOutputs schedule s).
Proof.
  induction schedule as [|t schedule IH]; intros s Hne Hok Hvalid;
    cbn [system_run]; [eexists; reflexivity|].
  assert (Hstep : exists s1, system_step observedOutputs t s = Some s1
                             /\ length (sys_workers s1) = length (sys_workers s)).
  { destruct Hok as (Hla & Hls & Hws). destruct t as [id|]; cbn [system_step].
    - destruct (lookup_lt_is_Some_2 (sys_workers s) id) as [w Hw].
      { apply Hvalid. apply list_elem_of_here. }
      rewrite Hw. destruct (Hws id w Hw) as [Hid _].
      pose proof (lookup_lt_Some _ _ _ Hw) as Hlt.
      destruct (BruteForce_step_total observedOutputs w (sys_shared s) Hne)
        as [[w' sh'] ->]; [lia | lia |].
      eexists. split; [reflexivity|]. cbn. apply length_insert.
    - destruct (StatusThread_step _ _ _) as [pc' sh'].
      eexists. split; reflexivity. }
  destruct Hstep as (s1 & Hs1 & Hlen). rewrite Hs1.
  apply IH; [exact Hne | |].
  - eapply system_step_slots; [|exact Hok|exact Hs1].
    intros w sh w' sh' _ _ _ _. exact I.
  - intros id Hid. rewrite Hlen. apply Hvalid. apply list_elem_of_further. exact Hid.
Qed.

(** X7.  With at least one observation and at least one thread, the seed
    search makes no out-of-range access: SpawnThreads sets up its threads,
    and every schedule that only names existing workers runs to its
    end. *)
Theorem seed_search_no_fault threads mc lower upper depth schedule :
  observedOutputs <> [] ->
  1 <= threads ->
  (forall id, WorkerThread id ∈ schedule -> (id < Z.to_nat threads)%nat) ->
  exists s0 s,
    SpawnThreads threads mc lower upper depth = Some s0 /\
    length (sys_workers s0) = Z.to_nat threads /\
    system_run observedOutputs schedule s0 = Some s.
Proof.
  intros Hne Ht Hvalid.
  destruct (SpawnThreads_loop_total (Z.to_nat threads) 0 lower
              (DivisionOfLabor (wrap32 (upper - lower)) threads) mc depth)
    as [args Hargs].
  { unfold DivisionOfLabor. rewrite DivisionOfLabor_loop_length, length_replicate. lia. }
  assert (Hspawn : exists s0, SpawnThreads threads mc lower upper depth = Some s0).
  { unfold SpawnThreads, SpawnThreads_args. rewrite Hargs. eexists; reflexivity. }
  destruct Hspawn as [s0 Hspawn].
  assert (Hlen : length (sys_workers s0) = Z.to_nat threads).
  { unfold SpawnThreads, SpawnThreads_args in Hspawn. rewrite Hargs in Hspawn.
    injection Hspawn as <-. cbn. rewrite length_fmap.
    apply (SpawnThreads_loop_args _ _ _ _ _ _ _ Hargs). }
  destruct (system_run_total schedule s0 Hne) as [s Hrun].
  - eapply SpawnThreads_slots; [exact Hargs | exact Hspawn |]. intros a _. exact I.
  - intros id Hid. rewrite Hlen. apply Hvalid. exact Hid.
  - exists s0, s. auto.
Qed.

(** *** The completion flag *)

(** X8.  Once the flag is set while the reporter is not inside its loop
    body, it stays set through every later step of every thread, and the
    reporter never enters its loop body again. *)
Theorem flag_latched_outside_reporter_body schedule : forall s s',
  system_run observedOutputs schedule s = Some s' ->
  isCompleted (sys_shared s) = true ->
  sys_reporter s <> InBody ->
  isCompleted (sys_shared s') = true /\ sys_reporter s' <> InBody.
Proof.
  induction schedule as [|t schedule IH]; intros s s'; cbn [system_run].
  - intros [= <-]. auto.
  - destruct (system_step observedOutputs t s) as [s1|] eqn:Hstep; [|discriminate].
    intros Hrun Hflag Hpc. apply (IH s1 s' Hrun).
    + destruct t as [id|]; cbn [system_step] in Hstep.
      * destruct (sys_workers s !! id) as [w|]; [|discriminate].
        destruct (BruteForce_step _ _ _) as [[w' sh']|] eqn:Hs; [|discriminate].
        injection Hstep as <-. cbn.
        eapply BruteForce_step_latch; eassumption.
      * unfold StatusThread_step in Hstep. rewrite Hflag in Hstep.
        destruct (sys_reporter s); [|contradiction|];
          injection Hstep as <-; exact Hflag.
    + destruct t as [id|]; cbn [system_step] in Hstep.
      * destruct (sys_workers s !! id) as [w|]; [|discriminate].
        destruct (BruteForce_step _ _ _) as [[w' sh']|]; [|discriminate].
        injection Hstep as <-. exact Hpc.
      * unfold StatusThread_step in Hstep. rewrite Hflag in Hstep.
        destruct (sys_reporter s); [|contradiction|];
          injection Hstep as <-; discriminate.
Qed.

(** *** How a worker leaves its loop *)

Lemma BruteForce_run_keeps (J : Worker -> Shared -> Prop) k : forall w sh w' sh',
  (forall w sh w' sh',
     J w sh -> BruteForce_step observedOutputs w sh = Some (w', sh') -> J w' sh') ->
  J w sh ->
  BruteForce_run observedOutputs k w sh = Some (w', sh') ->
  J w' sh'.
Proof.
  induction k as [|k IH]; intros w sh w' sh' Hkeep HJ; cbn [BruteForce_run].
  - intros [= <- <-]. exact HJ.
  - destruct (BruteForce_step observedOutputs w sh) as [[w1 sh1]|] eqn:Hstep;
      [|discriminate].
    apply IH; [exact Hkeep|]. eapply Hkeep; eassumption.
Qed.

Lemma wrap32_range z : 0 <= wrap32 z < 2 ^ 32.
Proof. unfold wrap32. apply Z.mod_pos_bound. lia. Qed.

(** X9.  A worker whose endingSeed is UINT_MAX never fails the test of its
    seed loop: running alone, it has only returned if it read the flag
    set. *)
Theorem BruteForce_unbounded_interval a sh k w' sh' :
  a_endingSeed a = 2 ^ 32 - 1 ->
  0 <= a_startingSeed a < 2 ^ 32 ->
  BruteForce_run observedOutputs k (BruteForce_start a) sh = Some (w', sh') ->
  w_pc w' = Returned ->
  isCompleted sh' = true.
Proof.
  intros Hend Hstart Hrun.
  pose (J := fun (w : @Worker G) (sh : Shared) =>
               w_args w = a /\
               (w_pc w <> AtEntry -> 0 <= w_seedIndex w < 2 ^ 32) /\
               (w_pc w = Returned -> isCompleted sh = true)).
  assert (HJ : J w' sh').
  { apply (BruteForce_run_keeps J k (BruteForce_start a) sh); [| |exact Hrun].
    - clear Hrun w' sh'. intros w sh1 w' sh' (Ha & Hsi & Hret) Hstep.
      unfold BruteForce_step in Hstep. destruct (w_pc w) as [| |m|] eqn:Hpc.
      + destruct (decide _); [|discriminate]. injection Hstep as <- <-.
        repeat split; cbn; try lia; try discriminate.
        * exact Ha.
        * rewrite Ha. lia.
        * rewrite Ha. lia.
      + specialize (Hsi ltac:(discriminate)).
        destruct (w_seedIndex w <=? a_endingSeed (w_args w)) eqn:Hle;
          [|apply Z.leb_gt in Hle; rewrite Ha in Hle; lia].
        destruct (BruteForce_depth _ _ _ _) as [[m g']|]; [|discriminate].
        injection Hstep as <- <-. repeat split; cbn; try lia; try exact Ha.
        intros Hx. destruct (isCompleted sh1); [reflexivity | discriminate Hx].
      + destruct (BruteForce_record _ _ _ _ _) as [sh2|]; [|discriminate].
        injection Hstep as <- <-. repeat split; cbn; try discriminate.
        * exact Ha.
        * apply wrap32_range.
        * apply wrap32_range.
      + injection Hstep as <- <-. unfold J. rewrite Hpc.
        split; [exact Ha|]. split; [exact Hsi | exact Hret].
    - repeat split; cbn; try discriminate; congruence. }
  destruct HJ as (_ & _ & Hret). exact Hret.
Qed.

Lemma BruteForce_returns_from_head (a : BruteForceArgs) (r : nat) : forall w sh,
  observedOutputs <> [] ->
  a_endingSeed a < 2 ^ 32 - 1 ->
  w_args w = a -> w_pc w = AtLoopHead ->
  0 <= w_seedIndex w -> w_seedIndex w = a_endingSeed a + 1 - Z.of_nat r ->
  (a_id a < length (status sh))%nat ->
  (a_id a < length (answers sh))%nat ->
  exists k w' sh',
    (k <= 2 * r + 1)%nat /\
    BruteForce_run observedOutputs k w sh = Some (w', sh') /\
    w_pc w' = Returned.
Proof.
  induction r as [|r IH]; intros w sh Hne Hend Ha Hpc Hsi0 Hsi Hst Han.
  - exists 1%nat. cbn [BruteForce_run]. unfold BruteForce_step. rewrite Hpc, Ha.
    destruct (Z.leb_spec (w_seedIndex w) (a_endingSeed a)) as [Hle|_]; [lia|].
    eexists _, _. split; [lia|]. split; reflexivity.
  - assert (Hpos : (0 < n_obs)%nat)
      by (destruct observedOutputs; [congruence | simpl; lia]).
    destruct (BruteForce_depth_total observedOutputs (Z.to_nat (a_depth a))
                (seed (w_seedIndex w) (w_generator w)) 0%nat Hpos)
      as (m & g' & Hrun & _).
    destruct (isCompleted sh) eqn:Hflag.
    + exists 1%nat. cbn [BruteForce_run]. unfold BruteForce_step. rewrite Hpc, Ha.
      destruct (Z.leb_spec (w_seedIndex w) (a_endingSeed a)) as [_|Hgt]; [|lia].
      rewrite Hrun, Hflag. eexists _, _. split; [lia|]. split; reflexivity.
    + assert (Hrec : exists sh1,
                BruteForce_record observedOutputs a (w_seedIndex w) m sh = Some sh1
                /\ length (status sh1) = length (status sh)
                /\ length (answers sh1) = length (answers sh)).
      { unfold BruteForce_record.
        destruct (decide _) as [_|Hno]; [|exfalso; apply Hno; split; assumption].
        eexists. split; [reflexivity|]. cbn. rewrite length_insert.
        split; [reflexivity|]. destruct (dle _ _); [apply length_insert | reflexivity]. }
      destruct Hrec as (sh1 & Hrec & Hl1 & Hl2).
      destruct (IH {| w_args := a; w_pc := AtLoopHead;
                      w_seedIndex := wrap32 (w_seedIndex w + 1);
                      w_generator := g' |} sh1 Hne Hend eq_refl eq_refl)
        as (k & w' & sh' & Hk & Hrun' & Hret); cbn [w_seedIndex];
        rewrite ?wrap32_small by lia; try lia.
      exists (2 + k)%nat, w', sh'. split; [lia|]. split; [|exact Hret].
      rewrite BruteForce_run_add. cbn [BruteForce_run].
      unfold BruteForce_step at 1. rewrite Hpc, Ha.
      destruct (Z.leb_spec (w_seedIndex w) (a_endingSeed a)) as [_|Hgt]; [|lia].
      rewrite Hrun, Hflag. unfold BruteForce_step.
      cbn [w_pc w_args w_seedIndex w_generator]. rewrite Hrec.
      rewrite wrap32_small in Hrun' by lia. rewrite wrap32_small by lia.
      exact Hrun'.
Qed.

(** X10.  A worker over 32-bit seeds startingSeed <= endingSeed <
    UINT_MAX, running alone with its slots in place and some
    observation, returns within 2 (endingSeed - startingSeed + 1) + 2
    steps. *)
Theorem BruteForce_returns a sh :
  observedOutputs <> [] ->
  0 <= a_startingSeed a <= a_endingSeed a ->
  a_endingSeed a < 2 ^ 32 - 1 ->
  (a_id a < length (status sh))%nat ->
  (a_id a < length (answers sh))%nat ->
  exists k w' sh',
    (k <= 2 * Z.to_nat (a_endingSeed a - a_startingSeed a + 1) + 2)%nat /\
    BruteForce_run observedOutputs k (BruteForce_start a) sh = Some (w', sh') /\
    w_pc w' = Returned.
Proof.
  intros Hne Hrange Hend Hst Han.
  destruct (BruteForce_returns_from_head a
              (Z.to_nat (a_endingSeed a - a_startingSeed a + 1))
              {| w_args := a; w_pc := AtLoopHead;
                 w_seedIndex := a_startingSeed a; w_generator := getInstance |}
              {| isCompleted := isCompleted sh; status := status sh;
                 answers := <[a_id a := []]> (answers sh) |} Hne Hend eq_refl eq_refl)
    as (k & w' & sh' & Hk & Hrun & Hret); cbn [w_seedIndex status answers];
    rewrite ?length_insert; try lia.
  exists (1 + k)%nat, w', sh'. split; [lia|]. split; [|exact Hret].
  rewrite BruteForce_run_add. cbn [BruteForce_run].
  unfold BruteForce_step. cbn [BruteForce_start w_pc w_args].
  destruct (decide _) as [_|Hno]; [exact Hrun | contradiction].
Qed.

(** *** When the reporter declares completion *)

Lemma StatusThread_sum_range l : 0 <= StatusThread_sum l < 2 ^ 32.
Proof.
  unfold StatusThread_sum.
  assert (Hgen : forall acc, 0 <= acc < 2 ^ 32 ->
            0 <= foldl (fun sum s => wrap32 (sum + s)) acc l < 2 ^ 32).
  { induction l as [|x l IH]; intros acc Hacc; cbn [foldl]; [exact Hacc|].
    apply IH. apply wrap32_range. }
  apply Hgen. lia.
Qed.

Lemma StatusThread_sum_zeros l : Forall (fun x => x = 0) l -> StatusThread_sum l = 0.
Proof.
  unfold StatusThread_sum. induction 1 as [|x l -> _ IH]; cbn [foldl]; [reflexivity|].
  exact IH.
Qed.

Lemma percent_of_reaches_100 sum W :
  0 < W -> 0 <= sum ->
  (dle (DFin 100) (percent_of sum W) = true <-> W <= sum).
Proof.
  intros HW Hsum. unfold percent_of.
  destruct (Z.eqb_spec W 0) as [->|_]; [lia|]. cbn [dle].
  rewrite Qle_bool_iff, Qred_correct.
  assert (Hpos : (0 < inject_Z W)%Q).
  { change 0%Q with (inject_Z 0). rewrite <- Zlt_Qlt. lia. }
  assert (Hnz : ~ (inject_Z W == 0)%Q).
  { intros Hz. rewrite Hz in Hpos. discriminate Hpos. }
  change (100%Q) with (1 * 100)%Q at 1.
  rewrite Qmult_le_r by reflexivity.
  split.
  - intros Hq. rewrite Zle_Qle.
    rewrite <- (Qmult_div_r (inject_Z sum) (inject_Z W)) by exact Hnz.
    rewrite <- (Qmult_1_r (inject_Z W)) at 1.
    apply Qmult_le_l; assumption.
  - intros Hle. apply Qle_shift_div_l; [exact Hpos|].
    rewrite Qmult_1_l. rewrite Zle_Qle in Hle. exact Hle.
Qed.

(** X11.  A pass through the reporter's loop body stores true into the
    flag exactly when the sum of the progress counters has reached
    totalWork, for a positive totalWork; for totalWork = 0 it stores true
    exactly when that sum is positive, 0.0 / 0.0 not being at least
    100. *)
Theorem StatusThread_completion_threshold totalWork sh :
  (0 < totalWork ->
   (isCompleted (StatusThread_step totalWork InBody sh).2 = true
    <-> totalWork <= StatusThread_sum (status sh))) /\
  (totalWork = 0 ->
   (isCompleted (StatusThread_step totalWork InBody sh).2 = true
    <-> 0 < StatusThread_sum (status sh))).
Proof.
  pose proof (StatusThread_sum_range (status sh)) as Hrange.
  split; intros HW; cbn [StatusThread_step snd isCompleted].
  - apply percent_of_reaches_100; lia.
  - subst totalWork. unfold percent_of. cbn [Z.eqb].
    destruct (Z.eqb_spec (StatusThread_sum (status sh)) 0) as [->|Hnz]; cbn [dle].
    + split; [discriminate | lia].
    + split; [lia | reflexivity].
Qed.

Lemma system_run_totalWork schedule : forall s s',
  system_run observedOutputs schedule s = Some s' ->
  sys_totalWork s' = sys_totalWork s.
Proof.
  induction schedule as [|t schedule IH]; intros s s'; cbn [system_run].
  - intros [= <-]. reflexivity.
  - destruct (system_step observedOutputs t s) as [s1|] eqn:Hstep; [|discriminate].
    intros Hrun. rewrite (IH s1 s' Hrun).
    destruct t as [id|]; cbn [system_step] in Hstep.
    + destruct (sys_workers s !! id) as [w|]; [|discriminate].
      destruct (BruteForce_step _ _ _) as [[w' sh']|]; [|discriminate].
      injection Hstep as <-. reflexivity.
    + destruct (StatusThread_step _ _ _) as [pc' sh'].
      injection Hstep as <-. reflexivity.
Qed.

(** X12.  When the range is the single 32-bit seed lower = upper <
    UINT_MAX, totalWork is 0 and every progress counter stays 0: a step of
    the reporter never turns the flag on, and a pass through its loop body
    leaves the flag unset.  Only a worker's full match sets it. *)
Theorem StatusThread_single_seed_never_completes threads mc lower depth schedule s0 s s' :
  1 <= threads < 2 ^ 32 -> 0 <= lower -> lower < 2 ^ 32 - 1 ->
  SpawnThreads threads mc lower lower depth = Some s0 ->
  system_run observedOutputs schedule s0 = Some s ->
  system_step observedOutputs ReporterThread s = Some s' ->
  (isCompleted (sys_shared s) = false -> isCompleted (sys_shared s') = false) /\
  (sys_reporter s = InBody -> isCompleted (sys_shared s') = false).
Proof.
  intros Ht Hlo Hup Hspawn Hrun Hstep.
  destruct (system_reachable_in_range threads mc lower lower depth schedule s0 s
              Ht ltac:(lia) Hup Hspawn Hrun) as (Hla & Hls & Hws).
  assert (Hzero : Forall (fun x => x = 0) (status (sys_shared s))).
  { apply Forall_lookup. intros id v Hv.
    destruct (lookup_lt_is_Some_2 (sys_workers s) id) as [w Hw].
    { rewrite <- Hls. eapply lookup_lt_Some. exact Hv. }
    destruct (Hws id w Hw) as (_ & Hargs & HI).
    rewrite (list_lookup_total_correct _ _ _ Hv) in HI.
    destruct (w_pc w); [destruct HI as [_ ->]; reflexivity|..];
      destruct HI as (Hsi & Hb & _); lia. }
  assert (Hwork : sys_totalWork s = 0).
  { rewrite (system_run_totalWork schedule s0 s Hrun).
    unfold SpawnThreads in Hspawn.
    destruct (SpawnThreads_args _ _ _ _ _); [|discriminate].
    injection Hspawn as <-. cbn. rewrite Z.sub_diag. reflexivity. }
  cbn [system_step] in Hstep.
  destruct (StatusThread_step _ _ _) as [pc' sh'] eqn:Hrep.
  injection Hstep as <-. cbn [sys_shared].
  unfold StatusThread_step in Hrep. rewrite Hwork in Hrep.
  destruct (sys_reporter s).
  - destruct (isCompleted (sys_shared s)) eqn:Hflag; injection Hrep as <- <-.
    + split; [discriminate | discriminate].
    + split; [intros _; exact Hflag | discriminate].
  - injection Hrep as <- <-. cbn [isCompleted].
    rewrite (StatusThread_sum_zeros _ Hzero). split; reflexivity.
  - injection Hrep as <- <-. split; [intros Hf; exact Hf | discriminate].
Qed.

(** *** A worker alone, with no full match in its interval *)

Lemma BruteForce_turn w sh :
  (forall v (g g' : G) d, outputs d (seed v g) = outputs d (seed v g')) ->
  observedOutputs <> [] ->
  w_pc w = AtLoopHead ->
  w_seedIndex w <= a_endingSeed (w_args w) ->
  isCompleted sh = false ->
  (a_id (w_args w) < length (status sh))%nat ->
  (a_id (w_args w) < length (answers sh))%nat ->
  exists m g' g'',
    BruteForce_depth observedOutputs (Z.to_nat (a_depth (w_args w)))
      (seed (w_seedIndex w) getInstance) 0 = Some (m, g'') /\
    BruteForce_run observedOutputs 2 w sh
    = Some ({| w_args := w_args w; w_pc := AtLoopHead;
               w_seedIndex := wrap32 (w_seedIndex w + 1);
               w_generator := g' |},
            {| isCompleted := (m =? n_obs)%nat;
               status := <[a_id (w_args w) :=
                             wrap32 (w_seedIndex w - a_startingSeed (w_args w))]>
                           (status sh);
               answers :=
                 if dle (a_minimumConfidence (w_args w))
                      (percent_of (Z.of_nat m) (Z.of_nat n_obs))
                 then <[a_id (w_args w) :=
                          (answers sh !!! a_id (w_args w))
                          ++ [(w_seedIndex w,
                               percent_of (Z.of_nat m) (Z.of_nat n_obs))]]>
                        (answers sh)
                 else answers sh |}).
Proof.
  intros Hseed Hne Hpc Hend Hflag Hst Han.
  assert (Hpos : (0 < n_obs)%nat) by (destruct observedOutputs; [congruence | simpl; lia]).
  destruct (BruteForce_depth_total observedOutputs (Z.to_nat (a_depth (w_args w)))
              (seed (w_seedIndex w) (w_generator w)) 0%nat Hpos)
    as (m & g' & Hrun & _).
  pose proof (BruteForce_depth_same_outputs (Z.to_nat (a_depth (w_args w)))
                (seed (w_seedIndex w) (w_generator w))
                (seed (w_seedIndex w) getInstance) 0%nat (Hseed _ _ _ _)) as Hsame.
  rewrite Hrun in Hsame. cbn in Hsame.
  destruct (BruteForce_depth observedOutputs _ (seed (w_seedIndex w) getInstance) 0)
    as [[m1 g'']|] eqn:Hfresh; [|discriminate].
  cbn in Hsame. injection Hsame as <-.
  exists m, g', g''. split; [reflexivity|].
  cbn [BruteForce_run]. unfold BruteForce_step at 1. rewrite Hpc.
  apply Z.leb_le in Hend. rewrite Hend, Hrun, Hflag.
  unfold BruteForce_step. cbn [w_pc w_args w_seedIndex w_generator].
  unfold BruteForce_record.
  destruct (decide _) as [_|Hno]; [|exfalso; apply Hno; split; assumption].
  rewrite Hflag. destruct (m =? n_obs)%nat; reflexivity.
Qed.

Lemma BruteForce_sweep (a : BruteForceArgs) (j : nat) : forall v g sh,
  (forall v (g g' : G) d, outputs d (seed v g) = outputs d (seed v g')) ->
  observedOutputs <> [] ->
  0 <= a_startingSeed a <= v -> v + Z.of_nat j = a_endingSeed a + 1 ->
  a_endingSeed a < 2 ^ 32 - 1 ->
  isCompleted sh = false ->
  (a_id a < length (status sh))%nat ->
  (a_id a < length (answers sh))%nat ->
  (forall s', v <= s' <= a_endingSeed a ->
     ~ observedOutputs `sublist_of` stream s' (Z.to_nat (a_depth a))) ->
  exists g' sh',
    BruteForce_run observedOutputs (2 * j)
      {| w_args := a; w_pc := AtLoopHead; w_seedIndex := v; w_generator := g |} sh
    = Some ({| w_args := a; w_pc := AtLoopHead; w_seedIndex := a_endingSeed a + 1;
               w_generator := g' |}, sh')
    /\ isCompleted sh' = false
    /\ (a_id a < length (status sh'))%nat
    /\ (a_id a < length (answers sh'))%nat
    /\ answers sh' !!! a_id a
       = answers sh !!! a_id a
         ++ answers_for observedOutputs (a_minimumConfidence a) (a_depth a)
              (seqZ v (Z.of_nat j))
    /\ (j <> 0%nat ->
        status sh' !!! a_id a = a_endingSeed a - a_startingSeed a).
Proof.
  induction j as [|j IH]; intros v g sh Hseed Hne Hv Hend Hmax Hflag Hst Han Hno.
  - exists g, sh. cbn [BruteForce_run Nat.mul].
    replace (a_endingSeed a + 1) with v by lia.
    repeat split; try assumption.
    + unfold answers_for. cbn. rewrite app_nil_r. reflexivity.
    + congruence.
  - destruct (BruteForce_turn
                {| w_args := a; w_pc := AtLoopHead; w_seedIndex := v; w_generator := g |}
                sh Hseed Hne eq_refl) as (m & g1 & g2 & Hfresh & Hrun);
      cbn [w_args w_seedIndex]; try assumption; [lia|].
    cbn [w_args w_seedIndex] in Hfresh, Hrun.
    assert (Hmn : m <> n_obs).
    { intros Heq. apply (Hno v); [lia|].
      apply (BruteForce_depth_stream observedOutputs v _ m g2 Hne Hfresh). exact Heq. }
    apply Nat.eqb_neq in Hmn. rewrite Hmn in Hrun.
    rewrite !wrap32_small in Hrun by lia.
    match type of Hrun with
    | _ = Some (_, ?sh1) =>
        destruct (IH (v + 1) g1 sh1 Hseed Hne) as (g' & sh' & Hrun' & Hf & Hs & Ha & Hans & Hstat)
    end; cbn [isCompleted status answers]; try lia; try reflexivity.
    + rewrite length_insert. exact Hst.
    + destruct (dle _ _); [rewrite length_insert|]; exact Han.
    + intros s' Hs'. apply Hno. lia.
    + exists g', sh'. replace (2 * S j)%nat with (2 + 2 * j)%nat by lia.
      rewrite BruteForce_run_add, Hrun, Hrun'.
      split; [reflexivity|]. repeat split; try assumption.
      * rewrite Hans. cbn [answers].
        rewrite (seqZ_cons v (Z.of_nat (S j))) by lia.
        replace (Z.pred (Z.of_nat (S j))) with (Z.of_nat j) by lia.
        replace (Z.succ v) with (v + 1) by lia.
        unfold answers_for at 2. cbn [fmap list_fmap concat].
        fold (answers_for observedOutputs (a_minimumConfidence a) (a_depth a)
                (seqZ (v + 1) (Z.of_nat j))).
        unfold confidence_of at 1 2. rewrite Hfresh.
        destruct (dle _ _).
        -- rewrite list_lookup_total_insert_eq by exact Han.
           rewrite <- app_assoc. reflexivity.
        -- reflexivity.
      * intros _. destruct j as [|j].
        -- cbn [BruteForce_run Nat.mul Nat.add] in Hrun'.
           match type of Hrun' with
           | Some (_, ?x) = Some (_, _) =>
               assert (Hsh' : sh' = x) by congruence
           end.
           rewrite Hsh'. cbn [status].
           rewrite list_lookup_total_insert_eq by exact Hst. lia.
        -- apply Hstat. discriminate.
Qed.

Lemma percent_of_below m n q :
  0 <= m < n -> percent_of m n = DFin q -> (q < 100)%Q.
Proof.
  intros Hmn. unfold percent_of.
  destruct (Z.eqb_spec n 0) as [->|Hn0]; [lia|].
  intros [= <-]. rewrite Qred_correct.
  assert (Hpos : (0 < inject_Z n)%Q).
  { change 0%Q with (inject_Z 0). rewrite <- Zlt_Qlt. lia. }
  change (100%Q) with (1 * 100)%Q at 2.
  apply Qmult_lt_compat_r; [reflexivity|].
  apply Qlt_shift_div_r; [exact Hpos|]. rewrite Qmult_1_l.
  rewrite <- Zlt_Qlt. lia.
Qed.

(** A seed that is not a full match stays under a minimum of 100 or
    more. *)
Lemma confidence_of_short mc depth s :
  observedOutputs <> [] ->
  ~ observedOutputs `sublist_of` stream s (Z.to_nat depth) ->
  dle (DFin 100) mc = true ->
  dle mc (confidence_of observedOutputs depth s) = false.
Proof.
  intros Hne Hno Hmc. unfold confidence_of.
  assert (Hpos : (0 < n_obs)%nat) by (destruct observedOutputs; [congruence | simpl; lia]).
  destruct (BruteForce_depth_total observedOutputs (Z.to_nat depth)
              (seed s getInstance) 0%nat Hpos) as (m & g' & Hrun & Hb).
  rewrite Hrun.
  assert (Hmn : m <> n_obs).
  { intros Heq. apply Hno.
    apply (BruteForce_depth_stream observedOutputs s _ m g' Hne Hrun). exact Heq. }
  destruct (percent_of (Z.of_nat m) (Z.of_nat n_obs)) as [q| |] eqn:Hq.
  - apply percent_of_below in Hq; [|lia].
    destruct mc as [p| |]; simpl in *; try discriminate; [|reflexivity].
    apply Qle_bool_iff in Hmc.
    destruct (Qle_bool p q) eqn:Hpq; [|reflexivity].
    apply Qle_bool_iff in Hpq. exfalso.
    apply (Qlt_irrefl 100). eapply Qle_lt_trans; [exact Hmc|].
    eapply Qle_lt_trans; [exact Hpq | exact Hq].
  - apply percent_of_finite in Hq; [contradiction | lia].
  - destruct mc; reflexivity.
Qed.

(** Every seed passes a minimum of 0 or less. *)
Lemma confidence_of_passes mc depth s :
  observedOutputs <> [] ->
  dle mc (DFin 0) = true ->
  dle mc (confidence_of observedOutputs depth s) = true.
Proof.
  intros Hne Hmc. unfold confidence_of.
  assert (Hpos : (0 < n_obs)%nat) by (destruct observedOutputs; [congruence | simpl; lia]).
  destruct (BruteForce_depth_total observedOutputs (Z.to_nat depth)
              (seed s getInstance) 0%nat Hpos) as (m & g' & Hrun & Hb).
  rewrite Hrun.
  destruct (percent_of (Z.of_nat m) (Z.of_nat n_obs)) as [q| |] eqn:Hq.
  - apply percent_of_bounds in Hq; [|lia].
    destruct mc as [p| |]; simpl in *; try discriminate.
    apply Qle_bool_iff. apply Qle_bool_iff in Hmc.
    eapply Qle_trans; [exact Hmc | apply Hq].
  - apply percent_of_finite in Hq; [contradiction | lia].
  - unfold percent_of in Hq.
    destruct (Z.eqb_spec (Z.of_nat n_obs) 0) as [H0|_]; [lia | discriminate].
Qed.

Lemma answers_for_none mc depth seeds :
  (forall s, s ∈ seeds -> dle mc (confidence_of observedOutputs depth s) = false) ->
  answers_for observedOutputs mc depth seeds = [].
Proof.
  induction seeds as [|s seeds IH]; intros Hall; [reflexivity|].
  unfold answers_for. cbn [fmap list_fmap concat].
  fold (answers_for observedOutputs mc depth seeds).
  rewrite (Hall s) by apply list_elem_of_here.
  rewrite IH; [reflexivity|].
  intros s' Hs'. apply Hall. apply list_elem_of_further. exact Hs'.
Qed.

Lemma answers_for_all mc depth seeds :
  (forall s, s ∈ seeds -> dle mc (confidence_of observedOutputs depth s) = true) ->
  fst <$> answers_for observedOutputs mc depth seeds = seeds.
Proof.
  induction seeds as [|s seeds IH]; intros Hall; [reflexivity|].
  unfold answers_for. cbn [fmap list_fmap concat].
  fold (answers_for observedOutputs mc depth seeds).
  rewrite (Hall s) by apply list_elem_of_here.
  cbn. f_equal. apply IH.
  intros s' Hs'. apply Hall. apply list_elem_of_further. exact Hs'.
Qed.

(** X17.  For a generator whose outputs after seeding depend on the seed
    alone: a worker over 32-bit seeds startingSeed <= endingSeed <
    UINT_MAX that runs alone from an unset flag, when no seed of its
    interval is a full match, returns after 2 (endingSeed - startingSeed
    + 1) + 2 steps with the flag still unset and its progress counter at
    endingSeed - startingSeed.  Its list is then empty when the minimum
    confidence is 100 or more, and holds every seed of the interval, once
    each and in ascending order, when the minimum confidence is 0 or
    less. *)
Theorem BruteForce_alone_without_full_match a sh :
  (forall v (g g' : G) d, outputs d (seed v g) = outputs d (seed v g')) ->
  observedOutputs <> [] ->
  0 <= a_startingSeed a <= a_endingSeed a ->
  a_endingSeed a < 2 ^ 32 - 1 ->
  isCompleted sh = false ->
  (a_id a < length (status sh))%nat ->
  (a_id a < length (answers sh))%nat ->
  (forall s, a_startingSeed a <= s <= a_endingSeed a ->
     ~ observedOutputs `sublist_of` stream s (Z.to_nat (a_depth a))) ->
  exists w' sh',
    BruteForce_run observedOutputs
      (2 * Z.to_nat (a_endingSeed a - a_startingSeed a + 1) + 2)
      (BruteForce_start a) sh = Some (w', sh')
    /\ w_pc w' = Returned
    /\ isCompleted sh' = false
    /\ status sh' !!! a_id a = a_endingSeed a - a_startingSeed a
    /\ (dle (DFin 100) (a_minimumConfidence a) = true ->
        answers sh' !!! a_id a = [])
    /\ (dle (a_minimumConfidence a) (DFin 0) = true ->
        fst <$> answers sh' !!! a_id a
        = seqZ (a_startingSeed a) (a_endingSeed a - a_startingSeed a + 1)).
Proof.
  intros Hseed Hne Hrange Hmax Hflag Hst Han Hno.
  set (j := Z.to_nat (a_endingSeed a - a_startingSeed a + 1)).
  destruct (BruteForce_sweep a j (a_startingSeed a) getInstance
              {| isCompleted := isCompleted sh; status := status sh;
                 answers := <[a_id a := []]> (answers sh) |} Hseed Hne)
    as (g' & sh' & Hrun & Hf & Hs & Ha & Hans & Hstat);
    cbn [isCompleted status answers]; rewrite ?length_insert; try lia; try assumption.
  eexists _, sh'.
  replace (2 * j + 2)%nat with (1 + (2 * j + 1))%nat by lia.
  rewrite BruteForce_run_add. cbn [BruteForce_run].
  unfold BruteForce_step at 1. cbn [BruteForce_start w_pc w_args].
  destruct (decide _) as [_|Hnot]; [|contradiction].
  rewrite BruteForce_run_add, Hrun. cbn [BruteForce_run].
  unfold BruteForce_step. cbn [w_pc w_args w_seedIndex w_generator].
  destruct (Z.leb_spec (a_endingSeed a + 1) (a_endingSeed a)) as [Hle|_]; [lia|].
  split; [reflexivity|]. split; [reflexivity|]. split; [exact Hf|].
  split; [apply Hstat; lia|].
  cbn [answers] in Hans.
  rewrite list_lookup_total_insert_eq in Hans by exact Han.
  unfold j in Hans. rewrite Z2Nat.id in Hans by lia. cbn [app] in Hans.
  split; intros Hmc.
  - rewrite Hans. apply answers_for_none. intros s Hin. apply elem_of_seqZ in Hin.
    apply confidence_of_short; [exact Hne | apply Hno; lia | exact Hmc].
  - etransitivity; [apply (f_equal (fmap fst)); exact Hans|].
    apply answers_for_all. intros s _.
    apply confidence_of_passes; [exact Hne | exact Hmc].
Qed.

(** *** One worker among the other threads *)

Lemma system_run_app sched1 : forall sched2 s,
  system_run observedOutputs (sched1 ++ sched2) s
  = match system_run observedOutputs sched1 s with
    | Some s1 => system_run observedOutputs sched2 s1
    | None => None
    end.
Proof.
  induction sched1 as [|t sched1 IH]; intros sched2 s; cbn [system_run app];
    [reflexivity|].
  destruct (system_step observedOutputs t s); [apply IH | reflexivity].
Qed.

Lemma slots_only_kept : step_keeps observedOutputs (fun _ _ _ => True).
Proof. intros w sh w' sh' _ _ _ _. exact I. Qed.

Lemma slots_ok_weaken (I J : @Worker G -> list Seed -> Z -> Prop) (s : @System G) :
  (forall w l v, I w l v -> J w l v) -> slots_ok I s -> slots_ok J s.
Proof.
  intros Himp (Hla & Hls & Hws). split; [exact Hla|]. split; [exact Hls|].
  intros id w Hw. destruct (Hws id w Hw) as [Hid HI]. split; [exact Hid|].
  apply Himp. exact HI.
Qed.

Lemma system_run_workers_length schedule : forall s s',
  system_run observedOutputs schedule s = Some s' ->
  length (sys_workers s') = length (sys_workers s).
Proof.
  induction schedule as [|t schedule IH]; intros s s'; cbn [system_run].
  - intros [= <-]. reflexivity.
  - destruct (system_step _ t s) as [s1|] eqn:Hstep; [|discriminate].
    intros Hrun. rewrite (IH _ _ Hrun).
    destruct t as [id|]; cbn [system_step] in Hstep.
    + destruct (sys_workers s !! id) as [w|]; [|discriminate].
      destruct (BruteForce_step _ _ _) as [[w' sh']|]; [|discriminate].
      injection Hstep as <-. cbn. apply length_insert.
    + destruct (StatusThread_step _ _ _) as [pc' sh'].
      injection Hstep as <-. reflexivity.
Qed.

(** The steps of the other threads touch neither a worker's locals nor
    its answer list. *)
Lemma system_run_other id schedule : forall s s',
  WorkerThread id ∉ schedule ->
  slots_ok (fun _ _ _ => True) s ->
  system_run observedOutputs schedule s = Some s' ->
  sys_workers s' !! id = sys_workers s !! id /\
  answers (sys_shared s') !! id = answers (sys_shared s) !! id /\
  slots_ok (fun _ _ _ => True) s'.
Proof.
  induction schedule as [|t schedule IH]; intros s s' Hnot Hok; cbn [system_run].
  - intros [= <-]. auto.
  - apply not_elem_of_cons in Hnot as [Hne Hnot].
    destruct (system_step _ t s) as [s1|] eqn:Hstep; [|discriminate].
    intros Hrun.
    pose proof (system_step_slots _ _ _ _ slots_only_kept Hok Hstep) as Hok1.
    destruct (IH s1 s' Hnot Hok1 Hrun) as (Hw' & Ha' & Hok').
    rewrite Hw', Ha'. split; [|split; [|exact Hok']].
    + destruct t as [id'|]; cbn [system_step] in Hstep.
      * destruct (sys_workers s !! id') as [w|]; [|discriminate].
        destruct (BruteForce_step _ _ _) as [[w1 sh1]|]; [|discriminate].
        injection Hstep as <-. cbn. apply list_lookup_insert_ne. congruence.
      * destruct (StatusThread_step _ _ _) as [pc' sh'].
        injection Hstep as <-. reflexivity.
    + destruct t as [id'|]; cbn [system_step] in Hstep.
      * destruct (sys_workers s !! id') as [w|] eqn:Hw; [|discriminate].
        destruct (BruteForce_step _ _ _) as [[w1 sh1]|] eqn:Hbf; [|discriminate].
        injection Hstep as <-. cbn.
        destruct Hok as (_ & _ & Hws). destruct (Hws id' w Hw) as [Hid _].
        destruct (BruteForce_step_frame _ _ _ _ Hbf) as (_ & _ & _ & Hother).
        apply Hother. rewrite Hid. congruence.
      * destruct (StatusThread_step _ _ _) as [pc' sh'] eqn:Hrep.
        injection Hstep as <-. cbn.
        unfold StatusThread_step in Hrep.
        destruct (sys_reporter s); [destruct (isCompleted _)| |];
          injection Hrep as <- <-; reflexivity.
Qed.

(** Every worker keeps the minimum confidence and the depth SpawnThreads
    gave it. *)
Lemma system_reachable_args threads mc lower upper depth schedule s0 s :
  SpawnThreads threads mc lower upper depth = Some s0 ->
  system_run observedOutputs schedule s0 = Some s ->
  slots_ok (fun w _ _ => a_minimumConfidence (w_args w) = mc
                         /\ a_depth (w_args w) = depth) s.
Proof.
  intros Hspawn Hrun.
  destruct (SpawnThreads_args threads mc lower upper depth) as [args|] eqn:Hargs;
    [|unfold SpawnThreads in Hspawn; rewrite Hargs in Hspawn; discriminate].
  eapply system_run_slots; [| | exact Hrun].
  - intros w sh w' sh' _ _ Hstep Hw.
    destruct (BruteForce_step_frame _ _ _ _ Hstep) as (-> & _). exact Hw.
  - eapply SpawnThreads_slots; [exact Hargs | exact Hspawn |].
    intros a Ha. cbn. split.
    + apply list_elem_of_lookup in Ha as [j Hj].
      apply (proj2 (SpawnThreads_loop_args _ _ _ _ _ _ _ Hargs) j a Hj).
    + eapply SpawnThreads_loop_depth; [exact Hargs | exact Ha].
Qed.

(** The step from the loop head for a seed that matches in full, the
    flag being read unset: the worker goes on to record n matches. *)
Lemma BruteForce_step_full_match w sh :
  (forall v (g g' : G) d, outputs d (seed v g) = outputs d (seed v g')) ->
  observedOutputs <> [] ->
  w_pc w = AtLoopHead ->
  w_seedIndex w <= a_endingSeed (w_args w) ->
  isCompleted sh = false ->
  observedOutputs `sublist_of` stream (w_seedIndex w) (Z.to_nat (a_depth (w_args w))) ->
  exists g',
    BruteForce_step observedOutputs w sh
    = Some ({| w_args := w_args w; w_pc := AtRecord n_obs;
               w_seedIndex := w_seedIndex w; w_generator := g' |}, sh).
Proof.
  intros Hseed Hne Hpc Hend Hflag Hsub.
  assert (Hpos : (0 < n_obs)%nat) by (destruct observedOutputs; [congruence | simpl; lia]).
  destruct (BruteForce_depth_total observedOutputs (Z.to_nat (a_depth (w_args w)))
              (seed (w_seedIndex w) (w_generator w)) 0%nat Hpos)
    as (m & g' & Hrun & _).
  pose proof (BruteForce_depth_sublist observedOutputs _ _ _ _ _ Hpos Hrun) as Hiff.
  rewrite drop_0, (Hseed _ _ getInstance) in Hiff.
  apply Hiff in Hsub. subst m.
  exists g'. unfold BruteForce_step. rewrite Hpc.
  apply Z.leb_le in Hend. rewrite Hend, Hrun, Hflag. reflexivity.
Qed.

(** The recording step for n matches: the pair at 100 goes into the
    list. *)
Lemma BruteForce_step_record_full w sh :
  observedOutputs <> [] ->
  w_pc w = AtRecord n_obs ->
  (a_id (w_args w) < length (status sh))%nat ->
  (a_id (w_args w) < length (answers sh))%nat ->
  dle (a_minimumConfidence (w_args w)) (DFin 100) = true ->
  exists w' sh',
    BruteForce_step observedOutputs w sh = Some (w', sh') /\
    w_args w' = w_args w /\ w_pc w' = AtLoopHead /\
    answers sh' !!! a_id (w_args w)
    = answers sh !!! a_id (w_args w) ++ [(w_seedIndex w, DFin 100)].
Proof.
  intros Hne Hpc Hst Han Hmc.
  assert (Hpos : (0 < n_obs)%nat) by (destruct observedOutputs; [congruence | simpl; lia]).
  unfold BruteForce_step. rewrite Hpc. unfold BruteForce_record.
  destruct (decide _) as [_|Hno]; [|exfalso; apply Hno; split; assumption].
  rewrite percent_of_full by lia. rewrite Hmc.
  eexists _, _. split; [reflexivity|]. cbn.
  split; [reflexivity|]. split; [reflexivity|].
  apply list_lookup_total_insert_eq. exact Han.
Qed.

(** A pair in the list of a worker that has started stays there, whatever
    thread moves. *)
Lemma answer_kept (x : Seed) (id : nat) :
  step_keeps observedOutputs
    (fun w l _ => a_id (w_args w) = id -> w_pc w <> AtEntry /\ x ∈ l).
Proof.
  intros w sh w' sh' Han Hst Hstep HI.
  destruct (BruteForce_step_frame _ _ _ _ Hstep) as (Hargs & _).
  rewrite Hargs. intros Hid. destruct (HI Hid) as [Hpc Hx].
  unfold BruteForce_step in Hstep.
  destruct (w_pc w) as [| |m|] eqn:Hw; [congruence| | |].
  - destruct (_ <=? _).
    + destruct (BruteForce_depth _ _ _ _) as [[m g']|]; [|discriminate].
      injection Hstep as <- <-. cbn. split; [|exact Hx].
      destruct (isCompleted sh); discriminate.
    + injection Hstep as <- <-. cbn. split; [discriminate | exact Hx].
  - unfold BruteForce_record in Hstep. destruct (decide _); [|discriminate].
    injection Hstep as <- <-. cbn. split; [discriminate|].
    destruct (dle _ _); [|exact Hx].
    rewrite list_lookup_total_insert_eq by exact Han.
    apply elem_of_app. left. exact Hx.
  - injection Hstep as <- <-. split; [congruence | exact Hx].
Qed.

(** In the running search: a worker at the loop head for a seed that
    matches in full, the flag unset, records the seed at its next step
    but one, and the pair stays, whatever the other threads do meanwhile
    and whatever any thread does afterwards. *)
Lemma system_appends_full_match threads mc lower upper depth sched0 s0 st id w
    sched1 sched2 :
  (forall v (g g' : G) d, outputs d (seed v g) = outputs d (seed v g')) ->
  observedOutputs <> [] ->
  SpawnThreads threads mc lower upper depth = Some s0 ->
  system_run observedOutputs sched0 s0 = Some st ->
  sys_workers st !! id = Some w ->
  w_pc w = AtLoopHead ->
  w_seedIndex w <= a_endingSeed (w_args w) ->
  isCompleted (sys_shared st) = false ->
  dle mc (DFin 100) = true ->
  observedOutputs `sublist_of` stream (w_seedIndex w) (Z.to_nat depth) ->
  WorkerThread id ∉ sched1 ->
  (forall id', WorkerThread id' ∈ sched1 ++ sched2 ->
     (id' < length (sys_workers st))%nat) ->
  exists st',
    system_run observedOutputs
      (WorkerThread id :: sched1 ++ WorkerThread id :: sched2) st = Some st' /\
    (w_seedIndex w, DFin 100) ∈ answers (sys_shared st') !!! id.
Proof.
  intros Hseed Hne Hspawn Hrun0 Hw Hpc Hend Hflag Hmc Hsub Hnot Hvalid.
  pose proof (system_reachable_args _ _ _ _ _ _ _ _ Hspawn Hrun0) as Hargs.
  assert (Hok : slots_ok (fun _ _ _ => True) st)
    by (eapply slots_ok_weaken; [|exact Hargs]; auto).
  destruct Hargs as (_ & _ & Hws). destruct (Hws id w Hw) as (Hid & Hmin & Hdepth).
  pose proof (lookup_lt_Some _ _ _ Hw) as Hlt.
  (* the step that reads the flag *)
  rewrite <- Hdepth in Hsub.
  destruct (BruteForce_step_full_match w (sys_shared st) Hseed Hne Hpc Hend Hflag Hsub)
    as [g1 HstepA].
  set (wA := {| w_args := w_args w; w_pc := AtRecord n_obs;
                w_seedIndex := w_seedIndex w; w_generator := g1 |}) in *.
  set (stA := {| sys_shared := sys_shared st;
                 sys_workers := <[id := wA]> (sys_workers st);
                 sys_reporter := sys_reporter st;
                 sys_totalWork := sys_totalWork st |}).
  assert (HsysA : system_step observedOutputs (WorkerThread id) st = Some stA).
  { cbn [system_step]. rewrite Hw, HstepA. reflexivity. }
  pose proof (system_step_slots _ _ _ _ slots_only_kept Hok HsysA) as HokA.
  assert (HlenA : length (sys_workers stA) = length (sys_workers st))
    by (cbn; apply length_insert).
  (* the other threads *)
  destruct (system_run_total sched1 stA Hne HokA) as [stB HrunB].
  { intros id' Hin. rewrite HlenA. apply Hvalid. apply elem_of_app. left. exact Hin. }
  destruct (system_run_other id sched1 stA stB Hnot HokA HrunB) as (HwB & _ & HokB).
  cbn [stA sys_workers] in HwB. rewrite list_lookup_insert_eq in HwB by exact Hlt.
  pose proof (system_run_workers_length _ _ _ HrunB) as HlenB.
  (* the step that records *)
  destruct HokB as (HlaB & HlsB & HwsB).
  pose proof (lookup_lt_Some _ _ _ HwB) as HltB.
  destruct (BruteForce_step_record_full wA (sys_shared stB) Hne eq_refl)
    as (wC & shC & HstepC & HargsC & HpcC & HansC);
    cbn [wA w_args]; rewrite ?Hid, ?Hmin; try lia; try exact Hmc.
  cbn [wA w_args w_seedIndex] in HansC. rewrite Hid in HansC.
  set (stC := {| sys_shared := shC;
                 sys_workers := <[id := wC]> (sys_workers stB);
                 sys_reporter := sys_reporter stB;
                 sys_totalWork := sys_totalWork stB |}).
  assert (HsysC : system_step observedOutputs (WorkerThread id) stB = Some stC).
  { cbn [system_step]. rewrite HwB, HstepC. reflexivity. }
  assert (HokB : slots_ok (fun _ _ _ => True) stB) by (split; [|split]; assumption).
  pose proof (system_step_slots _ _ _ _ slots_only_kept HokB HsysC) as HokC.
  assert (HlenC : length (sys_workers stC) = length (sys_workers st)).
  { cbn. rewrite length_insert. congruence. }
  assert (HkeepC : slots_ok
            (fun w l _ => a_id (w_args w) = id ->
                          w_pc w <> AtEntry /\ (w_seedIndex wA, DFin 100) ∈ l) stC).
  { destruct HokC as (HlaC & HlsC & HwsC). split; [exact HlaC|]. split; [exact HlsC|].
    intros j wj Hwj. destruct (HwsC j wj Hwj) as [Hidj _]. split; [exact Hidj|].
    intros Hj. assert (Hjid : j = id) by congruence.
    clear Hj Hidj. rewrite Hjid in *. clear Hjid.
    unfold stC in Hwj |- *. cbn [sys_workers sys_shared] in Hwj |- *.
    rewrite list_lookup_insert_eq in Hwj by exact HltB. injection Hwj as <-.
    split; [congruence|].
    match goal with
    | |- _ ∈ ?l =>
        replace l with (answers (sys_shared stB) !!! id ++ [(w_seedIndex w, DFin 100)])
          by (symmetry; exact HansC)
    end.
    apply elem_of_app. right. apply list_elem_of_here. }
  (* every later step *)
  destruct (system_run_total sched2 stC Hne HokC) as [st' HrunD].
  { intros id' Hin. rewrite HlenC. apply Hvalid. apply elem_of_app. right. exact Hin. }
  pose proof (system_run_slots _ _ _ _ (answer_kept _ id) HkeepC HrunD)
    as (_ & _ & Hws').
  pose proof (system_run_workers_length _ _ _ HrunD) as HlenD.
  destruct (lookup_lt_is_Some_2 (sys_workers st') id) as [w' Hw']; [lia|].
  destruct (Hws' id w' Hw') as [Hid' Hx]. destruct (Hx Hid') as [_ Hin].
  exists st'. split; [|exact Hin].
  cbn [system_run]. rewrite HsysA, system_run_app, HrunB.
  cbn [system_run]. rewrite HsysC. exact HrunD.
Qed.

(** Fewer outputs are a prefix of more. *)
Lemma outputs_sublist K : forall D (g : G),
  (K <= D)%nat -> outputs K g `sublist_of` outputs D g.
Proof.
  induction K as [|K IH]; intros D g HKD; cbn [outputs].
  - apply sublist_nil_l.
  - destruct D as [|D]; [lia|]. cbn [outputs].
    destruct (random g) as [x g1]. apply sublist_skip, IH. lia.
Qed.

(** C1, as amended.  For a generator whose outputs after seeding depend
    on the seed alone, with at least one observation.

    In the running search, whatever ran before: when a worker stands at
    the head of its seed loop on a seed s of its interval, the minimum
    confidence is at most 100, the observations occur in order among the
    first [depth] outputs of a generator seeded with s, and the flag is
    unset as the worker runs that turn and reads it, then, whatever the
    reporter and the other workers do before the worker's next step and
    whatever any thread does after it, the run does not fault and
    (s, 100.0) is in the worker's list at its end.

    The flag is unset at that read, in particular, for a worker that runs
    alone from an unset flag when no earlier seed of its interval is such
    a match: (s, 100.0) is in its list after 1 + 2 (s - start + 1) steps
    and at every later step.

    The first K outputs for s are such a subsequence at every depth
    D >= K. *)
Theorem BruteForce_appends_full_match :
  (forall v (g g' : G) d, outputs d (seed v g) = outputs d (seed v g')) ->
  observedOutputs <> [] ->
  (forall threads mc lower upper depth sched0 s0 st id w sched1 sched2,
     SpawnThreads threads mc lower upper depth = Some s0 ->
     system_run observedOutputs sched0 s0 = Some st ->
     sys_workers st !! id = Some w ->
     w_pc w = AtLoopHead ->
     w_seedIndex w <= a_endingSeed (w_args w) ->
     isCompleted (sys_shared st) = false ->
     dle mc (DFin 100) = true ->
     observedOutputs `sublist_of` stream (w_seedIndex w) (Z.to_nat depth) ->
     WorkerThread id ∉ sched1 ->
     (forall id', WorkerThread id' ∈ sched1 ++ sched2 ->
        (id' < length (sys_workers st))%nat) ->
     exists st',
       system_run observedOutputs
         (WorkerThread id :: sched1 ++ WorkerThread id :: sched2) st = Some st' /\
       (w_seedIndex w, DFin 100) ∈ answers (sys_shared st') !!! id) /\
  (forall (a : BruteForceArgs) (sh : Shared) (s : Z),
     (a_id a < length (status sh))%nat ->
     (a_id a < length (answers sh))%nat ->
     isCompleted sh = false ->
     0 <= a_startingSeed a <= s -> s <= a_endingSeed a -> a_endingSeed a < 2 ^ 32 ->
     dle (a_minimumConfidence a) (DFin 100) = true ->
     observedOutputs `sublist_of` stream s (Z.to_nat (a_depth a)) ->
     (forall s', a_startingSeed a <= s' < s ->
        ~ observedOutputs `sublist_of` stream s' (Z.to_nat (a_depth a))) ->
     forall k, (1 + 2 * Z.to_nat (s - a_startingSeed a + 1) <= k)%nat ->
     exists w' sh',
       BruteForce_run observedOutputs k (BruteForce_start a) sh = Some (w', sh')
       /\ (s, DFin 100) ∈ answers sh' !!! a_id a) /\
  (forall (s : Z) (K D : nat),
     (K <= D)%nat -> observedOutputs = stream s K ->
     observedOutputs `sublist_of` stream s D).
Proof.
  intros Hseed Hne. split; [|split].
  - intros threads mc lower upper depth sched0 s0 st id w sched1 sched2.
    apply system_appends_full_match; assumption.
  - intros a sh s. apply BruteForce_reports_first_full_match; assumption.
  - intros s K D HKD ->. apply outputs_sublist. exact HKD.
Qed.

(** *** Seeds without a match *)

Lemma percent_of_zero n q : percent_of 0 n = DFin q -> (q == 0)%Q.
Proof.
  unfold percent_of. destruct (n =? 0); [discriminate|].
  intros [= <-]. rewrite Qred_correct. unfold Qdiv.
  rewrite !Qmult_0_l. reflexivity.
Qed.

(** Zero matches never pass a positive minimum. *)
Lemma dle_percent_of_zero mc n :
  dlt (DFin 0) mc = true -> dle mc (percent_of 0 n) = false.
Proof.
  intros Hpos. destruct (percent_of 0 n) as [q| |] eqn:Hq.
  - apply percent_of_zero in Hq.
    destruct mc as [p| |]; simpl in *; try discriminate; [|reflexivity].
    apply negb_true_iff in Hpos.
    destruct (Qle_bool p q) eqn:Hpq; [|reflexivity].
    apply Qle_bool_iff in Hpq. rewrite Hq in Hpq.
    apply Qle_bool_iff in Hpq. congruence.
  - unfold percent_of in Hq. destruct (n =? 0); discriminate.
  - destruct mc; reflexivity.
Qed.

(** In the running search: the turn of a worker for a seed on which its
    depth loop finds no match leaves the worker's list as it was, when
    the minimum confidence is positive. *)
Lemma system_skips_zero_match threads mc lower upper depth sched0 s0 st id w g'
    sched1 st' :
  SpawnThreads threads mc lower upper depth = Some s0 ->
  system_run observedOutputs sched0 s0 = Some st ->
  dlt (DFin 0) mc = true ->
  sys_workers st !! id = Some w ->
  w_pc w = AtLoopHead ->
  BruteForce_depth observedOutputs (Z.to_nat depth)
    (seed (w_seedIndex w) (w_generator w)) 0 = Some (0%nat, g') ->
  WorkerThread id ∉ sched1 ->
  system_run observedOutputs (WorkerThread id :: sched1 ++ [WorkerThread id]) st
  = Some st' ->
  answers (sys_shared st') !!! id = answers (sys_shared st) !!! id.
Proof.
  intros Hspawn Hrun0 Hpos Hw Hpc Hzero Hnot Hrun.
  pose proof (system_reachable_args _ _ _ _ _ _ _ _ Hspawn Hrun0) as Hargs.
  assert (Hok : slots_ok (fun _ _ _ => True) st)
    by (eapply slots_ok_weaken; [|exact Hargs]; auto).
  destruct Hargs as (_ & _ & Hws). destruct (Hws id w Hw) as (Hid & Hmin & Hdepth).
  pose proof (lookup_lt_Some _ _ _ Hw) as Hlt.
  cbn [system_run] in Hrun.
  destruct (system_step observedOutputs (WorkerThread id) st) as [stA|] eqn:HsysA;
    [|discriminate].
  rewrite system_run_app in Hrun.
  destruct (system_run observedOutputs sched1 stA) as [stB|] eqn:HrunB; [|discriminate].
  cbn [system_run] in Hrun.
  destruct (system_step observedOutputs (WorkerThread id) stB) as [stC|] eqn:HsysC;
    [|discriminate].
  injection Hrun as <-.
  pose proof (system_step_slots _ _ _ _ slots_only_kept Hok HsysA) as HokA.
  destruct (system_run_other id sched1 stA stB Hnot HokA HrunB) as (HwB & HaB & HokB).
  (* the step that runs the depth loop *)
  cbn [system_step] in HsysA. rewrite Hw in HsysA.
  assert (HstepA : exists wA,
            stA = {| sys_shared := sys_shared st;
                     sys_workers := <[id := wA]> (sys_workers st);
                     sys_reporter := sys_reporter st;
                     sys_totalWork := sys_totalWork st |}
            /\ w_args wA = w_args w
            /\ (w_pc wA = Returned \/ w_pc wA = AtRecord 0)).
  { unfold BruteForce_step in HsysA. rewrite Hpc, Hdepth, Hzero in HsysA.
    destruct (_ <=? _).
    - injection HsysA as <-. eexists. split; [reflexivity|]. cbn.
      split; [reflexivity|]. destruct (isCompleted _); auto.
    - injection HsysA as <-. eexists. split; [reflexivity|]. cbn. auto. }
  destruct HstepA as (wA & -> & HargsA & HpcA).
  cbn [sys_workers sys_shared] in HwB, HaB.
  rewrite list_lookup_insert_eq in HwB by exact Hlt.
  (* the step that follows *)
  cbn [system_step] in HsysC. rewrite HwB in HsysC.
  assert (HansC : answers (sys_shared stC) = answers (sys_shared stB)).
  { unfold BruteForce_step in HsysC. destruct HpcA as [HpcA | HpcA]; rewrite HpcA in HsysC.
    - injection HsysC as <-. reflexivity.
    - unfold BruteForce_record in HsysC. destruct (decide _); [|discriminate].
      rewrite HargsA, Hmin, (dle_percent_of_zero _ _ Hpos) in HsysC.
      injection HsysC as <-. reflexivity. }
  rewrite HansC. apply lookup_total_same. exact HaB.
Qed.

(** C8, as amended.  At every point of every execution of the seed
    search, whatever the interleaving:
    - each recorded pair carries a finite confidence between 0 and 100
      that is at least the minimum confidence the workers were given, and
      is strictly positive as soon as that minimum is;
    - when the minimum is positive, the turn of a worker for a seed on
      which its depth loop finds no match appends nothing to the worker's
      list, whatever the other threads do between its two steps;
    - when the minimum is positive and the generator's outputs after
      seeding depend on the seed alone, every recorded seed has at least
      one match at the search depth. *)
Theorem FindSeed_recorded_confidence threads mc lower upper depth sched0 s0 st :
  SpawnThreads threads mc lower upper depth = Some s0 ->
  system_run observedOutputs sched0 s0 = Some st ->
  (forall sd : Seed, sd ∈ FindSeed_report (sys_shared st) ->
     exists q, sd.2 = DFin q /\ (0 <= q <= 100)%Q /\ dle mc (DFin q) = true
               /\ (dlt (DFin 0) mc = true -> (0 < q)%Q)) /\
  (dlt (DFin 0) mc = true ->
   (forall id w g' sched1 st',
      sys_workers st !! id = Some w ->
      w_pc w = AtLoopHead ->
      BruteForce_depth observedOutputs (Z.to_nat depth)
        (seed (w_seedIndex w) (w_generator w)) 0 = Some (0%nat, g') ->
      WorkerThread id ∉ sched1 ->
      system_run observedOutputs (WorkerThread id :: sched1 ++ [WorkerThread id]) st
      = Some st' ->
      answers (sys_shared st') !!! id = answers (sys_shared st) !!! id) /\
   ((forall v (g g' : G) d, outputs d (seed v g) = outputs d (seed v g')) ->
    forall sd : Seed, sd ∈ FindSeed_report (sys_shared st) ->
      exists m g',
        BruteForce_depth observedOutputs (Z.to_nat depth) (seed sd.1 getInstance) 0
        = Some (m, g')
        /\ (0 < m)%nat)).
Proof.
  intros Hspawn Hrun. split; [|intros Hpos; split].
  - intros sd Hsd. eapply FindSeed_confidence_range; eassumption.
  - intros id w g' sched1 st' Hw Hpc Hzero Hnot Hrun'.
    eapply system_skips_zero_match; eassumption.
  - intros Hseed sd Hsd.
    destruct (FindSeed_report_counts _ _ _ _ _ _ _ _ _ Hseed Hspawn Hrun Hsd)
      as (m & g' & Hdepth & Hc).
    exists m, g'. split; [exact Hdepth|].
    destruct (FindSeed_confidence_range observedOutputs _ _ _ _ _ _ _ _ _ Hspawn Hrun Hsd)
      as (q & Hq & _ & _ & Hlt).
    destruct m as [|m]; [|lia]. exfalso.
    rewrite Hc in Hq. apply percent_of_zero in Hq.
    specialize (Hlt Hpos). rewrite Hq in Hlt. apply (Qlt_irrefl 0). exact Hlt.
Qed.

End SearchFacts.

(** ** More on state inference *)

Section InferenceFacts.
Context {G : Type} `{!PRNG G}.
Variable observedOutputs : list Z.

Local Abbreviation n_obs := (length observedOutputs).

Lemma InferState_forward_bound todo preds : forall m ip io,
  (InferState_forward observedOutputs todo preds m ip io <= m + (n_obs - io))%nat.
Proof.
  induction todo as [|todo IH]; intros m ip io; cbn [InferState_forward]; [lia|].
  destruct (observedOutputs !! io) as [o|] eqn:Ho; [|lia].
  apply lookup_lt_Some in Ho.
  destruct (preds !! ip) as [p|]; [|lia].
  destruct (o =? p).
  - etransitivity; [apply IH|]. lia.
  - etransitivity; [apply IH|]. lia.
Qed.

Lemma InferState_backward_bound todo preds : forall m ip io,
  (InferState_backward observedOutputs todo preds m ip io <= m + io)%nat.
Proof.
  induction todo as [|todo IH]; intros m ip io; cbn [InferState_backward]; [lia|].
  destruct (Nat.ltb_spec 0 io) as [Hpos|_]; [|lia].
  destruct (observedOutputs !! io) as [o|]; [|lia].
  destruct (preds !! ip) as [p|]; [|lia].
  destruct (o =? p).
  - etransitivity; [apply IH|]. lia.
  - etransitivity; [apply IH|]. lia.
Qed.

Lemma InferState_window_bound k i (g : G) :
  (i + k <= n_obs)%nat ->
  ((InferState_window observedOutputs k i g).1 <= n_obs - k)%nat.
Proof.
  intros Hik. unfold InferState_window.
  destruct (predictForward _ _) as [pf g4].
  destruct (predictBackward _ _) as [pb g5]. cbn [fst].
  etransitivity; [apply InferState_backward_bound|].
  pose proof (InferState_forward_bound (length pf) pf 0 0 (i + k)). lia.
Qed.

Lemma quotient_of_bounds a b q :
  0 <= a <= 100 * b -> 0 < b -> quotient_of a b = DFin q -> (0 <= q <= 100)%Q.
Proof.
  intros Ha Hb. unfold quotient_of.
  destruct (Z.eqb_spec b 0) as [->|_]; [lia|].
  intros [= <-]. rewrite Qred_correct.
  assert (Hpos : (0 < inject_Z b)%Q).
  { change 0%Q with (inject_Z 0). rewrite <- Zlt_Qlt. lia. }
  split.
  - apply Qle_shift_div_l; [exact Hpos|]. rewrite Qmult_0_l.
    change 0%Q with (inject_Z 0). rewrite <- Zle_Qle. lia.
  - apply Qle_shift_div_r; [exact Hpos|].
    change (100%Q) with (inject_Z 100). rewrite <- inject_Z_mult, <- Zle_Qle. lia.
Qed.

Lemma InferState_loop_scores todo : forall k i (g : G) hs sc bs,
  (i + todo + k <= n_obs)%nat -> (k < n_obs)%nat ->
  Forall score_ok sc ->
  Forall score_ok (ir_scores (InferState_loop observedOutputs todo k i g hs sc bs)).
Proof.
  induction todo as [|todo IH]; intros k i g hs sc bs Hi Hk Hsc;
    cbn [InferState_loop]; [exact Hsc|].
  pose proof (InferState_window_bound k i g ltac:(lia)) as Hm.
  destruct (InferState_window observedOutputs k i g) as [m g1]. cbn [fst] in Hm.
  destruct (_ =? _)%nat; [exact Hsc|].
  apply IH; [lia | exact Hk |].
  apply Forall_app. split; [exact Hsc|]. apply Forall_singleton.
  assert (Hwrap : 0 <= wrap32 (Z.of_nat m * 100) <= Z.of_nat m * 100).
  { unfold wrap32. split; [apply Z.mod_pos_bound; lia|].
    apply Z.mod_le; lia. }
  destruct (quotient_of _ _) as [q| |] eqn:Hq.
  - exists q. split; [reflexivity|].
    eapply quotient_of_bounds; [| |exact Hq]; lia.
  - unfold quotient_of in Hq.
    destruct (Z.eqb_spec (Z.of_nat (n_obs - k)) 0); [lia | discriminate].
  - unfold quotient_of in Hq.
    destruct (Z.eqb_spec (Z.of_nat (n_obs - k)) 0); [lia | discriminate].
Qed.

(** X13.  Whatever the generator predicts, the match count of a window
    that fits in the observations is at most n - k, and every score
    InferState records is a finite percentage between 0 and 100. *)
Theorem InferState_scores_bounded :
  (forall i (g : G),
     (i + getStateSize getInstance <= n_obs)%nat ->
     ((InferState_window observedOutputs (getStateSize getInstance) i g).1
      <= n_obs - getStateSize getInstance)%nat) /\
  (forall sc, sc ∈ ir_scores (InferState observedOutputs) ->
     exists q, sc = DFin q /\ (0 <= q <= 100)%Q).
Proof.
  split.
  - intros i g Hi. apply InferState_window_bound. exact Hi.
  - intros sc Hsc. unfold InferState in Hsc.
    destruct (Nat.leb_spec n_obs (getStateSize getInstance)) as [Hle|Hlt].
    + cbn in Hsc. apply elem_of_nil in Hsc. contradiction.
    + pose proof (InferState_loop_scores (n_obs - getStateSize getInstance)
                    (getStateSize getInstance) 0 getInstance (DFin 0) [] []
                    ltac:(lia) Hlt ltac:(constructor)) as Hall.
      rewrite Forall_forall in Hall. exact (Hall sc Hsc).
Qed.

Lemma InferState_loop_miss k todo : forall i hs sc bs,
  (forall j, (i <= j < i + todo)%nat ->
     InferState_matches_at observedOutputs k j <> (n_obs - k)%nat) ->
  ir_return (InferState_loop observedOutputs todo k i
               (InferState_generator_at observedOutputs k i) hs sc bs) = false /\
  ir_windows (InferState_loop observedOutputs todo k i
                (InferState_generator_at observedOutputs k i) hs sc bs)
  = (i + todo)%nat /\
  length (ir_scores (InferState_loop observedOutputs todo k i
                       (InferState_generator_at observedOutputs k i) hs sc bs))
  = (length sc + todo)%nat.
Proof.
  induction todo as [|todo IH]; intros i hs sc bs Hmiss; cbn [InferState_loop].
  - cbn. repeat split; lia.
  - pose proof (Hmiss i ltac:(lia)) as Hi. unfold InferState_matches_at in Hi.
    pose proof (IH (S i)) as IHS. cbn [InferState_generator_at] in IHS.
    destruct (InferState_window observedOutputs k i
                (InferState_generator_at observedOutputs k i)) as [m g1] eqn:Hwin.
    cbn [fst snd] in Hi, IHS. apply Nat.eqb_neq in Hi. rewrite Hi.
    match goal with
    | |- context [InferState_loop _ _ _ _ _ ?h ?s ?b] =>
        destruct (IHS h s b) as (Hr & Hw & Hl)
    end.
    + intros j Hj. apply Hmiss. lia.
    + rewrite Hr, Hw, Hl, length_app. cbn [length]. repeat split; lia.
Qed.

(** X14.  With more observations than state words, if no window reaches
    a match count of n - k, InferState goes through all n - k windows,
    records one score for each and returns false, and main goes on to call
    FindSeed. *)
Theorem InferState_no_perfect_window :
  (getStateSize getInstance < n_obs)%nat ->
  (forall j, (j < n_obs - getStateSize getInstance)%nat ->
     InferState_matches_at observedOutputs (getStateSize getInstance) j
     <> (n_obs - getStateSize getInstance)%nat) ->
  ir_return (InferState observedOutputs) = false /\
  ir_windows (InferState observedOutputs) = (n_obs - getStateSize getInstance)%nat /\
  length (ir_scores (InferState observedOutputs))
  = (n_obs - getStateSize getInstance)%nat /\
  m_find_seed (main_tail observedOutputs) = true.
Proof.
  intros Hk Hmiss.
  assert (Hrun : InferState observedOutputs
    = InferState_loop observedOutputs (n_obs - getStateSize getInstance)
        (getStateSize getInstance) 0
        (InferState_generator_at observedOutputs (getStateSize getInstance) 0)
        (DFin 0) [] []).
  { unfold InferState. destruct (Nat.leb_spec n_obs (getStateSize getInstance)); [lia|].
    reflexivity. }
  destruct (InferState_loop_miss (getStateSize getInstance)
              (n_obs - getStateSize getInstance) 0 (DFin 0) [] [])
    as (Hr & Hw & Hl).
  { intros j Hj. apply Hmiss. lia. }
  rewrite <- Hrun in Hr, Hw, Hl. cbn [length] in Hl.
  repeat split; try assumption; try lia.
  unfold main_tail. destruct observedOutputs; [simpl in Hk; lia|].
  rewrite Hr. reflexivity.
Qed.

(** A generator that predicts nothing never yields a perfect window. *)
Lemma InferState_blind :
  (forall n (g : G), (predictForward n g).1 = []) ->
  (forall n (g : G), (predictBackward n g).1 = []) ->
  ir_return (InferState observedOutputs) = false.
Proof.
  intros Hf Hb. unfold InferState.
  destruct (Nat.leb_spec n_obs (getStateSize getInstance)) as [Hle|Hlt];
    [reflexivity|].
  assert (Hzero : forall i (g : G),
            (InferState_window observedOutputs (getStateSize getInstance) i g).1
            = 0%nat).
  { intros i g. unfold InferState_window.
    match goal with
    | |- context [predictForward ?n ?g0] =>
        pose proof (Hf n g0) as Hpf; destruct (predictForward n g0) as [pf g4]
    end.
    match goal with
    | |- context [predictBackward ?n ?g0] =>
        pose proof (Hb n g0) as Hpb; destruct (predictBackward n g0) as [pb g5]
    end.
    cbn [fst] in Hpf, Hpb |- *. subst pf pb. reflexivity. }
  assert (Hloop : forall todo i (g : G) hs sc bs,
            ir_return (InferState_loop observedOutputs todo
                         (getStateSize getInstance) i g hs sc bs) = false).
  { induction todo as [|todo IH]; intros i g hs sc bs; cbn [InferState_loop];
      [reflexivity|].
    pose proof (Hzero i g) as Hz.
    destruct (InferState_window _ _ _ _) as [m g1]. cbn [fst] in Hz. subst m.
    destruct (Nat.eqb_spec 0 (n_obs - getStateSize getInstance)); [lia|].
    apply IH. }
  apply Hloop.
Qed.

End InferenceFacts.

(** ** More on GlibcRand *)

(** X15.  With GlibcRand as the generator, whatever the C library and the
    base-class methods do, InferState returns false for every observation
    sequence, and main, given any observation, goes on to call FindSeed:
    predictForward and predictBackward return nothing to match. *)
Theorem GlibcRand_inference_never_succeeds
    (GLIBC_RAND_STATE_SIZE : nat) (libc : Type)
    (srand : Z -> libc -> libc) (rand : libc -> Z * libc) (libc_start : libc)
    (base_setEvidence : list Z -> GlibcRand.t * libc -> GlibcRand.t * libc)
    (base_tune : list Z -> list Z -> GlibcRand.t * libc -> GlibcRand.t * libc)
    (base_reverseToSeed :
       Z -> GlibcRand.t * libc -> option Z * (GlibcRand.t * libc))
    (o : Z) (observedOutputs : list Z) :
  let P := GlibcRand.prng GLIBC_RAND_STATE_SIZE libc srand rand libc_start
             base_setEvidence base_tune base_reverseToSeed in
  ir_return (@InferState _ P observedOutputs) = false /\
  m_find_seed (@main_tail _ P (o :: observedOutputs)) = true.
Proof.
  intros P.
  assert (Hblind : forall obs, ir_return (@InferState _ P obs) = false).
  { intros obs. apply InferState_blind; intros n g; reflexivity. }
  split; [apply Hblind|].
  unfold main_tail. rewrite Hblind. reflexivity.
Qed.

(** X16.  On a GlibcRand whose state was installed by setState, reading
    the state and installing it again changes nothing; on a fresh one,
    whose state is empty, it installs GLIBC_RAND_STATE_SIZE zeros. *)
Theorem GlibcRand_state_round_trip (GLIBC_RAND_STATE_SIZE : nat) (w : list Z)
    (g : GlibcRand.t) :
  GlibcRand.setState GLIBC_RAND_STATE_SIZE
    (GlibcRand.getState (GlibcRand.setState GLIBC_RAND_STATE_SIZE w g))
    (GlibcRand.setState GLIBC_RAND_STATE_SIZE w g)
  = GlibcRand.setState GLIBC_RAND_STATE_SIZE w g /\
  GlibcRand.getState GlibcRand.create = [] /\
  GlibcRand.getState
    (GlibcRand.setState GLIBC_RAND_STATE_SIZE
       (GlibcRand.getState GlibcRand.create) GlibcRand.create)
  = replicate GLIBC_RAND_STATE_SIZE 0.
Proof.
  unfold GlibcRand.setState, GlibcRand.getState, GlibcRand.create.
  cbn [GlibcRand.m_state GlibcRand.seedValue].
  split; [|split].
  - f_equal. apply resize_all_alt. symmetry. apply length_resize.
  - reflexivity.
  - apply resize_nil.
Qed.

(** ** The amended claims on concrete inputs *)

(** C1.  One worker over 0..10 at depth 1 observing [1], the first output
    for seed 0, with the reporter inside its loop body: the worker reads
    the flag unset, the reporter stores into the flag, the worker records
    (0, 100.0), the reporter leaves.  Then a worker alone over 0..5 at
    depth 3 observing [4; 6]: seed 3 is the first whose outputs 4, 5, 6
    contain the observations. *)
Lemma BruteForce_appends_full_match_witness :
  (exists st',
     system_run [1] [WorkerThread 0; ReporterThread; WorkerThread 0; ReporterThread]
       {| sys_shared := {| isCompleted := false; status := [0]; answers := [[]] |};
          sys_workers :=
            [{| w_args := {| a_id := 0; a_minimumConfidence := DFin 100;
                             a_startingSeed := 0; a_endingSeed := 10;
                             a_depth := 1 |};
                w_pc := AtLoopHead; w_seedIndex := 0; w_generator := 0 |}];
          sys_reporter := InBody; sys_totalWork := 10 |}
     = Some st' /\
     (0, DFin 100) ∈ answers (sys_shared st') !!! 0%nat) /\
  (exists w' sh',
     BruteForce_run [4; 6] 9
       (BruteForce_start {| a_id := 0; a_minimumConfidence := DFin 100;
                            a_startingSeed := 0; a_endingSeed := 5; a_depth := 3 |})
       {| isCompleted := false; status := [0]; answers := [[]] |}
     = Some (w', sh')
     /\ (3, DFin 100) ∈ answers sh' !!! 0%nat).
Proof.
  destruct (BruteForce_appends_full_match (G := Z) [1]) as (Hengine & _ & _).
  { intros v g g' d. reflexivity. }
  { discriminate. }
  destruct (BruteForce_appends_full_match (G := Z) [4; 6]) as (_ & Halone & _).
  { intros v g g' d. reflexivity. }
  { discriminate. }
  split.
  - refine (Hengine 1 (DFin 100) 0 10 1 [WorkerThread 0; ReporterThread]
              {| sys_shared := {| isCompleted := false; status := [0];
                                  answers := [[]] |};
                 sys_workers :=
                   [BruteForce_start {| a_id := 0; a_minimumConfidence := DFin 100;
                                        a_startingSeed := 0; a_endingSeed := 10;
                                        a_depth := 1 |}];
                 sys_reporter := AtWhile; sys_totalWork := 10 |}
              {| sys_shared := {| isCompleted := false; status := [0];
                                  answers := [[]] |};
                 sys_workers :=
                   [{| w_args := {| a_id := 0; a_minimumConfidence := DFin 100;
                                    a_startingSeed := 0; a_endingSeed := 10;
                                    a_depth := 1 |};
                       w_pc := AtLoopHead; w_seedIndex := 0; w_generator := 0 |}];
                 sys_reporter := InBody; sys_totalWork := 10 |}
              0%nat
              {| w_args := {| a_id := 0; a_minimumConfidence := DFin 100;
                              a_startingSeed := 0; a_endingSeed := 10;
                              a_depth := 1 |};
                 w_pc := AtLoopHead; w_seedIndex := 0; w_generator := 0 |}
              [ReporterThread] [ReporterThread] _ _ _ _ _ _ _ _ _ _).
    + vm_compute. reflexivity.
    + vm_compute. reflexivity.
    + reflexivity.
    + reflexivity.
    + simpl. lia.
    + reflexivity.
    + reflexivity.
    + vm_compute. apply sublist_skip, sublist_nil.
    + intros Hin. apply list_elem_of_singleton in Hin. discriminate Hin.
    + intros id' Hin. simpl in Hin.
      apply elem_of_cons in Hin as [Hin | Hin]; [discriminate Hin|].
      apply list_elem_of_singleton in Hin. discriminate Hin.
  - apply (Halone {| a_id := 0; a_minimumConfidence := DFin 100;
                     a_startingSeed := 0; a_endingSeed := 5; a_depth := 3 |}
                  {| isCompleted := false; status := [0]; answers := [[]] |} 3).
    + simpl. lia.
    + simpl. lia.
    + reflexivity.
    + simpl. lia.
    + simpl. lia.
    + simpl. lia.
    + reflexivity.
    + vm_compute. apply sublist_skip, sublist_cons, sublist_skip, sublist_nil.
    + intros s' Hs' Hsub. simpl in Hs'.
      assert (Hcases : s' = 0 \/ s' = 1 \/ s' = 2) by lia.
      destruct Hcases as [-> | [-> | ->]].
      * apply (BruteForce_depth_stream [4; 6] 0 3 0%nat 3) in Hsub;
          [discriminate | discriminate | reflexivity].
      * apply (BruteForce_depth_stream [4; 6] 1 3 1%nat 4) in Hsub;
          [discriminate | discriminate | reflexivity].
      * apply (BruteForce_depth_stream [4; 6] 2 3 1%nat 5) in Hsub;
          [discriminate | discriminate | reflexivity].
    + simpl. lia.
Defined.

(** C8.  One worker over 0..10 at depth 1 and minimum confidence 50,
    observing [2]: seed 0 yields 1 and is passed without a record, seed 1
    yields 2 and is recorded at 100. *)
Lemma FindSeed_recorded_confidence_witness :
  (exists q, (1, DFin 100).2 = DFin q /\ (0 <= q <= 100)%Q
             /\ dle (DFin 50) (DFin q) = true
             /\ (dlt (DFin 0) (DFin 50) = true -> (0 < q)%Q)) /\
  (forall st',
     system_run [2] [WorkerThread 0; ReporterThread; WorkerThread 0]
       {| sys_shared := {| isCompleted := false; status := [0]; answers := [[]] |};
          sys_workers :=
            [{| w_args := {| a_id := 0; a_minimumConfidence := DFin 50;
                             a_startingSeed := 0; a_endingSeed := 10;
                             a_depth := 1 |};
                w_pc := AtLoopHead; w_seedIndex := 0; w_generator := 0 |}];
          sys_reporter := AtWhile; sys_totalWork := 10 |}
     = Some st' ->
     answers (sys_shared st') !!! 0%nat = []) /\
  (exists m g',
     BruteForce_depth [2] 1 (seed 1 getInstance) 0 = Some (m, g')
     /\ (0 < m)%nat).
Proof.
  pose (a := {| a_id := 0; a_minimumConfidence := DFin 50;
                a_startingSeed := 0; a_endingSeed := 10; a_depth := 1 |}).
  pose (s0 := {| sys_shared := {| isCompleted := false; status := [0];
                                  answers := [[]] |};
                 sys_workers := [BruteForce_start (G := Z) a];
                 sys_reporter := AtWhile; sys_totalWork := 10 |}).
  pose (w := {| w_args := a; w_pc := AtLoopHead; w_seedIndex := 0;
                w_generator := 0 |}).
  destruct (FindSeed_recorded_confidence (G := Z) [2] 1 (DFin 50) 0 10 1
              [WorkerThread 0] s0
              {| sys_shared := {| isCompleted := false; status := [0];
                                  answers := [[]] |};
                 sys_workers := [w];
                 sys_reporter := AtWhile; sys_totalWork := 10 |})
    as [_ Hskip].
  { vm_compute. reflexivity. }
  { vm_compute. reflexivity. }
  destruct (FindSeed_recorded_confidence (G := Z) [2] 1 (DFin 50) 0 10 1
              [WorkerThread 0; WorkerThread 0; WorkerThread 0; WorkerThread 0;
               WorkerThread 0] s0
              {| sys_shared := {| isCompleted := true; status := [1];
                                  answers := [[(1, DFin 100)]] |};
                 sys_workers :=
                   [{| w_args := a; w_pc := AtLoopHead; w_seedIndex := 2;
                       w_generator := 2 |}];
                 sys_reporter := AtWhile; sys_totalWork := 10 |})
    as [Hrange Hcount].
  { vm_compute. reflexivity. }
  { vm_compute. reflexivity. }
  split; [|split].
  - apply (Hrange (1, DFin 100)). apply list_elem_of_here.
  - intros st' Hrun.
    refine (proj1 (Hskip eq_refl) 0%nat w 1 [ReporterThread] st' _ _ _ _ Hrun).
    + reflexivity.
    + reflexivity.
    + reflexivity.
    + intros Hin. apply list_elem_of_singleton in Hin. discriminate Hin.
  - destruct (proj2 (Hcount eq_refl) (fun v g g' d => eq_refl) (1, DFin 100))
      as (m & g' & Hdepth & Hm); [apply list_elem_of_here|].
    exists m, g'. split; [exact Hdepth | exact Hm].
Defined.

(** ** The added facts on concrete inputs *)

(** Seed 3 at depth 3 against [4; 6; 9]: the first two observations are
    found, the third is not. *)
Lemma BruteForce_depth_longest_prefix_witness :
  (take 2 [4; 6; 9] `sublist_of` outputs 3 (seed 3 getInstance) <-> (2 <= 2)%nat) /\
  (take 3 [4; 6; 9] `sublist_of` outputs 3 (seed 3 getInstance) <-> (3 <= 2)%nat).
Proof.
  split.
  - apply (BruteForce_depth_longest_prefix [4; 6; 9] 3 (seed 3 getInstance) 2 6 2).
    + discriminate.
    + reflexivity.
    + simpl. lia.
  - apply (BruteForce_depth_longest_prefix [4; 6; 9] 3 (seed 3 getInstance) 2 6 3).
    + discriminate.
    + reflexivity.
    + simpl. lia.
Defined.

(** Three values generated from seed 5, searched at depth 7. *)
Lemma GenerateSample_replayed_witness :
  length (GenerateSample 5 3) = 3%nat /\
  BruteForce_depth (GenerateSample 5 3) 7 (seed 5 getInstance) 0
  = Some (3%nat, advance 3 (seed 5 getInstance)).
Proof.
  apply (GenerateSample_replayed (G := Z) 5 3 7). lia.
Defined.

(** Two workers over 0..10. *)
Lemma SpawnThreads_covers_witness :
  exists args,
    SpawnThreads_args 2 (DFin 100) 0 10 1 = Some args /\
    length args = 2%nat /\
    (forall a, a ∈ args ->
       0 <= a_startingSeed a <= a_endingSeed a /\ a_endingSeed a <= 10) /\
    (forall s, 0 <= s <= 10 ->
       exists a, a ∈ args /\ a_startingSeed a <= s <= a_endingSeed a).
Proof.
  apply (SpawnThreads_covers 2 (DFin 100) 0 10 1); lia.
Defined.

(** One worker over 0..10 that has recorded seed 0. *)
Lemma FindSeed_seeds_in_bounds_witness :
  exists s0 s,
    SpawnThreads 1 (DFin 100) 0 10 1 = Some s0 /\
    system_run [1] [WorkerThread 0; WorkerThread 0; WorkerThread 0] s0 = Some s /\
    (forall sd : Seed, sd ∈ FindSeed_report (sys_shared s) -> 0 <= sd.1 <= 10) /\
    (forall l, l ∈ answers (sys_shared s) ->
       StronglySorted (fun x y : Seed => x.1 < y.1) l).
Proof.
  eexists _, _.
  split; [vm_compute; reflexivity|].
  split; [vm_compute; reflexivity|].
  eapply (FindSeed_seeds_in_bounds (G := Z) [1] 1 (DFin 100) 0 10 1
            [WorkerThread 0; WorkerThread 0; WorkerThread 0]).
  - lia.
  - lia.
  - lia.
  - vm_compute. reflexivity.
  - vm_compute. reflexivity.
Defined.

Lemma status_bounded_and_monotone_witness :
  exists s0 s s',
    SpawnThreads 1 (DFin 100) 0 10 1 = Some s0 /\
    system_run [9] [WorkerThread 0; WorkerThread 0; WorkerThread 0] s0 = Some s /\
    system_step [9] (WorkerThread 0) s = Some s' /\
    forall id w, sys_workers s !! id = Some w ->
      0 <= status (sys_shared s) !!! id
        <= a_endingSeed (w_args w) - a_startingSeed (w_args w) /\
      status (sys_shared s) !!! id <= status (sys_shared s') !!! id.
Proof.
  eexists _, _, _.
  split; [vm_compute; reflexivity|].
  split; [vm_compute; reflexivity|].
  split; [vm_compute; reflexivity|].
  eapply (status_bounded_and_monotone (G := Z) [9] 1 (DFin 100) 0 10 1
            [WorkerThread 0; WorkerThread 0; WorkerThread 0]
            _ _ (WorkerThread 0)).
  - lia.
  - lia.
  - lia.
  - vm_compute. reflexivity.
  - vm_compute. reflexivity.
  - vm_compute. reflexivity.
Defined.

(** One worker over 0..10 at depth 1 that has recorded seed 0, whose first
    output is the observation. *)
Lemma FindSeed_no_false_positive_witness :
  [1] `sublist_of` stream 0 1.
Proof.
  refine (FindSeed_no_false_positive (G := Z) [1] 1 (DFin 100) 0 10 1
           [WorkerThread 0; WorkerThread 0; WorkerThread 0]
           {| sys_shared := {| isCompleted := false; status := [0]; answers := [[]] |};
              sys_workers :=
                [BruteForce_start {| a_id := 0; a_minimumConfidence := DFin 100;
                                     a_startingSeed := 0; a_endingSeed := 10;
                                     a_depth := 1 |}];
              sys_reporter := AtWhile; sys_totalWork := 10 |}
           {| sys_shared := {| isCompleted := true; status := [0];
                               answers := [[(0, DFin 100)]] |};
              sys_workers :=
                [{| w_args := {| a_id := 0; a_minimumConfidence := DFin 100;
                                 a_startingSeed := 0; a_endingSeed := 10;
                                 a_depth := 1 |};
                    w_pc := AtLoopHead; w_seedIndex := 1; w_generator := 1 |}];
              sys_reporter := AtWhile; sys_totalWork := 10 |}
           _ _ _ (0, DFin 100) _ _).
  - intros v g g' d. reflexivity.
  - vm_compute. reflexivity.
  - vm_compute. reflexivity.
  - apply list_elem_of_here.
  - reflexivity.
Defined.

Lemma seed_search_no_fault_witness :
  exists s0 s,
    SpawnThreads 2 (DFin 100) 0 10 1 = Some s0 /\
    length (sys_workers s0) = 2%nat /\
    system_run [7] [WorkerThread 1; ReporterThread; WorkerThread 0] s0 = Some s.
Proof.
  apply (seed_search_no_fault (G := Z) [7] 2 (DFin 100) 0 10 1
           [WorkerThread 1; ReporterThread; WorkerThread 0]).
  - discriminate.
  - lia.
  - intros id Hid.
    apply elem_of_cons in Hid as [Hid|Hid]; [injection Hid as ->; simpl; lia|].
    apply elem_of_cons in Hid as [Hid|Hid]; [discriminate Hid|].
    apply elem_of_cons in Hid as [Hid|Hid]; [injection Hid as ->; simpl; lia|].
    apply elem_of_nil in Hid. contradiction.
Defined.

(** A worker has set the flag before the reporter's first test. *)
Lemma flag_latched_outside_reporter_body_witness :
  exists s',
    system_run [1] [ReporterThread; WorkerThread 0; ReporterThread]
      {| sys_shared := {| isCompleted := true; status := [0];
                          answers := [[(0, DFin 100)]] |};
         sys_workers :=
           [{| w_args := {| a_id := 0; a_minimumConfidence := DFin 100;
                            a_startingSeed := 0; a_endingSeed := 10;
                            a_depth := 1 |};
               w_pc := AtLoopHead; w_seedIndex := 1; w_generator := 1 |}];
         sys_reporter := AtWhile; sys_totalWork := 10 |}
    = Some s' /\
    isCompleted (sys_shared s') = true /\ sys_reporter s' <> InBody.
Proof.
  destruct (system_run [1] [ReporterThread; WorkerThread 0; ReporterThread]
              {| sys_shared := {| isCompleted := true; status := [0];
                                  answers := [[(0, DFin 100)]] |};
                 sys_workers :=
                   [{| w_args := {| a_id := 0; a_minimumConfidence := DFin 100;
                                    a_startingSeed := 0; a_endingSeed := 10;
                                    a_depth := 1 |};
                       w_pc := AtLoopHead; w_seedIndex := 1; w_generator := 1 |}];
                 sys_reporter := AtWhile; sys_totalWork := 10 |})
    as [s'|] eqn:Hrun; [|vm_compute in Hrun; discriminate Hrun].
  exists s'. split; [reflexivity|].
  apply (flag_latched_outside_reporter_body (G := Z) [1] _ _ _ Hrun).
  - reflexivity.
  - discriminate.
Defined.

(** A worker over 0..UINT_MAX that found seed 0 and returned at seed 1. *)
Lemma BruteForce_unbounded_interval_witness :
  exists w' sh',
    BruteForce_run [1] 4
      (BruteForce_start {| a_id := 0; a_minimumConfidence := DFin 100;
                           a_startingSeed := 0; a_endingSeed := 4294967295;
                           a_depth := 1 |})
      {| isCompleted := false; status := [0]; answers := [[]] |}
    = Some (w', sh')
    /\ w_pc w' = Returned /\ isCompleted sh' = true.
Proof.
  eexists _, _.
  split; [vm_compute; reflexivity|]. split; [reflexivity|].
  eapply (BruteForce_unbounded_interval (G := Z) [1]
            {| a_id := 0; a_minimumConfidence := DFin 100;
               a_startingSeed := 0; a_endingSeed := 4294967295; a_depth := 1 |}
            {| isCompleted := false; status := [0]; answers := [[]] |} 4).
  - reflexivity.
  - simpl. lia.
  - vm_compute. reflexivity.
  - reflexivity.
Defined.

Lemma BruteForce_returns_witness :
  exists k w' sh',
    (k <= 2 * Z.to_nat (5 - 0 + 1) + 2)%nat /\
    BruteForce_run [4; 6] k
      (BruteForce_start {| a_id := 0; a_minimumConfidence := DFin 100;
                           a_startingSeed := 0; a_endingSeed := 5; a_depth := 3 |})
      {| isCompleted := false; status := [0]; answers := [[]] |}
    = Some (w', sh')
    /\ w_pc w' = Returned.
Proof.
  apply (BruteForce_returns (G := Z) [4; 6]
           {| a_id := 0; a_minimumConfidence := DFin 100;
              a_startingSeed := 0; a_endingSeed := 5; a_depth := 3 |}
           {| isCompleted := false; status := [0]; answers := [[]] |}).
  - discriminate.
  - simpl. lia.
  - simpl. lia.
  - simpl. lia.
  - simpl. lia.
Defined.

(** Ten seeds of work with the counters at 5 and 5, then at 5 and 4; no
    work and no progress. *)
Lemma StatusThread_completion_threshold_witness :
  isCompleted (StatusThread_step 10 InBody
                 {| isCompleted := false; status := [5; 5]; answers := [[]; []] |}).2
  = true /\
  ~ isCompleted (StatusThread_step 10 InBody
                   {| isCompleted := true; status := [5; 4]; answers := [[]; []] |}).2
    = true /\
  ~ isCompleted (StatusThread_step 0 InBody
                   {| isCompleted := false; status := [0]; answers := [[]] |}).2
    = true.
Proof.
  split; [|split].
  - apply (proj1 (StatusThread_completion_threshold 10
                    {| isCompleted := false; status := [5; 5];
                       answers := [[]; []] |})).
    + lia.
    + vm_compute. discriminate.
  - intros Hset.
    apply (proj1 (StatusThread_completion_threshold 10
                    {| isCompleted := true; status := [5; 4];
                       answers := [[]; []] |})) in Hset.
    + vm_compute in Hset. apply Hset. reflexivity.
    + lia.
  - intros Hset.
    apply (proj2 (StatusThread_completion_threshold 0
                    {| isCompleted := false; status := [0];
                       answers := [[]] |})) in Hset.
    + vm_compute in Hset. discriminate Hset.
    + reflexivity.
Defined.

(** One worker on the single seed 7, which matches nothing. *)
Lemma StatusThread_single_seed_never_completes_witness :
  exists s0 s s',
    SpawnThreads 1 (DFin 100) 7 7 1 = Some s0 /\
    system_run [1] [WorkerThread 0; WorkerThread 0; WorkerThread 0; ReporterThread] s0
    = Some s /\
    system_step [1] ReporterThread s = Some s' /\
    isCompleted (sys_shared s') = false.
Proof.
  destruct (SpawnThreads (G := Z) 1 (DFin 100) 7 7 1) as [s0|] eqn:Hspawn;
    [|vm_compute in Hspawn; discriminate Hspawn].
  destruct (system_run [1]
              [WorkerThread 0; WorkerThread 0; WorkerThread 0; ReporterThread] s0)
    as [s|] eqn:Hrun.
  2: { vm_compute in Hspawn. injection Hspawn as <-.
       vm_compute in Hrun. discriminate Hrun. }
  destruct (system_step [1] ReporterThread s) as [s'|] eqn:Hstep.
  2: { cbn [system_step] in Hstep.
       destruct (StatusThread_step _ _ _); discriminate Hstep. }
  exists s0, s, s'. split; [reflexivity|]. split; [exact Hrun|].
  split; [exact Hstep|].
  apply (proj1 (StatusThread_single_seed_never_completes (G := Z) [1] 1 (DFin 100)
                  7 1 _ s0 s s' ltac:(lia) ltac:(lia) ltac:(lia) Hspawn Hrun Hstep)).
  vm_compute in Hspawn. injection Hspawn as <-.
  vm_compute in Hrun. injection Hrun as <-. reflexivity.
Defined.

Lemma InferState_scores_bounded_witness :
  ((InferState_window [5; 6; 9]%Z 1 0 getInstance).1 <= 2)%nat /\
  exists q, DFin 50 = DFin q /\ (0 <= q <= 100)%Q.
Proof.
  destruct (InferState_scores_bounded (G := Z) [5; 6; 9]) as [Hwin Hsc].
  split.
  - apply (Hwin 0%nat getInstance). simpl. lia.
  - apply (Hsc (DFin 50)). vm_compute. apply list_elem_of_here.
Defined.

(** Observing [5; 6; 9]: neither window is perfect. *)
Lemma InferState_no_perfect_window_witness :
  ir_return (InferState [5; 6; 9]) = false /\
  ir_windows (InferState [5; 6; 9]) = 2%nat /\
  length (ir_scores (InferState [5; 6; 9])) = 2%nat /\
  m_find_seed (main_tail [5; 6; 9]) = true.
Proof.
  destruct (InferState_no_perfect_window (G := Z) [5; 6; 9])
    as (Hret & Hwin & Hlen & Hfind).
  - simpl. lia.
  - intros j Hj. simpl in Hj.
    assert (Hcases : (j = 0 \/ j = 1)%nat) by lia.
    destruct Hcases as [-> | ->]; vm_compute; discriminate.
  - split; [exact Hret|]. split; [exact Hwin|]. split; [exact Hlen | exact Hfind].
Defined.

(** Seeds 0..5 at depth 1 against [6; 99] with a minimum of 50: nothing
    matches in full, seed 5 matches the first observation. *)
Lemma BruteForce_alone_without_full_match_witness :
  exists w' sh',
    BruteForce_run [6; 99] 14
      (BruteForce_start {| a_id := 0; a_minimumConfidence := DFin 100;
                           a_startingSeed := 0; a_endingSeed := 5; a_depth := 1 |})
      {| isCompleted := false; status := [0]; answers := [[]] |}
    = Some (w', sh')
    /\ w_pc w' = Returned
    /\ isCompleted sh' = false
    /\ status sh' !!! 0%nat = 5
    /\ answers sh' !!! 0%nat = [].
Proof.
  destruct (BruteForce_alone_without_full_match (G := Z) [6; 99]
              {| a_id := 0; a_minimumConfidence := DFin 100;
                 a_startingSeed := 0; a_endingSeed := 5; a_depth := 1 |}
              {| isCompleted := false; status := [0]; answers := [[]] |})
    as (w' & sh' & Hrun & Hret & Hflag & Hstat & Hnone & _).
  - intros v g g' d. reflexivity.
  - discriminate.
  - simpl. lia.
  - simpl. lia.
  - reflexivity.
  - simpl. lia.
  - simpl. lia.
  - intros s _ Hsub. apply sublist_length in Hsub.
    unfold stream in Hsub. rewrite outputs_length in Hsub. simpl in Hsub. lia.
  - exists w', sh'. split; [exact Hrun|]. split; [exact Hret|].
    split; [exact Hflag|]. split; [exact Hstat | apply Hnone; reflexivity].
Defined.

(** ** Backward scoring and the first observation *)

(** X18.  Backward scoring never compares a prediction with the first
    observation: its count is the same whatever that observation is. *)
Theorem InferState_backward_ignores_first (x y : Z) (rest : list Z)
    (todo : nat) (predictions_backward : list Z) :
  forall matchesFound index_pred index_obs,
    InferState_backward (x :: rest) todo predictions_backward
      matchesFound index_pred index_obs
    = InferState_backward (y :: rest) todo predictions_backward
        matchesFound index_pred index_obs.
Proof.
  induction todo as [|todo IH]; intros m ip io; cbn [InferState_backward];
    [reflexivity|].
  destruct io as [|io]; [reflexivity|].
  cbn [Nat.ltb Nat.leb lookup list_lookup].
  destruct (rest !! io) as [o|]; [|reflexivity].
  destruct (predictions_backward !! ip) as [p|]; [|reflexivity].
  destruct (o =? p); apply IH.
Qed.

(** ** GlibcRand as a generator *)

Section GlibcRandFacts.
Variable GLIBC_RAND_STATE_SIZE : nat.
Variable libc : Type.
Variable srand : Z -> libc -> libc.
Variable rand : libc -> Z * libc.
Variable libc_start : libc.
Variable base_setEvidence : list Z -> GlibcRand.t * libc -> GlibcRand.t * libc.
Variable base_tune : list Z -> list Z -> GlibcRand.t * libc -> GlibcRand.t * libc.
Variable base_reverseToSeed :
  Z -> GlibcRand.t * libc -> option Z * (GlibcRand.t * libc).

Local Abbreviation P :=
  (GlibcRand.prng GLIBC_RAND_STATE_SIZE libc srand rand libc_start
     base_setEvidence base_tune base_reverseToSeed).

Lemma GlibcRand_outputs_object d : forall (t1 t2 : GlibcRand.t) (l : libc),
  @outputs _ P d (t1, l) = @outputs _ P d (t2, l).
Proof.
  induction d as [|d IH]; intros t1 t2 l; cbn [outputs]; [reflexivity|].
  cbn [random GlibcRand.prng]. unfold GlibcRand.random. cbn [fst snd].
  destruct (rand l) as [x l']. f_equal. apply IH.
Qed.

(** X19.  What GlibcRand outputs never depends on its state words: after
    setState, and after seed whatever state was installed before, the
    outputs are those of the C library alone; and seed leaves the state
    words as they are. *)
Theorem GlibcRand_outputs_ignore_state (inState : list Z)
    (g : GlibcRand.t * libc) (d : nat) :
  @outputs _ P d (@setState _ P inState g) = @outputs _ P d g /\
  (forall value,
     @outputs _ P d (@seed _ P value (@setState _ P inState g))
     = @outputs _ P d (@seed _ P value g)) /\
  (forall value,
     @getState _ P (@seed _ P value (@setState _ P inState g))
     = @getState _ P (@setState _ P inState g)).
Proof.
  destruct g as [t l]. split; [|split].
  - cbn [setState GlibcRand.prng fst snd]. apply GlibcRand_outputs_object.
  - intros value. cbn [seed setState GlibcRand.prng]. unfold GlibcRand.seed.
    cbn [fst snd]. apply GlibcRand_outputs_object.
  - intros value. reflexivity.
Qed.

(** X20.  If srand installs a library state that depends on its argument
    alone, GlibcRand's outputs after seeding depend on the seed alone,
    whatever the generator went through before. *)
Theorem GlibcRand_seed_deterministic :
  (forall value l l', srand value l = srand value l') ->
  forall value (g g' : GlibcRand.t * libc) d,
    @outputs _ P d (@seed _ P value g) = @outputs _ P d (@seed _ P value g').
Proof.
  intros Hsrand value [t l] [t' l'] d.
  cbn [seed GlibcRand.prng]. unfold GlibcRand.seed. cbn [fst snd].
  rewrite (Hsrand value l l'). apply GlibcRand_outputs_object.
Qed.

End GlibcRandFacts.

(** A C library whose state is the last value returned, the next one
    being one more. *)
Lemma GlibcRand_seed_deterministic_witness :
  @outputs _ (GlibcRand.prng 1 Z (fun value _ => value) (fun l => (l + 1, l + 1)) 0
                (fun _ g => g) (fun _ _ g => g) (fun _ g => (None, g)))
    3 (GlibcRand.seed Z (fun value _ => value) 7 (GlibcRand.create, 0))
  = @outputs _ (GlibcRand.prng 1 Z (fun value _ => value) (fun l => (l + 1, l + 1)) 0
                  (fun _ g => g) (fun _ _ g => g) (fun _ g => (None, g)))
      3 (GlibcRand.seed Z (fun value _ => value) 7
           (GlibcRand.setState 1 [5] GlibcRand.create, 42)).
Proof.
  apply (GlibcRand_seed_deterministic 1 Z (fun value _ => value)
           (fun l => (l + 1, l + 1)) 0
           (fun _ g => g) (fun _ _ g => g) (fun _ g => (None, g))).
  intros value l l'. reflexivity.
Defined.
